(** * no-phi-ai : the scanning engine

    A shallow embedding of the parts of the scanner of
    [Pii-Hole-Engineering/no-phi-ai] that its specification talks about:
    the key tracker ([pkg/scanner/tracker]), the reconciler of
    [Scanner.reconcilePending], request construction ([pkg/scanner/rrr]),
    the ignore policy, the checkpoint store and the entry of the
    repository walk.

    Go strings are byte sequences and are modelled by [string]; Go [int]
    values by [Z]; Go maps by stdpp's [gmap]; a pair [(value, error)] by
    the [result] type below.  Reads of the wall clock ([rrr.TimestampNow])
    become explicit arguments. *)

From Stdlib Require Import ZArith String Ascii List Bool Lia.
From stdpp Require Import base option gmap strings list fin_maps.

Local Open Scope string_scope.
Local Open Scope Z_scope.

(** ** Results of fallible calls *)

Inductive result (E A : Type) : Type :=
| Ok (a : A)
| Err (e : E).
Arguments Ok {E A} a.
Arguments Err {E A} e.

Definition is_ok {E A} (r : result E A) : bool :=
  match r with Ok _ => true | Err _ => false end.

(** ** The key tracker *)

Module tracker.

(** [tracker.go] is not among the sources at hand: its tests
    ([tracker_test.go]) and its callers in the scanner are.  The module
    follows section 4.1 of the specification, with the names that the tests
    and the callers use. *)

(** The state codes of a key. *)
Definition KeyCodeInit : Z := -2.
Definition KeyCodeError : Z := -1.
Definition KeyCodeIgnore : Z := 0.
Definition KeyCodePending : Z := 1.
Definition KeyCodeComplete : Z := 2.

(** The state labels.  The tests only name the constants, so the labels
    are kept as an enumeration rather than as particular strings. *)
Inductive KeyState : Set :=
| KeyStateInit
| KeyStateError
| KeyStateIgnore
| KeyStatePending
| KeyStateComplete.

Inductive error : Set :=
| ErrKeyCodeInvalid
| ErrKeyUpdateKeyEmpty
| ErrKeyTrackerInvalidKind.

Definition ScanObjectTypeCommit : string := "commit".
Definition ScanObjectTypeFile : string := "file".
Definition ScanObjectTypeRequestResponse : string := "request_response".

(** Modelled from the spec: [KeyCodeToState] of the absent [tracker.go],
    the label derived from a code; a code outside the five known ones reads
    as the initial state ([TestKeyCodeToState/CustomCode]). *)
Definition KeyCodeToState (code : Z) : KeyState :=
  if code =? KeyCodeComplete then KeyStateComplete
  else if code =? KeyCodeIgnore then KeyStateIgnore
  else if code =? KeyCodeError then KeyStateError
  else if code =? KeyCodePending then KeyStatePending
  else KeyStateInit.

Definition code_is_valid (code : Z) : bool :=
  (KeyCodeInit <=? code) && (code <=? KeyCodeComplete).

(** Modelled from the spec: [KeyCodeValidate] of the absent [tracker.go];
    the valid codes are -2 to 2. *)
Definition KeyCodeValidate (code : Z) : option error :=
  if code_is_valid code then None else Some ErrKeyCodeInvalid.

Record KeyData : Type := mkKeyData {
  Code : Z;
  State : KeyState;
  Message : string;
  Children : gmap string bool;
  TimestampFirst : Z;
  TimestampLatest : Z
}.

Record KeyTracker : Type := mkKeyTracker {
  Keys : gmap string KeyData;
  Kind : string
}.

(** The children of a new key: each child key mapped to [false]. *)
Definition children_of_keys (child_keys : list string) : gmap string bool :=
  foldl (fun m c => <[c := false]> m) ∅ child_keys.

(** Modelled from the spec: [NewKeyData] of the absent [tracker.go]; both
    timestamps of a new record are the time of the call. *)
Definition NewKeyData (now : Z) (code : Z) (message : string)
    (child_keys : list string) : result error KeyData :=
  match KeyCodeValidate code with
  | Some e => Err e
  | None =>
      Ok {| Code := code;
            State := KeyCodeToState code;
            Message := message;
            Children := children_of_keys child_keys;
            TimestampFirst := now;
            TimestampLatest := now |}
  end.

Definition kind_is_valid (kind : string) : bool :=
  String.eqb kind ScanObjectTypeCommit
  || String.eqb kind ScanObjectTypeFile
  || String.eqb kind ScanObjectTypeRequestResponse.

(** Modelled from the spec: [NewKeyTracker] of the absent [tracker.go];
    the lock and the logger of the tracker are left out. *)
Definition NewKeyTracker (kind : string) : result error KeyTracker :=
  if kind_is_valid kind then Ok {| Keys := ∅; Kind := kind |}
  else Err ErrKeyTrackerInvalidKind.

(** Modelled from the spec: [Get], [GetKeysData], [Restore] and
    [GetKeysDataForCode] of the absent [tracker.go]: a read of one key, the
    snapshot of all keys, the replacement of the whole map, and the
    snapshot of the keys in one state. *)
Definition Get (kt : KeyTracker) (key : string) : option KeyData :=
  Keys kt !! key.

Definition GetKeysData (kt : KeyTracker) : gmap string KeyData := Keys kt.

Definition Restore (kt : KeyTracker) (snapshot : gmap string KeyData)
    : KeyTracker :=
  {| Keys := snapshot; Kind := Kind kt |}.

Definition GetKeysDataForCode (kt : KeyTracker) (code : Z)
    : result error (gmap string KeyData) :=
  match KeyCodeValidate code with
  | Some e => Err e
  | None => Ok (filter (fun kd => Code kd.2 = code) (Keys kt))
  end.

(** Modelled from the spec: the merge of the child keys named by an
    update into a children map, part of [Update] in the absent
    [tracker.go].  A named child is set to [true] when the update carries
    [KeyCodeComplete]; otherwise a child not yet known enters as [false]
    and a known one keeps its flag. *)
Definition merge_child (new_code : Z) (m : gmap string bool) (c : string)
    : gmap string bool :=
  if new_code =? KeyCodeComplete then <[c := true]> m
  else match m !! c with
       | Some _ => m
       | None => <[c := false]> m
       end.

Definition merge_children (new_code : Z) (child_keys : list string)
    (children : gmap string bool) : gmap string bool :=
  foldl (merge_child new_code) children child_keys.

(** No child flag is [false]. *)
Definition children_complete (children : gmap string bool) : bool :=
  forallb (fun kb => kb.2) (map_to_list children).

Definition set_key (kt : KeyTracker) (key : string) (d : KeyData)
    : KeyTracker :=
  {| Keys := <[key := d]> (Keys kt); Kind := Kind kt |}.

(** Modelled from the spec: [Update] of the absent [tracker.go], the state
    transition of one key, in the order of section 4.1: the checks of key
    and code, the insertion of a new key, and for a known key the merge of
    the children, the monotonic completion rule, the rule for open
    children, and the adoption of the new code.  [now] is the reading of
    the clock taken by the call. *)
Definition Update (kt : KeyTracker) (now : Z) (key : string) (new_code : Z)
    (message : string) (child_keys : list string)
    : KeyTracker * result error Z :=
  if String.eqb key "" then (kt, Err ErrKeyUpdateKeyEmpty)
  else match KeyCodeValidate new_code with
  | Some e => (kt, Err e)
  | None =>
    match Keys kt !! key with
    | None =>
        match NewKeyData now new_code message child_keys with
        | Ok d => (set_key kt key d, Ok new_code)
        | Err e => (kt, Err e)
        end
    | Some d =>
        let children := merge_children new_code child_keys (Children d) in
        if Code d =? KeyCodeComplete then
          (* monotonic completion: code and message stay *)
          (set_key kt key
             {| Code := Code d; State := State d; Message := Message d;
                Children := children;
                TimestampFirst := TimestampFirst d;
                TimestampLatest := TimestampLatest d |},
           Ok KeyCodeComplete)
        else if (new_code =? KeyCodeComplete)
                && negb (children_complete children) then
          (* complete requested while a child is still open *)
          (set_key kt key
             {| Code := KeyCodePending;
                State := KeyCodeToState KeyCodePending;
                Message := message;
                Children := children;
                TimestampFirst := TimestampFirst d;
                TimestampLatest := now |},
           Ok KeyCodePending)
        else
          (set_key kt key
             {| Code := new_code;
                State := KeyCodeToState new_code;
                Message := message;
                Children := children;
                TimestampFirst := TimestampFirst d;
                TimestampLatest := now |},
           Ok new_code)
    end
  end.

(** Modelled from the spec: [CheckAllComplete] of the absent [tracker.go]:
    every key is in a terminal state, COMPLETE or ERROR. *)
Definition code_is_terminal (code : Z) : bool :=
  (code =? KeyCodeComplete) || (code =? KeyCodeError).

Definition CheckAllComplete (kt : KeyTracker) : bool :=
  forallb (fun kd => code_is_terminal (Code kd.2)) (map_to_list (Keys kt)).

(** A run of updates on one key, as the table-driven tests apply them. *)
Definition apply_codes (kt : KeyTracker) (now : Z) (key : string)
    (codes : list Z) : KeyTracker :=
  foldl (fun t c => (Update t now key c "" []).1) kt codes.

(** One row of the tables of [TestKeyTracker_Update], and a run of such
    rows on one key; the clock advances by one with each call. *)
Record update_call : Type := mkCall {
  call_children : list string;
  call_code : Z;
  call_message : string
}.

Fixpoint run_updates (kt : KeyTracker) (now : Z) (key : string)
    (calls : list update_call) : KeyTracker * list (result error Z) :=
  match calls with
  | [] => (kt, [])
  | c :: rest =>
      let '(kt1, r) :=
        Update kt now key (call_code c) (call_message c) (call_children c) in
      let '(kt2, rs) := run_updates kt1 (now + 1) key rest in
      (kt2, r :: rs)
  end.

(** What the tests read back of a key: code, state, message and the names
    of the children. *)
Definition observe (kt : KeyTracker) (key : string)
    : option (Z * KeyState * string * list string) :=
  match Get kt key with
  | Some d => Some (Code d, State d, Message d, (map_to_list (Children d)).*1)
  | None => None
  end.

(** The tracker the tests start from. *)
Definition new_file_tracker : KeyTracker :=
  {| Keys := ∅; Kind := ScanObjectTypeFile |}.

(** No tracked key is the empty string. *)
Definition keys_nonempty (kt : KeyTracker) : Prop :=
  Keys kt !! "" = None.

(** The state of one key during such a run: its code, and no child. *)
Definition key_at (key : string) (code : Z) (kt : KeyTracker) : Prop :=
  exists d, Keys kt !! key = Some d /\ Code d = code /\ Children d = ∅.

End tracker.

(** ** Requests: [pkg/scanner/rrr] *)

Module rrr.

(** *** [crypto/sha1] and [encoding/hex]

    The two library calls of [NewRequest], written out after FIPS 180-4 on
    32-bit words held in [Z]. *)

Definition mask32 : Z := 0xFFFFFFFF.

Definition add32 (x y : Z) : Z := Z.land (x + y) mask32.

Definition rotl32 (n : Z) (x : Z) : Z :=
  Z.lor (Z.land (Z.shiftl x n) mask32) (Z.shiftr x (32 - n)).

Definition not32 (x : Z) : Z := Z.lxor x mask32.

Definition bytes_of_string (s : string) : list Z :=
  List.map (fun a => Z.of_N (N_of_ascii a)) (list_ascii_of_string s).

(** The [k]-byte big-endian representation of [x]. *)
Fixpoint be_bytes (k : nat) (x : Z) : list Z :=
  match k with
  | O => []
  | S k' => Z.land (Z.shiftr x (8 * Z.of_nat k')) 0xFF :: be_bytes k' x
  end.

(** Padding: a single 1 bit, zeros up to 56 mod 64, the bit length on 8
    bytes. *)
Definition pad (msg : list Z) : list Z :=
  let len := Z.of_nat (List.length msg) in
  let zeros := Z.to_nat ((55 - len) mod 64) in
  msg ++ [0x80] ++ List.repeat 0 zeros ++ be_bytes 8 (8 * len).

Definition word_of_bytes (b0 b1 b2 b3 : Z) : Z :=
  Z.lor (Z.lor (Z.shiftl b0 24) (Z.shiftl b1 16)) (Z.lor (Z.shiftl b2 8) b3).

Fixpoint words_of_bytes (fuel : nat) (bs : list Z) : list Z :=
  match fuel, bs with
  | S fuel', b0 :: b1 :: b2 :: b3 :: rest =>
      word_of_bytes b0 b1 b2 b3 :: words_of_bytes fuel' rest
  | _, _ => []
  end.

(** The message schedule, kept newest-first while it grows from 16 to 80
    words. *)
Fixpoint extend_schedule (n : nat) (rev_w : list Z) : list Z :=
  match n with
  | O => rev_w
  | S n' =>
      let x := Z.lxor (Z.lxor (List.nth 2 rev_w 0) (List.nth 7 rev_w 0))
                      (Z.lxor (List.nth 13 rev_w 0) (List.nth 15 rev_w 0)) in
      extend_schedule n' (rotl32 1 x :: rev_w)
  end.

Definition schedule (block_words : list Z) : list Z :=
  List.rev (extend_schedule 64 (List.rev block_words)).

Definition round_f (t : nat) (b c d : Z) : Z :=
  if (t <? 20)%nat then Z.lor (Z.land b c) (Z.land (not32 b) d)
  else if (t <? 40)%nat then Z.lxor (Z.lxor b c) d
  else if (t <? 60)%nat then
    Z.lor (Z.lor (Z.land b c) (Z.land b d)) (Z.land c d)
  else Z.lxor (Z.lxor b c) d.

Definition round_k (t : nat) : Z :=
  if (t <? 20)%nat then 0x5A827999
  else if (t <? 40)%nat then 0x6ED9EBA1
  else if (t <? 60)%nat then 0x8F1BBCDC
  else 0xCA62C1D6.

Record digest_state : Type := mkDigest { h0 : Z; h1 : Z; h2 : Z; h3 : Z; h4 : Z }.

Definition init_state : digest_state :=
  mkDigest 0x67452301 0xEFCDAB89 0x98BADCFE 0x10325476 0xC3D2E1F0.

Fixpoint rounds (t : nat) (ws : list Z) (s : digest_state) : digest_state :=
  match ws with
  | [] => s
  | w :: ws' =>
      let '(mkDigest a b c d e) := s in
      let temp :=
        add32 (add32 (add32 (add32 (rotl32 5 a) (round_f t b c d)) e) w)
              (round_k t) in
      rounds (S t) ws' (mkDigest temp a (rotl32 30 b) c d)
  end.

Definition block (s : digest_state) (block_bytes : list Z) : digest_state :=
  let r := rounds 0 (schedule (words_of_bytes 16 block_bytes)) s in
  mkDigest (add32 (h0 s) (h0 r)) (add32 (h1 s) (h1 r)) (add32 (h2 s) (h2 r))
           (add32 (h3 s) (h3 r)) (add32 (h4 s) (h4 r)).

Fixpoint blocks (fuel : nat) (s : digest_state) (bs : list Z) : digest_state :=
  match fuel, bs with
  | S fuel', _ :: _ => blocks fuel' (block s (take 64 bs)) (drop 64 bs)
  | _, _ => s
  end.

(** [sha1.Sum]: the 20 bytes of the digest. *)
Definition sha1_Sum (data : list Z) : list Z :=
  let p := pad data in
  let s := blocks (List.length p) init_state p in
  be_bytes 4 (h0 s) ++ be_bytes 4 (h1 s) ++ be_bytes 4 (h2 s)
    ++ be_bytes 4 (h3 s) ++ be_bytes 4 (h4 s).

Definition hextable : string := "0123456789abcdef".

Definition hex_digit (n : Z) : ascii :=
  match String.get (Z.to_nat n) hextable with
  | Some c => c
  | None => "0"%char
  end.

Definition is_lower_hex (c : ascii) : Prop :=
  In c (list_ascii_of_string hextable).

(** [hex.EncodeToString]: two lowercase digits per byte. *)
Fixpoint EncodeToString (bs : list Z) : string :=
  match bs with
  | [] => ""
  | b :: bs' =>
      String (hex_digit (Z.shiftr b 4))
        (String (hex_digit (Z.land b 0x0F)) (EncodeToString bs'))
  end.

(** [strings.Join]. *)
Fixpoint Join (elems : list string) (sep : string) : string :=
  match elems with
  | [] => ""
  | [e] => e
  | e :: rest => e +:+ sep +:+ Join rest sep
  end.

(** *** The request *)

Inductive error : Set :=
| ErrNewRequestEmptyRepositoryID
| ErrNewRequestEmptyObjectID
| ErrNewRequestEmptyCommitID
| ErrNewRequestEmptyText.

(** Modelled from the spec: the declaration of the constant
    [ResultSeparatorUID] is not among the sources.  The specification only
    calls it a fixed separator string; its value is the one for which
    [TestNewRequest/ValidInput] obtains its expected hash. *)
Definition ResultSeparatorUID : string := "__".

Record MetadataRequestResponseCommit : Type := mkCommitMeta {
  Commit_ID : string
}.

Record MetadataRequestResponseObject : Type := mkObjectMeta {
  Object_ID : string;
  Object_Length : Z;
  Object_Offset : Z
}.

Record MetadataRequestResponseRepository : Type := mkRepositoryMeta {
  Repository_ID : string;
  Repository_URL : string
}.

Record MetadataRequestResponseTime : Type := mkTimeMeta {
  Start : Z;
  Stop : Z
}.

Record MetadataRequestResponse : Type := mkMetadata {
  ID : string;
  Commit : MetadataRequestResponseCommit;
  Object : MetadataRequestResponseObject;
  Repository : MetadataRequestResponseRepository;
  Time : MetadataRequestResponseTime
}.

Record Request : Type := mkRequest {
  Metadata : MetadataRequestResponse;
  Text : string
}.

(** The zero value [Request{}]. *)
Definition Request_zero : Request :=
  {| Metadata :=
       {| ID := "";
          Commit := {| Commit_ID := "" |};
          Object := {| Object_ID := ""; Object_Length := 0; Object_Offset := 0 |};
          Repository := {| Repository_ID := ""; Repository_URL := "" |};
          Time := {| Start := 0; Stop := 0 |} |};
     Text := "" |}.

Record NewRequestInput : Type := mkNewRequestInput {
  in_CommitID : string;
  in_Length : Z;
  in_ObjectID : string;
  in_Offset : Z;
  in_RepoID : string;
  in_Text : string
}.

(** [NewRequest]; [now] is the value of [TimestampNow()]. *)
Definition NewRequest (now : Z) (i : NewRequestInput)
    : Request * option error :=
  if String.eqb (in_RepoID i) "" then
    (Request_zero, Some ErrNewRequestEmptyRepositoryID)
  else if String.eqb (in_ObjectID i) "" then
    (Request_zero, Some ErrNewRequestEmptyObjectID)
  else if String.eqb (in_CommitID i) "" then
    (Request_zero, Some ErrNewRequestEmptyCommitID)
  else if String.eqb (in_Text i) "" then
    (Request_zero, Some ErrNewRequestEmptyText)
  else
    let elements := [in_RepoID i; in_CommitID i; in_ObjectID i; in_Text i] in
    let sum := sha1_Sum (bytes_of_string (Join elements ResultSeparatorUID)) in
    ({| Metadata :=
          {| ID := EncodeToString sum;
             Commit := {| Commit_ID := in_CommitID i |};
             Object := {| Object_ID := in_ObjectID i;
                          Object_Length := in_Length i;
                          Object_Offset := in_Offset i |};
             Repository := {| Repository_ID := in_RepoID i;
                              Repository_URL := "" |};
             Time := {| Start := now; Stop := 0 |} |};
        Text := in_Text i |},
     None).

(** The fingerprint of a tuple, as the specification words it. *)
Definition fingerprint (repo_id commit_id object_id text : string) : string :=
  EncodeToString
    (sha1_Sum (bytes_of_string
       (Join [repo_id; commit_id; object_id; text] ResultSeparatorUID))).

(** [Response]: the envelope of the request and the results of the
    detection.  The type of one result is declared in a file that is not
    at hand and stays a parameter. *)
Record Response (Result : Type) : Type := mkResponse {
  Response_Metadata : MetadataRequestResponse;
  Results : list Result
}.
Arguments mkResponse {Result} _ _.
Arguments Response_Metadata {Result} _.
Arguments Results {Result} _.

(** [NewResponse]: the envelope is copied, the results start empty. *)
Definition NewResponse {Result : Type} (request : Request) : Response Result :=
  {| Response_Metadata := Metadata request; Results := [] |}.

End rrr.

(** ** The scanner: [pkg/scanner] *)

Module scanner.

Import tracker.

(** *** Errors *)

Inductive error : Type :=
| ErrCheckpointDataUnmarshalFailed
| ErrCheckpointDeleteFailed
| ErrCheckpointFileOpenFailed
| ErrCheckpointFileReadFailed
| ErrCheckpointPathLookupFailed
| ErrProcessRequestNoID
| ErrProcessResponseNoID
| ErrScannerRepositoryNil
| External (text : string)            (* an error of os, base64, json, nogit *)
| Wrap (cause : error) (message : string).   (* errors.Wrap(cause, message) *)

Definition ErrMsgErrorChannelNil : string :=
  "received nil error channel as input".

(** [err.Error()]. *)
Fixpoint Error (e : error) : string :=
  match e with
  | ErrCheckpointDataUnmarshalFailed => "failed to unmarshal checkpoint data"
  | ErrCheckpointDeleteFailed => "failed to delete checkpoint file"
  | ErrCheckpointFileOpenFailed => "failed to open checkpoint file"
  | ErrCheckpointFileReadFailed => "failed to read checkpoint file"
  | ErrCheckpointPathLookupFailed => "failed to lookup checkpoint path"
  | ErrProcessRequestNoID => "cannot process a request without a valid ID"
  | ErrProcessResponseNoID => "cannot process a response without a valid ID"
  | ErrScannerRepositoryNil => "Scanner cannot scan repository with nil pointer"
  | External text => text
  | Wrap cause message => message +:+ ": " +:+ Error cause
  end.

(** [errors.Cause]: the innermost wrapped error. *)
Fixpoint Cause (e : error) : error :=
  match e with
  | Wrap cause _ => Cause cause
  | _ => e
  end.

(** *** The three trackers and the reconciler *)

(** The fields of [Scanner] that the reconciler touches. *)
Record Scanner : Type := mkScanner {
  TrackerCommits : KeyTracker;
  TrackerFiles : KeyTracker;
  TrackerRequests : KeyTracker
}.

(** What one run of the reconciler takes from its environment: the order
    in which each [range] over a Go map visits the entries, and the clock
    reading of the [Update] issued for a key. *)
Record Run : Type := mkRun {
  range_keys : gmap string KeyData -> list (string * KeyData);
  range_children : gmap string bool -> list (string * bool);
  now_file : string -> Z;
  now_commit : string -> Z
}.

(** A [range] visits every entry of the map once, in some order. *)
Definition run_ranges_maps (r : Run) : Prop :=
  (forall m, range_keys r m ≡ₚ map_to_list m)
  /\ (forall m, range_children r m ≡ₚ map_to_list m).

(** The body of the inner loop: a child that is not yet flagged, is known
    to the child tracker and is complete there is appended. *)
Definition collect_complete (children_tracker : KeyTracker)
    (acc : list string) (entry : string * bool) : list string :=
  if entry.2 then acc
  else match Get children_tracker entry.1 with
       | None => acc
       | Some child_data =>
           if Code child_data =? KeyCodeComplete then acc ++ [entry.1]
           else acc
       end.

(** The body of the outer loop for one pending key. *)
Definition reconcile_key (r : Run) (now : string -> Z)
    (children_tracker : KeyTracker) (parents : KeyTracker)
    (entry : string * KeyData) : KeyTracker :=
  let complete :=
    foldl (collect_complete children_tracker) []
          (range_children r (Children entry.2)) in
  if (0 <? Z.of_nat (List.length complete)) then
    (Update parents (now entry.1) entry.1 KeyCodeComplete "" complete).1
  else parents.

(** The outer loop: the pending keys of the snapshot, in the order of the
    run. *)
Definition reconcile_keys (r : Run) (now : string -> Z)
    (children_tracker : KeyTracker) (parents : KeyTracker)
    (pending : gmap string KeyData) : KeyTracker :=
  foldl (reconcile_key r now children_tracker) parents (range_keys r pending).

(** [Scanner.reconcilePending]: the pending files against the requests,
    then the pending commits against the files as the first loop left
    them.  An error of [GetKeysDataForCode] ends the run; an error of
    [Update] is logged and the loop goes on. *)
Definition reconcilePending (r : Run) (s : Scanner) : Scanner :=
  match GetKeysDataForCode (TrackerFiles s) KeyCodePending with
  | Err _ => s
  | Ok pending_files =>
      let files :=
        reconcile_keys r (now_file r) (TrackerRequests s) (TrackerFiles s)
                       pending_files in
      match GetKeysDataForCode (TrackerCommits s) KeyCodePending with
      | Err _ =>
          {| TrackerCommits := TrackerCommits s;
             TrackerFiles := files;
             TrackerRequests := TrackerRequests s |}
      | Ok pending_commits =>
          {| TrackerCommits :=
               reconcile_keys r (now_commit r) files (TrackerCommits s)
                              pending_commits;
             TrackerFiles := files;
             TrackerRequests := TrackerRequests s |}
      end
  end.

(** A child of a key that one run would promote: flagged [false] by the
    parent, complete in the tracker of the children. *)
Definition promotable (children_tracker : KeyTracker)
    (children : gmap string bool) (c : string) : Prop :=
  children !! c = Some false
  /\ exists child_data,
       Keys children_tracker !! c = Some child_data
       /\ Code child_data = KeyCodeComplete.

(** A pending key on which a run has nothing to do: [Update] rejects its
    empty key, or none of its children can be promoted. *)
Definition quiet (children_tracker : KeyTracker) (key : string)
    (d : KeyData) : Prop :=
  key = "" \/ forall c, ~ promotable children_tracker (Children d) c.

(** What one step of the reconciler makes of the data [d] of a pending
    key: [d'] is COMPLETE exactly when some child could be promoted and no
    open child could not; the promoted children are flagged, the others
    keep their flag; and nothing at all changes when no child is open. *)
Definition promoted (children_tracker : KeyTracker) (d d' : KeyData) : Prop :=
  (Code d' = KeyCodeComplete
   <-> (exists c, promotable children_tracker (Children d) c)
       /\ forall c, Children d !! c = Some false ->
             promotable children_tracker (Children d) c)
  /\ (forall c, promotable children_tracker (Children d) c ->
      Children d' !! c = Some true)
  /\ (forall c, ~ promotable children_tracker (Children d) c ->
      Children d' !! c = Children d !! c)
  /\ ((forall c, ~ promotable children_tracker (Children d) c) -> d' = d).

(** A run that visits maps in the order of [map_to_list], with fixed clock
    readings; and a scanner after the walk, in which the only request of
    the only file of the only commit is complete while file and commit
    still wait. *)
Definition example_run : Run :=
  {| range_keys := map_to_list;
     range_children := map_to_list;
     now_file := fun _ => 10;
     now_commit := fun _ => 11 |}.

Definition example_scanner : Scanner :=
  {| TrackerCommits :=
       (Update {| Keys := ∅; Kind := ScanObjectTypeCommit |}
               1 "commit1" KeyCodePending "" ["file1"]).1;
     TrackerFiles :=
       (Update {| Keys := ∅; Kind := ScanObjectTypeFile |}
               2 "file1" KeyCodePending "" ["request1"]).1;
     TrackerRequests :=
       (Update {| Keys := ∅; Kind := ScanObjectTypeRequestResponse |}
               3 "request1" KeyCodeComplete "" []).1 |}.

(** *** The ignore policy *)













(** *** The checkpoint store: [checkpoint.go] *)

Definition CheckpointFileExtension : string := ".checkpoint".

(** Modelled from the spec: the constant [cfg.WorkDirCheckpoints] is
    declared outside the sources at hand; the specification gives the path
    as [<work_dir>/checkpoints/...]. *)
Definition WorkDirCheckpoints : string := "checkpoints".

Record Checkpoint : Type := mkCheckpoint {
  CreatedAt : Z;
  TrackerCommitsData : gmap string KeyData;
  TrackerFilesData : gmap string KeyData;
  TrackerRequestsData : gmap string KeyData
}.

Definition Checkpoint_zero : Checkpoint :=
  {| CreatedAt := 0; TrackerCommitsData := ∅; TrackerFilesData := ∅;
     TrackerRequestsData := ∅ |}.

(** The calls into other packages: the two URL parsers of [nogit] (absent
    from the sources), [base64.StdEncoding.DecodeString] and
    [json.Unmarshal] into a fresh [Checkpoint].  A failure carries the text
    of its error. *)
Record Env : Type := mkEnv {
  ParseOrgNameFromURL : string -> result string string;
  ParseRepoNameFromURL : string -> result string string;
  DecodeString : string -> result string string;
  Unmarshal : string -> Checkpoint * option string
}.

(** The file system, as far as the store uses it: regular files with their
    bytes, and the directories that exist.  Permissions, links and open
    handles are left out. *)
Record FS : Type := mkFS {
  fs_files : gmap string string;
  fs_dirs : gset string
}.

(** The path up to its last slash; [None] when there is no slash. *)
Fixpoint dir_of (path : string) : option string :=
  match path with
  | EmptyString => None
  | String c rest =>
      match dir_of rest with
      | Some d => Some (String c d)
      | None => if Ascii.eqb c "/"%char then Some "" else None
      end
  end.

(** A name that is a single path element. *)
Fixpoint no_slash (name : string) : bool :=
  match name with
  | EmptyString => true
  | String c rest => negb (Ascii.eqb c "/"%char) && no_slash rest
  end.

Definition parent_dir (path : string) : string :=
  match dir_of path with
  | None => "."
  | Some EmptyString => "/"
  | Some d => d
  end.

(** [os.OpenFile(path, os.O_CREATE|os.O_RDWR, os.ModePerm)]: an existing
    file is opened; a missing one is created empty when its directory
    exists; otherwise the call fails. *)
Definition OpenFile_create_rdwr (fs : FS) (path : string)
    : FS * result string string :=
  match fs_files fs !! path with
  | Some _ => (fs, Ok path)
  | None =>
      if bool_decide (path ∈ fs_dirs fs) then
        (fs, Err ("open " +:+ path +:+ ": is a directory"))
      else if bool_decide (parent_dir path ∈ fs_dirs fs) then
        ({| fs_files := <[path := ""]> (fs_files fs); fs_dirs := fs_dirs fs |},
         Ok path)
      else (fs, Err ("open " +:+ path +:+ ": no such file or directory"))
  end.

(** The size reported by [file.Stat()] and the bytes read by
    [file.Read]. *)
Definition file_content (fs : FS) (handle : string) : string :=
  default "" (fs_files fs !! handle).

Definition file_size (fs : FS) (handle : string) : Z :=
  Z.of_nat (String.length (file_content fs handle)).

(** [getCheckpointPath]:
    [<work_dir>/checkpoints/<org>_<repo>[_<commit>].checkpoint]. *)
Definition getCheckpointPath (env : Env) (work_dir repo_url commit_id : string)
    : result error string :=
  if String.eqb work_dir "" then
    Err (Wrap ErrCheckpointPathLookupFailed "work_dir is empty")
  else if String.eqb repo_url "" then
    Err (Wrap ErrCheckpointPathLookupFailed "repo_url is empty")
  else
    match ParseOrgNameFromURL env repo_url with
    | Err text => Err (Wrap ErrCheckpointPathLookupFailed text)
    | Ok org_name =>
        match ParseRepoNameFromURL env repo_url with
        | Err text => Err (Wrap ErrCheckpointPathLookupFailed text)
        | Ok repo_name =>
            let name_list :=
              if String.eqb commit_id "" then [org_name; repo_name]
              else [org_name; repo_name; commit_id] in
            let file_name :=
              rrr.Join name_list "_" +:+ CheckpointFileExtension in
            Ok (rrr.Join [work_dir; WorkDirCheckpoints; file_name] "/")
        end
    end.

(** [openCheckpointFile]: the file is opened for reading and writing and
    created if it is missing. *)
Definition openCheckpointFile (env : Env) (fs : FS)
    (work_dir repo_url commit_id : string) : FS * result error string :=
  match getCheckpointPath env work_dir repo_url commit_id with
  | Err e => (fs, Err e)
  | Ok path =>
      match OpenFile_create_rdwr fs path with
      | (fs', Err text) => (fs', Err (Wrap ErrCheckpointFileOpenFailed text))
      | (fs', Ok file) => (fs', Ok file)
      end
  end.

(** [CheckpointGet]: the file system after the call, the checkpoint
    pointer ([None] for nil) and the error ([None] for nil).  [Stat] and
    [Read] on the open file do not fail here. *)
Definition CheckpointGet (env : Env) (fs : FS)
    (work_dir repo_url commit_id : string)
    : FS * (option Checkpoint * option error) :=
  match getCheckpointPath env work_dir repo_url commit_id with
  | Err e => (fs, (None, Some e))
  | Ok _ =>
      match openCheckpointFile env fs work_dir repo_url commit_id with
      | (fs', Err e) => (fs', (None, Some e))
      | (fs', Ok file) =>
          if file_size fs' file =? 0 then
            (fs', (None, Some (Wrap ErrCheckpointFileReadFailed "file size is 0")))
          else
            match DecodeString env (file_content fs' file) with
            | Err text => (fs', (None, Some (External text)))
            | Ok data_json =>
                match Unmarshal env data_json with
                | (cpoint, Some text) =>
                    (fs', (Some cpoint,
                           Some (Wrap (External text)
                                      (Error ErrCheckpointDataUnmarshalFailed))))
                | (cpoint, None) => (fs', (Some cpoint, None))
                end
            end
      end
  end.

(** An environment for examples: the URL of the scanner tests,
    [git@github.com:BlackIQ/learn.git], parses to its organisation and
    repository; nothing decodes. *)
Definition example_env : Env :=
  {| ParseOrgNameFromURL := fun _ => Ok "BlackIQ";
     ParseRepoNameFromURL := fun _ => Ok "learn";
     DecodeString := fun _ => Err "illegal base64 data";
     Unmarshal := fun _ => (Checkpoint_zero, Some "unexpected end of JSON input") |}.

(** The work directory of the scanner tests, without and with its
    [checkpoints] directory. *)
Definition example_work_dir : string := "/tmp/no-phi-ai/test/pkg/scanner".

Definition example_fs_fresh : FS :=
  {| fs_files := ∅; fs_dirs := {[ example_work_dir ]} |}.

Definition example_fs_prepared : FS :=
  {| fs_files := ∅;
     fs_dirs := {[ example_work_dir; example_work_dir +:+ "/checkpoints" ]} |}.

(** *** The entry of the repository walk: [Scanner.scanRepository] *)

(** A commit iterator: the commits it yields and the error, if any, with
    which [ForEach] ends. *)
Record CommitIter : Type := mkCommitIter {
  iter_commits : list string;
  iter_error : option error
}.

(** A repository handle: what [CommitObjects()] returns on it. *)
Record Repository : Type := mkRepository {
  commit_objects : result error CommitIter
}.

(** What the body of [scanRepository] does that other goroutines can see,
    in program order. *)
Inductive event : Type :=
| EvSendError (e : error)              (* errors_out <- e *)
| EvStoreRepository (is_nil : bool) (repo_url : string)
| EvGoCheckpointScan (repo_url : string)
| EvGoProcessCommits
| EvScanCommit (commit_id : string)    (* one call of s.scanCommit *)
| EvCloseChanCommits
| EvWaitProcessCommits
| EvSetScanComplete
| EvCloseDone.                         (* the deferred close(done) *)

Inductive outcome : Type :=
| Returned
| Panicked (value : string).

Definition nil_dereference : string :=
  "runtime error: invalid memory address or nil pointer dereference".

(** [s.repository.CommitObjects()]: on a nil handle the method reads a
    field of its receiver and the Go runtime panics. *)
Definition CommitObjects (repository : option Repository)
    : result string (result error CommitIter) :=
  match repository with
  | None => Err nil_dereference
  | Some r => Ok (commit_objects r)
  end.

(** [scanRepository]: [errors_out] is [None] for a nil channel,
    [repository] is [None] for a nil pointer.  The result is the trace of
    the call and the way it ends; [close(done)] is deferred and so closes
    every trace. *)
Definition scanRepository (repo_url : string) (repository : option Repository)
    (errors_out : option unit) : list event * outcome :=
  match errors_out with
  | None => ([EvCloseDone], Panicked ErrMsgErrorChannelNil)
  | Some _ =>
      let reported :=
        match repository with
        | None => [EvSendError ErrScannerRepositoryNil]
        | Some _ => []
        end in
      let started :=
        (reported ++ [EvStoreRepository (bool_decide (repository = None)) repo_url;
                      EvGoCheckpointScan repo_url])%list in
      match CommitObjects repository with
      | Err value => ((started ++ [EvCloseDone])%list, Panicked value)
      | Ok (Err _) => ((started ++ [EvCloseDone])%list, Returned)
      | Ok (Ok commit_iterator) =>
          let walked :=
            List.map EvScanCommit (iter_commits commit_iterator) in
          let failed :=
            match iter_error commit_iterator with
            | Some e =>
                [EvSendError
                   (Wrap e ("failed to iterate through commits in repository "
                            +:+ repo_url))]
            | None => []
            end in
          ((started ++ [EvGoProcessCommits] ++ walked ++ failed
              ++ [EvCloseChanCommits; EvWaitProcessCommits; EvSetScanComplete;
                  EvCloseDone])%list,
           Returned)
      end
  end.

(** A commit is walked when [scanCommit] is called on it. *)
Definition is_walk (ev : event) : bool :=
  match ev with EvScanCommit _ => true | _ => false end.

(** *** Writing and deleting checkpoints *)

Definition ErrMsgCheckpointSaveFailed : string :=
  "failed to save checkpoint data to file".
Definition ErrMsgResultWriteFailed : string := "failed to write result".

(** The encoding side of the store: [json.Marshal] of a checkpoint and
    [base64.StdEncoding.EncodeToString]. *)
Record Encoder : Type := mkEncoder {
  enc_Marshal : Checkpoint -> result string string;
  enc_EncodeToString : string -> string
}.

(** [NewCheckpoint]; [now] is the value of [rrr.TimestampNow()]. *)
Definition NewCheckpoint (now : Z)
    (data_commits data_files data_requests : gmap string KeyData)
    : Checkpoint :=
  {| CreatedAt := now;
     TrackerCommitsData := data_commits;
     TrackerFilesData := data_files;
     TrackerRequestsData := data_requests |}.

(** The directories on the way to [path], [path] included: what
    [os.MkdirAll] makes sure of. *)
Fixpoint ancestors_from (pre rest : string) : list string :=
  match rest with
  | EmptyString => [pre]
  | String c rest' =>
      (if Ascii.eqb c "/"%char && negb (String.eqb pre "") then [pre] else [])
        ++ ancestors_from (pre +:+ String c "") rest'
  end.

Definition ancestors (path : string) : list string := ancestors_from "" path.

(** [os.MkdirAll(path, os.ModePerm)]: fails when a regular file is in the
    way, otherwise every directory on the way exists afterwards. *)
Definition MkdirAll (fs : FS) (path : string) : FS * option string :=
  if existsb (fun d => bool_decide (is_Some (fs_files fs !! d)))
             (ancestors path) then
    (fs, Some ("mkdir " +:+ path +:+ ": not a directory"))
  else
    ({| fs_files := fs_files fs;
        fs_dirs := fs_dirs fs ∪ list_to_set (ancestors path) |},
     None).

(** [os.Create(path)]: the file is created or truncated. *)
Definition Create (fs : FS) (path : string) : FS * result string string :=
  if bool_decide (path ∈ fs_dirs fs) then
    (fs, Err ("open " +:+ path +:+ ": is a directory"))
  else if bool_decide (parent_dir path ∈ fs_dirs fs) then
    ({| fs_files := <[path := ""]> (fs_files fs); fs_dirs := fs_dirs fs |},
     Ok path)
  else (fs, Err ("open " +:+ path +:+ ": no such file or directory")).

(** [file.Truncate(0)] followed by [file.WriteString(data)] on a file that
    has just been opened: the file holds [data]. *)
Definition truncate_and_write (fs : FS) (file data : string) : FS :=
  {| fs_files := <[file := data]> (fs_files fs); fs_dirs := fs_dirs fs |}.

(** What lies directly in a directory. *)
Definition dir_entries (fs : FS) (dir : string) : list string :=
  List.filter (fun p => String.eqb (parent_dir p) dir)
              ((map_to_list (fs_files fs)).*1 ++ elements (fs_dirs fs)).

(** [os.Remove(path)]: a file or an empty directory is removed. *)
Definition Remove (fs : FS) (path : string) : FS * option string :=
  match fs_files fs !! path with
  | Some _ =>
      ({| fs_files := delete path (fs_files fs); fs_dirs := fs_dirs fs |}, None)
  | None =>
      if bool_decide (path ∈ fs_dirs fs) then
        match dir_entries fs path with
        | [] =>
            ({| fs_files := fs_files fs; fs_dirs := fs_dirs fs ∖ {[ path ]} |},
             None)
        | _ :: _ => (fs, Some ("remove " +:+ path +:+ ": directory not empty"))
        end
      else (fs, Some ("remove " +:+ path +:+ ": no such file or directory"))
  end.

(** [createCheckpointFile]: the directories of the path are made, then the
    file. *)
Definition createCheckpointFile (env : Env) (fs : FS)
    (work_dir repo_url commit_id : string) : FS * result error string :=
  match getCheckpointPath env work_dir repo_url commit_id with
  | Err e => (fs, Err (Wrap e ErrMsgCheckpointSaveFailed))
  | Ok path =>
      match MkdirAll fs (parent_dir path) with
      | (fs1, Some text) =>
          (fs1, Err (Wrap (External text) ErrMsgCheckpointSaveFailed))
      | (fs1, None) =>
          match Create fs1 path with
          | (fs2, Err text) =>
              (fs2, Err (Wrap (External text) ErrMsgCheckpointSaveFailed))
          | (fs2, Ok file) => (fs2, Ok file)
          end
      end
  end.

(** [CheckpointSet].  A failure of [json.Marshal] sets the error but does
    not end the call: the empty data is encoded and written all the
    same. *)
Definition CheckpointSet (env : Env) (enc : Encoder) (fs : FS)
    (work_dir repo_url commit_id : string) (c : Checkpoint)
    : FS * option error :=
  match getCheckpointPath env work_dir repo_url commit_id with
  | Err e => (fs, Some (Wrap e ErrMsgCheckpointSaveFailed))
  | Ok _ =>
      let '(fs1, opened) :=
        openCheckpointFile env fs work_dir repo_url commit_id in
      let '(fs2, file) :=
        match opened with
        | Ok f => (fs1, Ok f)
        | Err _ => createCheckpointFile env fs1 work_dir repo_url commit_id
        end in
      match file with
      | Err e => (fs2, Some (Wrap e ErrMsgCheckpointSaveFailed))
      | Ok f =>
          let '(data_json, e) :=
            match enc_Marshal enc c with
            | Ok j => (j, None)
            | Err text =>
                ("", Some (Wrap (External text) ErrMsgCheckpointSaveFailed))
            end in
          (truncate_and_write fs2 f (enc_EncodeToString enc data_json), e)
      end
  end.

(** [CheckpointDelete]. *)
Definition CheckpointDelete (env : Env) (fs : FS)
    (work_dir repo_url commit_id : string) : FS * option error :=
  match getCheckpointPath env work_dir repo_url commit_id with
  | Err e => (fs, Some (Wrap ErrCheckpointDeleteFailed (Error e)))
  | Ok file_path =>
      if String.eqb file_path "" then (fs, Some ErrCheckpointDeleteFailed)
      else
        match Remove fs file_path with
        | (fs', Some text) => (fs', Some (Wrap ErrCheckpointDeleteFailed text))
        | (fs', None) => (fs', None)
        end
  end.

(** A codec for examples: every checkpoint is written as the JSON text
    of an empty object, the encoding puts a mark in front of the text and
    the decoding takes it off again. *)
Definition example_encoder : Encoder :=
  {| enc_Marshal := fun _ => Ok "{}";
     enc_EncodeToString := fun text => "=" +:+ text |}.

Definition example_codec_env : Env :=
  {| ParseOrgNameFromURL := fun _ => Ok "BlackIQ";
     ParseRepoNameFromURL := fun _ => Ok "learn";
     DecodeString :=
       fun text =>
         match text with
         | String "=" rest => Ok rest
         | _ => Err "illegal base64 data"
         end;
     Unmarshal := fun _ => (Checkpoint_zero, None) |}.

(** An encoder whose [json.Marshal] fails. *)
Definition failing_encoder : Encoder :=
  {| enc_Marshal := fun _ => Err "json: unsupported value";
     enc_EncodeToString := fun text => text |}.

(** *** The start of [Scan] and the checkpoint writer *)

(** The first lines of [Scan]: the checkpoint of the repository is read
    and, when a checkpoint comes back (whatever the error says), the three
    trackers are restored from it. *)
Definition Scan_restore (env : Env) (fs : FS) (work_dir repo_id : string)
    (s : Scanner) : FS * Scanner * option error :=
  let '(fs', (cpoint, cpoint_err)) :=
    CheckpointGet env fs work_dir repo_id "" in
  match cpoint with
  | Some c =>
      (fs',
       {| TrackerCommits := Restore (TrackerCommits s) (TrackerCommitsData c);
          TrackerFiles := Restore (TrackerFiles s) (TrackerFilesData c);
          TrackerRequests := Restore (TrackerRequests s) (TrackerRequestsData c) |},
       cpoint_err)
  | None => (fs', s, cpoint_err)
  end.

(** [setNewCheckpoint] of [checkpointScan]: the three trackers are
    snapshotted and saved. *)
Definition setNewCheckpoint (env : Env) (enc : Encoder) (now : Z) (fs : FS)
    (work_dir repo_id commit_id : string) (s : Scanner) : FS * option error :=
  CheckpointSet env enc fs work_dir repo_id commit_id
    (NewCheckpoint now (GetKeysData (TrackerCommits s))
                       (GetKeysData (TrackerFiles s))
                       (GetKeysData (TrackerRequests s))).

(** *** The processors of the pipeline *)

(** What travels on an error channel: an error of the scanner or one
    handed up from a tracker. *)
Inductive chan_error : Type :=
| ScanError (e : error)
| TrackerError (e : tracker.error).

(** [processErrors], along the events its [select] takes: the quit signal
    or a value from the errors channel ([None] for a nil error).  The
    result is what is done to [chan_errors_out] and the events left
    unread. *)
Inductive errors_in : Type :=
| InQuit
| InError (e : option chan_error).

Inductive errors_out : Type :=
| OutSend (e : chan_error)
| OutClose.

Definition processErrors (events : list errors_in)
    : list errors_out * list errors_in :=
  match events with
  | [] => ([], [])
  | InQuit :: rest => ([OutClose], rest)
  | InError (Some e) :: rest => ([OutSend e; OutClose], rest)
  | InError None :: rest => ([], rest)
  end.

(** [processRequest]: the tracker of the requests afterwards, the requests
    sent on [chan_requests_out] and the errors sent on
    [chan_errors_out]. *)
Definition processRequest (now : Z) (requests : KeyTracker) (r : rrr.Request)
    : KeyTracker * list rrr.Request * list chan_error :=
  let id := rrr.ID (rrr.Metadata r) in
  if String.eqb id "" then (requests, [], [ScanError ErrProcessRequestNoID])
  else
    match Get requests id with
    | Some _ => (requests, [], [])
    | None =>
        match Update requests now id KeyCodePending "" [] with
        | (requests', Err e) => (requests', [], [TrackerError e])
        | (requests', Ok _) => (requests', [r], [])
        end
    end.

(** [processRequests] on the requests that arrive before the quit signal;
    [now] gives the clock at the arrival of each request. *)
Fixpoint processRequests (now : nat -> Z) (n : nat) (requests : KeyTracker)
    (incoming : list rrr.Request)
    : KeyTracker * list rrr.Request * list chan_error :=
  match incoming with
  | [] => (requests, [], [])
  | r :: rest =>
      let '(requests1, sent1, errors1) := processRequest (now n) requests r in
      let '(requests2, sent2, errors2) :=
        processRequests now (S n) requests1 rest in
      (requests2, (sent1 ++ sent2)%list, (errors1 ++ errors2)%list)
  end.

Section ResponseProcessor.

(** The results, their records and the store of the records are declared
    in files that are not at hand: [rrr.ResultRecordsFromResponse] and the
    [Write] method of the [rrr.ResultRecordIO] interface are taken as they
    come. *)
Variables Result ResultRecord Store : Type.
Variable ResultRecordsFromResponse : rrr.Response Result -> list ResultRecord.
Variable Write : Store -> list ResultRecord -> Store * option string.

(** The readings of the clock taken by the three calls of [Update] in one
    [processResponse]. *)
Record Readings : Type := mkReadings {
  at_request : Z;
  at_file : Z;
  at_commit : Z
}.

(** [processResponse]: the scanner and the store afterwards and the errors
    sent on [chan_errors_out].  When the update of the file fails the code
    it returns is not [KeyCodeComplete] and the commit is left alone. *)
Definition processResponse (now : Readings) (s : Scanner) (store : Store)
    (r : rrr.Response Result) : Scanner * Store * list chan_error :=
  let id := rrr.ID (rrr.Response_Metadata r) in
  let object_id := rrr.Object_ID (rrr.Object (rrr.Response_Metadata r)) in
  let commit_id := rrr.Commit_ID (rrr.Commit (rrr.Response_Metadata r)) in
  if String.eqb id "" then (s, store, [ScanError ErrProcessResponseNoID])
  else
    let '(store', errors_write) :=
      if (0 <? Z.of_nat (List.length (rrr.Results r))) then
        match Write store (ResultRecordsFromResponse r) with
        | (store', Some text) =>
            (store', [ScanError (Wrap (External text) ErrMsgResultWriteFailed)])
        | (store', None) => (store', [])
        end
      else (store, []) in
    let requests' :=
      (Update (TrackerRequests s) (at_request now) id KeyCodeComplete ""
              []).1 in
    let '(files', file_update) :=
      Update (TrackerFiles s) (at_file now) object_id KeyCodeComplete ""
             [id] in
    let errors_file :=
      match file_update with
      | Err e => [TrackerError e]
      | Ok _ => []
      end in
    let '(commits', errors_commit) :=
      match file_update with
      | Ok file_update_code =>
          if file_update_code =? KeyCodeComplete then
            match Update (TrackerCommits s) (at_commit now) commit_id
                         KeyCodeComplete "" [object_id] with
            | (commits', Err e) => (commits', [TrackerError e])
            | (commits', Ok _) => (commits', [])
            end
          else (TrackerCommits s, [])
      | Err _ => (TrackerCommits s, [])
      end in
    ({| TrackerCommits := commits';
        TrackerFiles := files';
        TrackerRequests := requests' |},
     store',
     (errors_write ++ errors_file ++ errors_commit)%list).

(** [processResponses] on the responses that arrive before the quit
    signal; [now] gives the readings of the clock for each of them. *)
Fixpoint processResponses (now : nat -> Readings) (n : nat) (s : Scanner)
    (store : Store) (incoming : list (rrr.Response Result))
    : Scanner * Store * list chan_error :=
  match incoming with
  | [] => (s, store, [])
  | r :: rest =>
      let '(s1, store1, errors1) := processResponse (now n) s store r in
      let '(s2, store2, errors2) := processResponses now (S n) s1 store1 rest in
      (s2, store2, (errors1 ++ errors2)%list)
  end.

End ResponseProcessor.

(** [trackScanCounts] of [trackScanProgress]: one tick of the progress
    tracker.  The result is the scanner and the file system afterwards and
    whether the quit channel was closed. *)
Definition trackScanCounts (env : Env) (r : Run) (work_dir url : string)
    (is_scan_complete : bool) (s : Scanner) (fs : FS)
    : Scanner * FS * bool :=
  if negb is_scan_complete then (s, fs, false)
  else
    let s' := reconcilePending r s in
    if negb (CheckAllComplete (TrackerFiles s')) then (s', fs, false)
    else if negb (CheckAllComplete (TrackerCommits s')) then (s', fs, false)
    else if negb (CheckAllComplete (TrackerRequests s')) then (s', fs, false)
    else (s', (CheckpointDelete env fs work_dir url "").1, true).

(** A response for the request of [example_scanner], with one result, a
    store that keeps the records it is given, and the readings of the
    clock while the response is processed. *)
Definition example_response : rrr.Response string :=
  {| rrr.Response_Metadata :=
       {| rrr.ID := "request1";
          rrr.Commit := {| rrr.Commit_ID := "commit1" |};
          rrr.Object := {| rrr.Object_ID := "file1";
                           rrr.Object_Length := 4;
                           rrr.Object_Offset := 0 |};
          rrr.Repository := {| rrr.Repository_ID := "repo1";
                               rrr.Repository_URL := "" |};
          rrr.Time := {| rrr.Start := 3; rrr.Stop := 0 |} |};
     rrr.Results := ["name"] |}.

Definition example_records (r : rrr.Response string) : list string :=
  rrr.Results r.

Definition example_write (store records : list string)
    : list string * option string :=
  ((store ++ records)%list, None).

Definition example_readings : Readings :=
  {| at_request := 20; at_file := 21; at_commit := 22 |}.

End scanner.

(** * Properties of the key tracker *)

Module TrackerFacts.

Import tracker.

Create HintDb tracker_codes.
#[local] Hint Unfold KeyCodeInit KeyCodeError KeyCodeIgnore KeyCodePending
  KeyCodeComplete code_is_valid code_is_terminal : tracker_codes.

Lemma string_eqb_empty (key : string) : key <> "" -> String.eqb key "" = false.
Proof. intros H. by apply String.eqb_neq. Qed.

Lemma validate_valid (code : Z) :
  code_is_valid code = true -> KeyCodeValidate code = None.
Proof. unfold KeyCodeValidate. by intros ->. Qed.

(** *** Children maps *)

Lemma children_complete_true (m : gmap string bool) :
  children_complete m = true <-> forall c b, m !! c = Some b -> b = true.
Proof.
  unfold children_complete. rewrite forallb_forall. split.
  - intros H c b Hc. apply (H (c, b)).
    apply list_elem_of_In, elem_of_map_to_list, Hc.
  - intros H [c b] Hin. apply list_elem_of_In, elem_of_map_to_list in Hin.
    exact (H c b Hin).
Qed.

Lemma children_complete_false (m : gmap string bool) :
  children_complete m = false <-> exists c, m !! c = Some false.
Proof.
  split.
  - unfold children_complete. intros H.
    assert (exists kb, kb ∈ map_to_list m /\ kb.2 = false) as [[c b] [Hin Hb]].
    { induction (map_to_list m) as [|[c b] l IH]; [done|].
      simpl in H. destruct b.
      - destruct (IH H) as [kb [Hin Hb]]. exists kb. split; [|done].
        by apply list_elem_of_further.
      - exists (c, false). split; [apply list_elem_of_here|done]. }
    simpl in Hb. subst b. exists c. by apply elem_of_map_to_list.
  - intros [c Hc]. destruct (children_complete m) eqn:E; [|done].
    by pose proof (proj1 (children_complete_true m) E c false Hc).
Qed.

(** Merging under [KeyCodeComplete]: the named children are [true], the
    others keep what they had. *)
Lemma merge_children_complete_lookup (child_keys : list string)
    (m : gmap string bool) (c : string) :
  merge_children KeyCodeComplete child_keys m !! c
  = if decide (c ∈ child_keys) then Some true else m !! c.
Proof.
  unfold merge_children. revert m.
  induction child_keys as [|k ks IH]; intros m; simpl.
  - reflexivity.
  - rewrite IH. unfold merge_child. simpl.
    destruct (decide (c ∈ ks)) as [Hin|Hnin].
    + rewrite decide_True; [done|by apply list_elem_of_further].
    + destruct (decide (c = k)) as [->|Hne].
      * rewrite decide_True; [|apply list_elem_of_here].
        by rewrite lookup_insert_eq.
      * rewrite decide_False; [|by apply not_elem_of_cons].
        by rewrite lookup_insert_ne.
Qed.

(** Merging under another code: known children keep their flag, new ones
    enter as [false]. *)
Lemma merge_children_other_lookup (code : Z) (child_keys : list string)
    (m : gmap string bool) (c : string) :
  code <> KeyCodeComplete ->
  merge_children code child_keys m !! c
  = match m !! c with
    | Some b => Some b
    | None => if decide (c ∈ child_keys) then Some false else None
    end.
Proof.
  intros Hcode. unfold merge_children. revert m.
  induction child_keys as [|k ks IH]; intros m; simpl.
  - by destruct (m !! c).
  - rewrite IH. unfold merge_child.
    destruct (Z.eqb_spec code KeyCodeComplete) as [|_]; [done|].
    destruct (decide (c = k)) as [->|Hne].
    + destruct (m !! k) eqn:Hk; [by rewrite Hk|].
      rewrite lookup_insert_eq.
      rewrite decide_True; [done|apply list_elem_of_here].
    + assert ((match m !! k with Some _ => m | None => <[k:=false]> m end)
                !! c = m !! c) as ->.
      { destruct (m !! k); [done|]. by rewrite lookup_insert_ne. }
      destruct (m !! c); [done|].
      destruct (decide (c ∈ ks)).
      * rewrite decide_True; [done|by apply list_elem_of_further].
      * rewrite decide_False; [done|by apply not_elem_of_cons].
Qed.

Lemma merge_children_nil (code : Z) (m : gmap string bool) :
  merge_children code [] m = m.
Proof. reflexivity. Qed.

(** *** [Update], case by case *)

Lemma update_empty_key kt now code message child_keys :
  Update kt now "" code message child_keys = (kt, Err ErrKeyUpdateKeyEmpty).
Proof. reflexivity. Qed.

Lemma update_new kt now key code message child_keys :
  key <> "" -> code_is_valid code = true -> Keys kt !! key = None ->
  Update kt now key code message child_keys
  = (set_key kt key
       {| Code := code; State := KeyCodeToState code; Message := message;
          Children := children_of_keys child_keys;
          TimestampFirst := now; TimestampLatest := now |},
     Ok code).
Proof.
  intros Hk Hv Hnone. unfold Update, NewKeyData.
  by rewrite (string_eqb_empty _ Hk), (validate_valid _ Hv), Hnone.
Qed.

Lemma update_monotonic kt now key d code message child_keys :
  key <> "" -> code_is_valid code = true -> Keys kt !! key = Some d ->
  Code d = KeyCodeComplete ->
  Update kt now key code message child_keys
  = (set_key kt key
       {| Code := Code d; State := State d; Message := Message d;
          Children := merge_children code child_keys (Children d);
          TimestampFirst := TimestampFirst d;
          TimestampLatest := TimestampLatest d |},
     Ok KeyCodeComplete).
Proof.
  intros Hk Hv Hd Hc. unfold Update.
  rewrite (string_eqb_empty _ Hk), (validate_valid _ Hv), Hd.
  by rewrite Hc, Z.eqb_refl.
Qed.

Lemma update_held_back kt now key d message child_keys :
  key <> "" -> Keys kt !! key = Some d -> Code d <> KeyCodeComplete ->
  children_complete (merge_children KeyCodeComplete child_keys (Children d))
    = false ->
  Update kt now key KeyCodeComplete message child_keys
  = (set_key kt key
       {| Code := KeyCodePending; State := KeyStatePending;
          Message := message;
          Children := merge_children KeyCodeComplete child_keys (Children d);
          TimestampFirst := TimestampFirst d; TimestampLatest := now |},
     Ok KeyCodePending).
Proof.
  intros Hk Hd Hc Hopen. unfold Update.
  rewrite (string_eqb_empty _ Hk), Hd. simpl.
  destruct (Z.eqb_spec (Code d) KeyCodeComplete) as [|_]; [done|].
  by rewrite Hopen.
Qed.

Lemma update_adopts kt now key d code message child_keys :
  key <> "" -> code_is_valid code = true -> Keys kt !! key = Some d ->
  Code d <> KeyCodeComplete ->
  code <> KeyCodeComplete
  \/ children_complete (merge_children code child_keys (Children d)) = true ->
  Update kt now key code message child_keys
  = (set_key kt key
       {| Code := code; State := KeyCodeToState code; Message := message;
          Children := merge_children code child_keys (Children d);
          TimestampFirst := TimestampFirst d; TimestampLatest := now |},
     Ok code).
Proof.
  intros Hk Hv Hd Hc Hcase. unfold Update.
  rewrite (string_eqb_empty _ Hk), (validate_valid _ Hv), Hd.
  destruct (Z.eqb_spec (Code d) KeyCodeComplete) as [|_]; [done|].
  destruct Hcase as [Hne|Hall].
  - by destruct (Z.eqb_spec code KeyCodeComplete) as [|_].
  - by rewrite Hall, andb_false_r.
Qed.

Lemma lookup_set_key kt key d : Keys (set_key kt key d) !! key = Some d.
Proof. apply lookup_insert_eq. Qed.

Lemma lookup_set_key_ne kt key key' d :
  key <> key' -> Keys (set_key kt key d) !! key' = Keys kt !! key'.
Proof. intros H. by apply lookup_insert_ne. Qed.

(** An update of one key leaves the others alone. *)
Lemma update_other kt now key code message child_keys key' :
  key <> key' ->
  Keys (Update kt now key code message child_keys).1 !! key' = Keys kt !! key'.
Proof.
  intros Hne. unfold Update, NewKeyData.
  destruct (String.eqb key ""); [done|].
  destruct (KeyCodeValidate code); [done|].
  destruct (Keys kt !! key) as [d|]; simpl.
  - destruct (Code d =? KeyCodeComplete);
      [|destruct ((code =? KeyCodeComplete) && _)];
      by apply lookup_insert_ne.
  - by apply lookup_insert_ne.
Qed.

(** [Update] never tracks the empty key: a tracker made by
    [NewKeyTracker] and changed by [Update] alone has non-empty keys. *)
Lemma new_tracker_keys_nonempty kind kt :
  NewKeyTracker kind = Ok kt -> keys_nonempty kt.
Proof.
  unfold NewKeyTracker. destruct (kind_is_valid kind); [|done].
  intros [= <-]. apply lookup_empty.
Qed.

Lemma update_keys_nonempty kt now key code message child_keys :
  keys_nonempty kt ->
  keys_nonempty (Update kt now key code message child_keys).1.
Proof.
  unfold keys_nonempty. intros H.
  destruct (decide (key = "")) as [->|Hne]; [exact H|].
  by rewrite update_other.
Qed.

(** *** The tables of [TestKeyTracker_Update] *)

Example test_Update_Progression :
  let run := run_updates new_file_tracker 0 "Progression"
    [mkCall [] KeyCodeInit "";
     mkCall [] KeyCodeError "test message error";
     mkCall [] KeyCodeIgnore "test message ignore";
     mkCall ["child1"; "child2"] KeyCodePending "test message pending";
     mkCall ["child1"; "child2"] KeyCodeComplete "test message complete"] in
  run.2 = [Ok KeyCodeInit; Ok KeyCodeError; Ok KeyCodeIgnore;
           Ok KeyCodePending; Ok KeyCodeComplete]
  /\ Children <$> Get run.1 "Progression"
     = Some {[ "child1" := true; "child2" := true ]}
  /\ Message <$> Get run.1 "Progression" = Some "test message complete".
Proof. vm_compute. done. Qed.

Example test_Update_Regression :
  let run := run_updates new_file_tracker 0 "Regression"
    [mkCall [] KeyCodeComplete "test message complete";
     mkCall [] KeyCodePending "test message pending";
     mkCall [] KeyCodeIgnore "test message ignore";
     mkCall [] KeyCodeError "test message error";
     mkCall [] KeyCodeInit "test message init"] in
  run.2 = [Ok KeyCodeComplete; Ok KeyCodeComplete; Ok KeyCodeComplete;
           Ok KeyCodeComplete; Ok KeyCodeComplete]
  /\ observe run.1 "Regression"
     = Some (KeyCodeComplete, KeyStateComplete, "test message complete", []).
Proof. vm_compute. done. Qed.

Example test_Update_ReInit :
  let run := run_updates new_file_tracker 0 "ReInit"
    [mkCall [] KeyCodeInit "";
     mkCall [] KeyCodeComplete "test message complete";
     mkCall [] KeyCodeInit "test message init"] in
  run.2 = [Ok KeyCodeInit; Ok KeyCodeComplete; Ok KeyCodeComplete]
  /\ observe run.1 "ReInit"
     = Some (KeyCodeComplete, KeyStateComplete, "test message complete", []).
Proof. vm_compute. done. Qed.

Example test_Update_RepeatUpdateComplete :
  let run := run_updates new_file_tracker 0 "RepeatUpdateComplete"
    [mkCall ["child1"] KeyCodeComplete "test message complete";
     mkCall ["child2"] KeyCodeComplete "test message complete";
     mkCall ["child3"] KeyCodeComplete "test message complete"] in
  run.2 = [Ok KeyCodeComplete; Ok KeyCodeComplete; Ok KeyCodeComplete]
  /\ size <$> (Children <$> Get run.1 "RepeatUpdateComplete") = Some 3%nat
  /\ Code <$> Get run.1 "RepeatUpdateComplete" = Some KeyCodeComplete.
Proof. vm_compute. done. Qed.

Example test_Update_IncompleteUpdates :
  let run := run_updates new_file_tracker 0 "IncompleteUpdates"
    [mkCall ["child1"; "child2"; "child3"; "child4"; "child5"; "child6";
             "child7"; "child8"; "child9"; "child10"]
            KeyCodePending "test message pending";
     mkCall ["child1"; "child2"; "child3"; "child4"; "child5"]
            KeyCodeComplete "partial update"] in
  run.2 = [Ok KeyCodePending; Ok KeyCodePending]
  /\ Children <$> Get run.1 "IncompleteUpdates"
     = Some {[ "child1" := true; "child2" := true; "child3" := true;
               "child4" := true; "child5" := true; "child6" := false;
               "child7" := false; "child8" := false; "child9" := false;
               "child10" := false ]}
  /\ Code <$> Get run.1 "IncompleteUpdates" = Some KeyCodePending
  /\ Message <$> Get run.1 "IncompleteUpdates" = Some "partial update".
Proof. vm_compute. done. Qed.

Example test_Update_errors :
  (Update new_file_tracker 0 "InvalidCodeLow" (KeyCodeInit - 1) "" []).2
  = Err ErrKeyCodeInvalid
  /\ (Update new_file_tracker 0 "InvalidCodeHigh" (KeyCodeComplete + 1) "" []).2
     = Err ErrKeyCodeInvalid
  /\ (Update new_file_tracker 0 "" KeyCodeComplete "" []).2
     = Err ErrKeyUpdateKeyEmpty.
Proof. vm_compute. done. Qed.

(** The rows of [TestKeyTracker_CheckAllComplete] named Mixed_1 and
    Regression. *)
Example test_CheckAllComplete_Mixed_1 :
  CheckAllComplete
    (apply_codes
       (apply_codes
          (apply_codes
             (apply_codes
                (apply_codes new_file_tracker 0 "A" [KeyCodeInit])
                0 "B" [KeyCodeInit; KeyCodeError; KeyCodeInit])
             0 "C" [KeyCodeIgnore])
          0 "D" [KeyCodeInit; KeyCodePending; KeyCodeError])
       0 "E" [KeyCodeInit; KeyCodeError; KeyCodeComplete])
  = false.
Proof. vm_compute. reflexivity. Qed.

Example test_CheckAllComplete_Regression :
  CheckAllComplete
    (apply_codes
       (apply_codes new_file_tracker 0 "A" [2; 1; 0; -1; -2])
       0 "B" [KeyCodeComplete; KeyCodePending; KeyCodeIgnore; KeyCodeError;
              KeyCodeInit])
  = true.
Proof. vm_compute. reflexivity. Qed.

(** *** Completion of a whole tracker *)

Lemma check_all_complete_true (kt : KeyTracker) :
  CheckAllComplete kt = true
  <-> forall key d, Keys kt !! key = Some d ->
        Code d = KeyCodeComplete \/ Code d = KeyCodeError.
Proof.
  unfold CheckAllComplete. rewrite forallb_forall. split.
  - intros H key d Hd.
    assert (code_is_terminal (Code d) = true) as Ht.
    { apply (H (key, d)), list_elem_of_In, elem_of_map_to_list, Hd. }
    unfold code_is_terminal in Ht. apply orb_true_iff in Ht.
    by rewrite !Z.eqb_eq in Ht.
  - intros H [key d] Hin. apply list_elem_of_In, elem_of_map_to_list in Hin.
    simpl. unfold code_is_terminal.
    destruct (H key d Hin) as [-> | ->]; reflexivity.
Qed.

(** C4.  [CheckAllComplete] answers [true] exactly when every tracked key
    has code COMPLETE or ERROR: it is [true] for a tracker without keys and
    [false] as soon as one key is in INIT, PENDING or IGNORE. *)
Theorem check_all_complete_iff_terminal :
  (forall kt : KeyTracker,
     CheckAllComplete kt = true
     <-> forall key d, Keys kt !! key = Some d ->
           Code d = KeyCodeComplete \/ Code d = KeyCodeError)
  /\ (forall kind : string, CheckAllComplete {| Keys := ∅; Kind := kind |} = true)
  /\ (forall (kt : KeyTracker) key d,
        Keys kt !! key = Some d ->
        Code d = KeyCodeInit \/ Code d = KeyCodePending \/ Code d = KeyCodeIgnore ->
        CheckAllComplete kt = false).
Proof.
  split; [exact check_all_complete_true|]. split.
  - intros kind. apply check_all_complete_true. intros key d Hd.
    simpl in Hd. by rewrite lookup_empty in Hd.
  - intros kt key d Hd Hcode.
    destruct (CheckAllComplete kt) eqn:E; [|done].
    destruct (proj1 (check_all_complete_true kt) E key d Hd) as [Hc|Hc];
      rewrite Hc in Hcode; autounfold with tracker_codes in Hcode; lia.
Qed.

(** An ignored key next to a complete one keeps the tracker open. *)
Lemma check_all_complete_iff_terminal_witness :
  CheckAllComplete
    (Update (Update {| Keys := ∅; Kind := ScanObjectTypeFile |}
                    0 "A" KeyCodeComplete "" []).1
            1 "C" KeyCodeIgnore "" []).1 = false.
Proof.
  apply (proj2 (proj2 check_all_complete_iff_terminal) _ "C"
           {| Code := KeyCodeIgnore; State := KeyStateIgnore; Message := "";
              Children := ∅; TimestampFirst := 1; TimestampLatest := 1 |}).
  - vm_compute. reflexivity.
  - right. right. reflexivity.
Defined.

(** *** Monotonic completion *)

Lemma children_complete_empty : children_complete ∅ = true.
Proof. reflexivity. Qed.

Lemma key_at_new kt now key code :
  key <> "" -> code_is_valid code = true -> Keys kt !! key = None ->
  key_at key code (Update kt now key code "" []).1.
Proof.
  intros Hk Hv Hnone. rewrite (update_new _ _ _ _ _ _ Hk Hv Hnone).
  eexists. split; [apply lookup_set_key|]. by split.
Qed.

Lemma key_at_step kt now key code code' :
  key <> "" -> code_is_valid code' = true -> code <> KeyCodeComplete ->
  key_at key code kt -> key_at key code' (Update kt now key code' "" []).1.
Proof.
  intros Hk Hv Hc (d & Hd & Hcode & Hch).
  rewrite (update_adopts _ _ _ d _ _ _ Hk Hv Hd); [|congruence|].
  - eexists. split; [apply lookup_set_key|]. simpl. by rewrite Hch.
  - right. by rewrite merge_children_nil, Hch.
Qed.

Lemma key_at_complete_stays kt now key code' :
  key <> "" -> code_is_valid code' = true ->
  key_at key KeyCodeComplete kt ->
  key_at key KeyCodeComplete (Update kt now key code' "" []).1.
Proof.
  intros Hk Hv (d & Hd & Hcode & Hch).
  rewrite (update_monotonic _ _ _ d _ _ _ Hk Hv Hd Hcode).
  eexists. split; [apply lookup_set_key|]. simpl. by rewrite Hch.
Qed.

(** C2.  Once a key is stored with code COMPLETE, an [Update] of that key
    with any valid code returns COMPLETE and leaves the stored code and the
    stored message as they were; a fresh key taken through INIT, ERROR,
    IGNORE, PENDING, COMPLETE and then through PENDING, IGNORE, ERROR, INIT
    ends with code COMPLETE. *)
Theorem update_monotonic_completion :
  (forall kt now key d new_code message child_keys,
     key <> "" ->
     Keys kt !! key = Some d ->
     Code d = KeyCodeComplete ->
     code_is_valid new_code = true ->
     (Update kt now key new_code message child_keys).2 = Ok KeyCodeComplete
     /\ exists d',
          Keys (Update kt now key new_code message child_keys).1 !! key = Some d'
          /\ Code d' = KeyCodeComplete
          /\ State d' = State d
          /\ Message d' = Message d)
  /\ (forall kt now now' key,
        key <> "" ->
        Keys kt !! key = None ->
        exists d,
          Keys (apply_codes
                  (apply_codes kt now key
                     [KeyCodeInit; KeyCodeError; KeyCodeIgnore;
                      KeyCodePending; KeyCodeComplete])
                  now' key
                  [KeyCodePending; KeyCodeIgnore; KeyCodeError; KeyCodeInit])
            !! key = Some d
          /\ Code d = KeyCodeComplete).
Proof.
  split.
  - intros kt now key d new_code message child_keys Hk Hd Hc Hv.
    rewrite (update_monotonic _ _ _ d _ _ _ Hk Hv Hd Hc). split; [done|].
    eexists. split; [apply lookup_set_key|]. by simpl.
  - intros kt now now' key Hk Hnone. unfold apply_codes. simpl.
    match goal with
    | |- exists d, Keys ?t !! _ = _ /\ _ =>
        assert (key_at key KeyCodeComplete t) as (d & Hd & Hc & _);
          [|by exists d]
    end.
    do 4 (apply key_at_complete_stays; [done..|]).
    apply (key_at_step _ _ _ KeyCodePending); [done..|].
    apply (key_at_step _ _ _ KeyCodeIgnore); [done..|].
    apply (key_at_step _ _ _ KeyCodeError); [done..|].
    apply (key_at_step _ _ _ KeyCodeInit); [done..|].
    by apply key_at_new.
Qed.

(** The regression of [TestKeyTracker_Update]: a key completed with a
    message is asked to go back to PENDING. *)
Lemma update_monotonic_completion_witness :
  (Update (Update {| Keys := ∅; Kind := ScanObjectTypeFile |}
                  0 "Regression" KeyCodeComplete "test message complete" []).1
          1 "Regression" KeyCodePending "test message pending" []).2
  = Ok KeyCodeComplete
  /\ exists d',
       Keys (Update (Update {| Keys := ∅; Kind := ScanObjectTypeFile |}
                       0 "Regression" KeyCodeComplete "test message complete"
                       []).1
                    1 "Regression" KeyCodePending "test message pending" []).1
         !! "Regression" = Some d'
       /\ Code d' = KeyCodeComplete
       /\ State d' = KeyStateComplete
       /\ Message d' = "test message complete".
Proof.
  apply (proj1 update_monotonic_completion
           (Update {| Keys := ∅; Kind := ScanObjectTypeFile |}
                   0 "Regression" KeyCodeComplete "test message complete" []).1
           1 "Regression"
           {| Code := KeyCodeComplete; State := KeyStateComplete;
              Message := "test message complete"; Children := ∅;
              TimestampFirst := 0; TimestampLatest := 0 |}
           KeyCodePending "test message pending" []).
  - discriminate.
  - vm_compute. reflexivity.
  - reflexivity.
  - reflexivity.
Defined.

(** *** Completion held back by open children *)

(** The scenario S3 on any key that is not yet complete. *)
Lemma update_two_children kt now1 now2 f d r1 r2 :
  f <> "" -> r1 <> r2 ->
  Keys kt !! f = Some d ->
  Code d <> KeyCodeComplete ->
  Children d = {[ r1 := false; r2 := false ]} ->
  (Update kt now1 f KeyCodeComplete "" [r1]).2 = Ok KeyCodePending
  /\ (exists d1,
        Keys (Update kt now1 f KeyCodeComplete "" [r1]).1 !! f = Some d1
        /\ Code d1 = KeyCodePending
        /\ Children d1 !! r1 = Some true
        /\ Children d1 !! r2 = Some false)
  /\ (Update (Update kt now1 f KeyCodeComplete "" [r1]).1
             now2 f KeyCodeComplete "" [r2]).2 = Ok KeyCodeComplete
  /\ (exists d2,
        Keys (Update (Update kt now1 f KeyCodeComplete "" [r1]).1
                     now2 f KeyCodeComplete "" [r2]).1 !! f = Some d2
        /\ Code d2 = KeyCodeComplete).
Proof.
  intros Hf Hr Hd Hc Hch.
  assert (merge_children KeyCodeComplete [r1] (Children d) !! r2 = Some false)
    as Hr2.
  { rewrite merge_children_complete_lookup, decide_False.
    - rewrite Hch, lookup_insert_ne; [|done]. apply lookup_singleton_eq.
    - intros Hin. apply list_elem_of_singleton in Hin. congruence. }
  assert (merge_children KeyCodeComplete [r1] (Children d) !! r1 = Some true)
    as Hr1.
  { rewrite merge_children_complete_lookup, decide_True; [done|].
    apply list_elem_of_here. }
  rewrite (update_held_back _ _ _ d _ _ Hf Hd Hc);
    [|apply children_complete_false; by exists r2].
  simpl. split; [done|]. split.
  { eexists. split; [apply lookup_set_key|]. by simpl. }
  erewrite update_adopts;
    [| done | done | apply lookup_set_key | by simpl | ].
  - split; [done|]. eexists. split; [apply lookup_set_key|]. done.
  - right. cbn [Children]. apply children_complete_true. intros c b.
    rewrite !merge_children_complete_lookup.
    destruct (decide (c ∈ [r2])) as [|Hn2]; [by intros [= <-]|].
    change (merge_child KeyCodeComplete (Children d) r1)
      with (merge_children KeyCodeComplete [r1] (Children d)).
    rewrite merge_children_complete_lookup.
    destruct (decide (c ∈ [r1])) as [|Hn1]; [by intros [= <-]|].
    rewrite Hch. intros Hlk.
    apply lookup_insert_Some in Hlk as [[<- _]|[_ Hlk]].
    + exfalso. apply Hn1, list_elem_of_here.
    + apply lookup_singleton_Some in Hlk as [<- _].
      exfalso. apply Hn2, list_elem_of_here.
Qed.

(** C1 as stated fails on a key that is already complete.  A
    response for [r1] reaches the file before the walker has listed its
    requests; the file completes, the walker then adds [r2] and [r3] as
    open children, and the response for [r2] finds COMPLETE stored: the
    update returns COMPLETE although [r3] is still [false]. *)
Lemma update_complete_with_open_children_counterexample :
  ~ (forall kt now key d message child_keys,
       Keys kt !! key = Some d ->
       children_complete
         (merge_children KeyCodeComplete child_keys (Children d)) = false ->
       (Update kt now key KeyCodeComplete message child_keys).2
       = Ok KeyCodePending).
Proof.
  intros H.
  pose (kt :=
    (Update (Update (Update {| Keys := ∅; Kind := ScanObjectTypeFile |}
                            0 "f" KeyCodeInit "" []).1
                    1 "f" KeyCodeComplete "" ["r1"]).1
            2 "f" KeyCodePending "" ["r1"; "r2"; "r3"]).1).
  destruct (Keys kt !! "f") as [d|] eqn:Hd; [|by vm_compute in Hd].
  specialize (H kt 3 "f" d "" ["r2"] Hd).
  vm_compute in Hd. injection Hd as <-.
  specialize (H eq_refl). vm_compute in H. discriminate H.
Qed.

(** C1, amended.  For a tracked key whose stored code is not COMPLETE, an
    [Update] with COMPLETE sets the children it names to [true] and leaves
    the other flags; if a flag is still [false] it stores and returns
    PENDING, with the message and the last-update time of the call; if
    every flag is [true] it stores and returns COMPLETE.  A key that is not
    yet complete and has the children r1 and r2, both open, is PENDING
    with r1 [true] and r2 [false] after [Update(f, COMPLETE, "", [r1])] and
    COMPLETE after [Update(f, COMPLETE, "", [r2])]. *)
Theorem update_complete_with_open_children :
  (forall kt now key d message child_keys,
     key <> "" ->
     Keys kt !! key = Some d ->
     Code d <> KeyCodeComplete ->
     let merged := merge_children KeyCodeComplete child_keys (Children d) in
     let r := Update kt now key KeyCodeComplete message child_keys in
     (forall c, merged !! c
                = if decide (c ∈ child_keys) then Some true
                  else Children d !! c)
     /\ ((exists c, merged !! c = Some false) ->
         r.2 = Ok KeyCodePending
         /\ Keys r.1 !! key
            = Some {| Code := KeyCodePending; State := KeyStatePending;
                      Message := message; Children := merged;
                      TimestampFirst := TimestampFirst d;
                      TimestampLatest := now |})
     /\ ((forall c b, merged !! c = Some b -> b = true) ->
         r.2 = Ok KeyCodeComplete
         /\ Keys r.1 !! key
            = Some {| Code := KeyCodeComplete; State := KeyStateComplete;
                      Message := message; Children := merged;
                      TimestampFirst := TimestampFirst d;
                      TimestampLatest := now |}))
  /\ (forall kt now1 now2 f d r1 r2,
        f <> "" -> r1 <> r2 ->
        Keys kt !! f = Some d ->
        Code d <> KeyCodeComplete ->
        Children d = {[ r1 := false; r2 := false ]} ->
        (Update kt now1 f KeyCodeComplete "" [r1]).2 = Ok KeyCodePending
        /\ (exists d1,
              Keys (Update kt now1 f KeyCodeComplete "" [r1]).1 !! f = Some d1
              /\ Code d1 = KeyCodePending
              /\ Children d1 !! r1 = Some true
              /\ Children d1 !! r2 = Some false)
        /\ (Update (Update kt now1 f KeyCodeComplete "" [r1]).1
                   now2 f KeyCodeComplete "" [r2]).2 = Ok KeyCodeComplete
        /\ (exists d2,
              Keys (Update (Update kt now1 f KeyCodeComplete "" [r1]).1
                           now2 f KeyCodeComplete "" [r2]).1 !! f = Some d2
              /\ Code d2 = KeyCodeComplete)).
Proof.
  split; [|exact update_two_children].
  intros kt now key d message child_keys Hk Hd Hc merged r.
  split; [apply merge_children_complete_lookup|]. split.
  - intros Hopen. subst r.
    rewrite (update_held_back _ _ _ d _ _ Hk Hd Hc);
      [|by apply children_complete_false].
    split; [done|]. apply lookup_set_key.
  - intros Hall. subst r.
    rewrite (update_adopts _ _ _ d KeyCodeComplete _ _ Hk eq_refl Hd Hc);
      [|right; by apply children_complete_true].
    split; [done|]. apply lookup_set_key.
Qed.

(** The walker lists two requests of a file; the responses arrive one
    after the other. *)
Lemma update_complete_with_open_children_witness :
  let kt := (Update {| Keys := ∅; Kind := ScanObjectTypeFile |}
                    0 "f" KeyCodePending "" ["r1"; "r2"]).1 in
  (Update kt 1 "f" KeyCodeComplete "" ["r1"]).2 = Ok KeyCodePending
  /\ (exists d1,
        Keys (Update kt 1 "f" KeyCodeComplete "" ["r1"]).1 !! "f" = Some d1
        /\ Code d1 = KeyCodePending
        /\ Children d1 !! "r1" = Some true
        /\ Children d1 !! "r2" = Some false)
  /\ (Update (Update kt 1 "f" KeyCodeComplete "" ["r1"]).1
             2 "f" KeyCodeComplete "" ["r2"]).2 = Ok KeyCodeComplete
  /\ (exists d2,
        Keys (Update (Update kt 1 "f" KeyCodeComplete "" ["r1"]).1
                     2 "f" KeyCodeComplete "" ["r2"]).1 !! "f" = Some d2
        /\ Code d2 = KeyCodeComplete).
Proof.
  intros kt.
  apply (proj2 update_complete_with_open_children kt 1 2 "f"
           {| Code := KeyCodePending; State := KeyStatePending; Message := "";
              Children := {[ "r1" := false; "r2" := false ]};
              TimestampFirst := 0; TimestampLatest := 0 |} "r1" "r2").
  - discriminate.
  - discriminate.
  - vm_compute. reflexivity.
  - discriminate.
  - reflexivity.
Defined.

End TrackerFacts.

(** * Properties of request construction *)

Module RequestFacts.

Import rrr.

Lemma eqb_empty_false (s : string) : s <> "" -> String.eqb s "" = false.
Proof. intros H. by apply String.eqb_neq. Qed.

Lemma eqb_empty_true (s : string) : String.eqb s "" = true <-> s = "".
Proof. apply String.eqb_eq. Qed.

(** *** The two library functions on their test vectors *)

Example sha1_abc :
  EncodeToString (sha1_Sum (bytes_of_string "abc"))
  = "a9993e364706816aba3e25717850c26c9cd0d89d".
Proof. vm_compute. reflexivity. Qed.

Example sha1_empty :
  EncodeToString (sha1_Sum (bytes_of_string ""))
  = "da39a3ee5e6b4b0d3255bfef95601890afd80709".
Proof. vm_compute. reflexivity. Qed.

Example sha1_two_blocks :
  EncodeToString
    (sha1_Sum (bytes_of_string
       "abcdbcdecdefdefgefghfghighijhijkijkljklmklmnlmnomnopnopq"))
  = "84983e441c3bd26ebaae4aa1f95129e5e54670f1".
Proof. vm_compute. reflexivity. Qed.

(** *** The shape of an identifier *)

Lemma hex_digit_lower (n : Z) : is_lower_hex (hex_digit n).
Proof.
  unfold hex_digit, is_lower_hex. generalize (Z.to_nat n) as k. intros k.
  do 16 (destruct k as [|k]; [vm_compute; tauto|]).
  vm_compute. tauto.
Qed.

Lemma encode_lower_hex (bs : list Z) :
  Forall is_lower_hex (list_ascii_of_string (EncodeToString bs)).
Proof.
  induction bs as [|b bs IH]; simpl; [constructor|].
  constructor; [apply hex_digit_lower|].
  constructor; [apply hex_digit_lower|exact IH].
Qed.

Lemma encode_length (bs : list Z) :
  String.length (EncodeToString bs) = (2 * List.length bs)%nat.
Proof. induction bs as [|b bs IH]; simpl; [done|]. rewrite IH. lia. Qed.

Lemma be_bytes_length (k : nat) (x : Z) : List.length (be_bytes k x) = k.
Proof. induction k as [|k IH]; simpl; [done|]. by rewrite IH. Qed.

Lemma sha1_Sum_length (data : list Z) : List.length (sha1_Sum data) = 20%nat.
Proof.
  unfold sha1_Sum. cbv zeta.
  rewrite !length_app, !be_bytes_length. reflexivity.
Qed.

(** *** [NewRequest] *)

Lemma new_request_ok now i :
  in_RepoID i <> "" -> in_CommitID i <> "" -> in_ObjectID i <> "" ->
  in_Text i <> "" ->
  NewRequest now i
  = ({| Metadata :=
          {| ID := fingerprint (in_RepoID i) (in_CommitID i) (in_ObjectID i)
                               (in_Text i);
             Commit := {| Commit_ID := in_CommitID i |};
             Object := {| Object_ID := in_ObjectID i;
                          Object_Length := in_Length i;
                          Object_Offset := in_Offset i |};
             Repository := {| Repository_ID := in_RepoID i;
                              Repository_URL := "" |};
             Time := {| Start := now; Stop := 0 |} |};
        Text := in_Text i |},
     None).
Proof.
  intros Hr Hc Ho Ht. unfold NewRequest.
  by rewrite (eqb_empty_false _ Hr), (eqb_empty_false _ Ho),
             (eqb_empty_false _ Hc), (eqb_empty_false _ Ht).
Qed.

(** C3.  With four non-empty inputs [NewRequest] gives the request the
    identifier obtained by joining repo_id, commit_id, object_id and text,
    in this order, with [ResultSeparatorUID], taking SHA-1 and writing the
    digest in lowercase hexadecimal: 40 characters among [0-9a-f].  Equal
    tuples give equal identifiers, whatever the clock, the length and the
    offset; the tuple of the test gives
    [0be325f9ba1df76ddfcf60fe972f3b0f06781ac1]. *)
Theorem new_request_id_is_sha1_fingerprint :
  (forall now i,
     in_RepoID i <> "" -> in_CommitID i <> "" -> in_ObjectID i <> "" ->
     in_Text i <> "" ->
     (NewRequest now i).2 = None
     /\ ID (Metadata (NewRequest now i).1)
        = EncodeToString
            (sha1_Sum (bytes_of_string
               (in_RepoID i +:+ ResultSeparatorUID +:+ in_CommitID i
                +:+ ResultSeparatorUID +:+ in_ObjectID i
                +:+ ResultSeparatorUID +:+ in_Text i)))
     /\ String.length (ID (Metadata (NewRequest now i).1)) = 40%nat
     /\ Forall is_lower_hex
          (list_ascii_of_string (ID (Metadata (NewRequest now i).1))))
  /\ (forall now now' i i',
        in_RepoID i <> "" -> in_CommitID i <> "" -> in_ObjectID i <> "" ->
        in_Text i <> "" ->
        in_RepoID i' = in_RepoID i -> in_CommitID i' = in_CommitID i ->
        in_ObjectID i' = in_ObjectID i -> in_Text i' = in_Text i ->
        ID (Metadata (NewRequest now' i').1)
        = ID (Metadata (NewRequest now i).1))
  /\ (forall now length offset,
        ID (Metadata
              (NewRequest now
                 {| in_CommitID := "test-commit"; in_Length := length;
                    in_ObjectID := "test-object"; in_Offset := offset;
                    in_RepoID := "test-repo"; in_Text := "test-text" |}).1)
        = "0be325f9ba1df76ddfcf60fe972f3b0f06781ac1").
Proof.
  split; [|split].
  - intros now i Hr Hc Ho Ht. rewrite (new_request_ok _ _ Hr Hc Ho Ht).
    cbn [fst snd Metadata ID]. unfold fingerprint.
    split; [done|]. split; [done|]. split.
    + by rewrite encode_length, sha1_Sum_length.
    + apply encode_lower_hex.
  - intros now now' i i' Hr Hc Ho Ht Er Ec Eo Et.
    rewrite (new_request_ok now i Hr Hc Ho Ht).
    rewrite (new_request_ok now' i'); [|congruence..].
    cbn [fst Metadata ID]. by rewrite Er, Ec, Eo, Et.
  - intros now length offset. vm_compute. reflexivity.
Qed.

(** The scenario S1 of the specification. *)
Lemma new_request_id_is_sha1_fingerprint_witness :
  ID (Metadata
        (NewRequest 1700000000000
           {| in_CommitID := "c1"; in_Length := 5; in_ObjectID := "o1";
              in_Offset := 0; in_RepoID := "repo1"; in_Text := "hello" |}).1)
  = EncodeToString (sha1_Sum (bytes_of_string "repo1__c1__o1__hello")).
Proof.
  apply (proj1 new_request_id_is_sha1_fingerprint 1700000000000
           {| in_CommitID := "c1"; in_Length := 5; in_ObjectID := "o1";
              in_Offset := 0; in_RepoID := "repo1"; in_Text := "hello" |});
    discriminate.
Defined.

(** C8.  [NewRequest] returns the zero [Request] with an error exactly when
    one of the four inputs is empty, and no error when all four are
    present.  The inputs are checked in the order repo_id, object_id,
    commit_id, text, and the error names the first empty one. *)
Theorem new_request_rejects_empty_inputs :
  forall now i,
    ((NewRequest now i).2 <> None
     <-> in_RepoID i = "" \/ in_CommitID i = "" \/ in_ObjectID i = ""
         \/ in_Text i = "")
    /\ ((NewRequest now i).2 <> None -> (NewRequest now i).1 = Request_zero)
    /\ (in_RepoID i = "" ->
        NewRequest now i = (Request_zero, Some ErrNewRequestEmptyRepositoryID))
    /\ (in_RepoID i <> "" -> in_ObjectID i = "" ->
        NewRequest now i = (Request_zero, Some ErrNewRequestEmptyObjectID))
    /\ (in_RepoID i <> "" -> in_ObjectID i <> "" -> in_CommitID i = "" ->
        NewRequest now i = (Request_zero, Some ErrNewRequestEmptyCommitID))
    /\ (in_RepoID i <> "" -> in_ObjectID i <> "" -> in_CommitID i <> "" ->
        in_Text i = "" ->
        NewRequest now i = (Request_zero, Some ErrNewRequestEmptyText))
    /\ (in_RepoID i <> "" -> in_CommitID i <> "" -> in_ObjectID i <> "" ->
        in_Text i <> "" ->
        (NewRequest now i).2 = None).
Proof.
  intros now i. unfold NewRequest.
  destruct (String.eqb_spec (in_RepoID i) "") as [Er|Er];
  destruct (String.eqb_spec (in_ObjectID i) "") as [Eo|Eo];
  destruct (String.eqb_spec (in_CommitID i) "") as [Ec|Ec];
  destruct (String.eqb_spec (in_Text i) "") as [Et|Et];
  cbn [fst snd]; repeat split; try tauto; try congruence; intros; tauto.
Qed.

(** The four failing calls of [TestNewRequest], here the one without an
    object identifier. *)
Lemma new_request_rejects_empty_inputs_witness :
  NewRequest 1700000000000
    {| in_CommitID := "test-commit"; in_Length := 9; in_ObjectID := "";
       in_Offset := 0; in_RepoID := "test-repo"; in_Text := "test-text" |}
  = (Request_zero, Some ErrNewRequestEmptyObjectID).
Proof.
  apply (proj1 (proj2 (proj2 (proj2
           (new_request_rejects_empty_inputs 1700000000000
              {| in_CommitID := "test-commit"; in_Length := 9;
                 in_ObjectID := ""; in_Offset := 0; in_RepoID := "test-repo";
                 in_Text := "test-text" |}))))).
  - discriminate.
  - reflexivity.
Defined.

End RequestFacts.

(** * Properties of the ignore policy *)

Module IgnoreFacts.

Import scanner.












End IgnoreFacts.

(** * Properties of the checkpoint store *)

Module CheckpointFacts.

Import scanner.

Example checkpoint_path_of_test_repository :
  getCheckpointPath example_env example_work_dir
                    "git@github.com:BlackIQ/learn.git" ""
  = Ok "/tmp/no-phi-ai/test/pkg/scanner/checkpoints/BlackIQ_learn.checkpoint".
Proof. reflexivity. Qed.

Example checkpoint_path_with_commit :
  getCheckpointPath example_env "w" "u" "c0ffee"
  = Ok "w/checkpoints/BlackIQ_learn_c0ffee.checkpoint".
Proof. reflexivity. Qed.

(** *** Where the checkpoint file lives *)

Lemma no_slash_app (a b : string) :
  no_slash (a +:+ b) = no_slash a && no_slash b.
Proof.
  induction a as [|c a IH]; [reflexivity|].
  change (no_slash (String c (a +:+ b)) = no_slash (String c a) && no_slash b).
  cbn [no_slash]. rewrite IH. by rewrite andb_assoc.
Qed.

Lemma dir_of_no_slash (name : string) : no_slash name = true -> dir_of name = None.
Proof.
  induction name as [|c name IH]; simpl; [done|].
  intros [Hc Hn]%andb_true_iff. rewrite (IH Hn).
  by destruct (Ascii.eqb c "/").
Qed.

Lemma dir_of_app (dir name : string) :
  no_slash name = true -> dir_of (dir +:+ "/" +:+ name) = Some dir.
Proof.
  intros Hn. induction dir as [|c dir IH].
  - change (dir_of (String "/" name) = Some "").
    cbn [dir_of]. by rewrite (dir_of_no_slash _ Hn).
  - change (dir_of (String c (dir +:+ "/" +:+ name)) = Some (String c dir)).
    cbn [dir_of]. by rewrite IH.
Qed.

Lemma append_assoc (a b c : string) : (a +:+ b) +:+ c = a +:+ (b +:+ c).
Proof.
  induction a as [|x a IH]; [reflexivity|].
  change (String x ((a +:+ b) +:+ c) = String x (a +:+ (b +:+ c))).
  by rewrite IH.
Qed.

(** The checkpoint of a repository lies directly in
    [<work_dir>/checkpoints] when the names parsed from the URL and the
    commit identifier are single path elements. *)
Lemma checkpoint_path_directory env work_dir repo_url commit_id org repo :
  work_dir <> "" -> repo_url <> "" ->
  ParseOrgNameFromURL env repo_url = Ok org ->
  ParseRepoNameFromURL env repo_url = Ok repo ->
  no_slash org = true -> no_slash repo = true -> no_slash commit_id = true ->
  exists file_name,
    getCheckpointPath env work_dir repo_url commit_id
    = Ok (work_dir +:+ "/checkpoints/" +:+ file_name)
    /\ parent_dir (work_dir +:+ "/checkpoints/" +:+ file_name)
       = work_dir +:+ "/checkpoints".
Proof.
  intros Hw Hu Ho Hr Hso Hsr Hsc. unfold getCheckpointPath.
  rewrite (proj2 (String.eqb_neq _ _) Hw), (proj2 (String.eqb_neq _ _) Hu).
  rewrite Ho, Hr.
  set (name_list := if String.eqb commit_id "" then [org; repo]
                    else [org; repo; commit_id]).
  exists (rrr.Join name_list "_" +:+ CheckpointFileExtension).
  split; [reflexivity|].
  assert (no_slash (rrr.Join name_list "_" +:+ CheckpointFileExtension) = true)
    as Hname.
  { subst name_list. destruct (String.eqb commit_id ""); cbn [rrr.Join];
      rewrite !no_slash_app, Hso, Hsr, ?Hsc; reflexivity. }
  unfold parent_dir.
  change (work_dir +:+ "/checkpoints/" +:+
            (rrr.Join name_list "_" +:+ CheckpointFileExtension))
    with (work_dir +:+ ("/checkpoints" +:+ ("/" +:+
            (rrr.Join name_list "_" +:+ CheckpointFileExtension)))).
  rewrite <- append_assoc.
  rewrite (dir_of_app _ _ Hname).
  destruct work_dir; [done|reflexivity].
Qed.

Lemma open_creates fs path :
  fs_files fs !! path = None -> path ∉ fs_dirs fs ->
  parent_dir path ∈ fs_dirs fs ->
  OpenFile_create_rdwr fs path
  = ({| fs_files := <[path := ""]> (fs_files fs); fs_dirs := fs_dirs fs |},
     Ok path).
Proof.
  intros Hnone Hnd Hparent. unfold OpenFile_create_rdwr. rewrite Hnone.
  by rewrite bool_decide_eq_false_2, bool_decide_eq_true_2.
Qed.

Lemma open_fails_without_directory fs path :
  fs_files fs !! path = None -> path ∉ fs_dirs fs ->
  parent_dir path ∉ fs_dirs fs ->
  OpenFile_create_rdwr fs path
  = (fs, Err ("open " +:+ path +:+ ": no such file or directory")).
Proof.
  intros Hnone Hnd Hparent. unfold OpenFile_create_rdwr. rewrite Hnone.
  by rewrite !bool_decide_eq_false_2.
Qed.

(** C10 as stated fails when the directory of the checkpoint
    file is missing: the work directory of a first scan has no
    [checkpoints] directory yet, the open fails and nothing is created. *)
Lemma checkpoint_get_missing_file_counterexample :
  ~ (forall env fs work_dir repo_url commit_id path,
       getCheckpointPath env work_dir repo_url commit_id = Ok path ->
       fs_files fs !! path = None ->
       (CheckpointGet env fs work_dir repo_url commit_id).2
       = (None, Some (Wrap ErrCheckpointFileReadFailed "file size is 0"))
       /\ fs_files (CheckpointGet env fs work_dir repo_url commit_id).1 !! path
          = Some "").
Proof.
  intros H.
  destruct (H example_env example_fs_fresh example_work_dir
              "git@github.com:BlackIQ/learn.git" "" _ eq_refl eq_refl)
    as [Herr _].
  vm_compute in Herr. discriminate Herr.
Qed.

(** C10, amended.  For a work directory and a repository URL from which
    the checkpoint path can be derived, if nothing exists at that path and
    the directory that holds it exists, [CheckpointGet] returns a nil
    checkpoint and [ErrCheckpointFileReadFailed] wrapped with the message
    "file size is 0", and leaves a new empty file at the path, since the
    file is opened with the create flag before its size is looked at.  If
    the directory does not exist the open itself fails: the error wraps
    [ErrCheckpointFileOpenFailed] and no file is created. *)
Theorem checkpoint_get_missing_file :
  forall env fs work_dir repo_url commit_id path,
    getCheckpointPath env work_dir repo_url commit_id = Ok path ->
    fs_files fs !! path = None ->
    path ∉ fs_dirs fs ->
    (parent_dir path ∈ fs_dirs fs ->
     CheckpointGet env fs work_dir repo_url commit_id
     = ({| fs_files := <[path := ""]> (fs_files fs); fs_dirs := fs_dirs fs |},
        (None, Some (Wrap ErrCheckpointFileReadFailed "file size is 0")))
     /\ Cause (Wrap ErrCheckpointFileReadFailed "file size is 0")
        = ErrCheckpointFileReadFailed
     /\ Error (Wrap ErrCheckpointFileReadFailed "file size is 0")
        = "file size is 0: failed to read checkpoint file")
    /\ (parent_dir path ∉ fs_dirs fs ->
        exists text,
          CheckpointGet env fs work_dir repo_url commit_id
          = (fs, (None, Some (Wrap ErrCheckpointFileOpenFailed text)))).
Proof.
  intros env fs work_dir repo_url commit_id path Hpath Hnone Hnd. split.
  - intros Hparent. split; [|by split].
    unfold CheckpointGet, openCheckpointFile. rewrite Hpath.
    rewrite (open_creates _ _ Hnone Hnd Hparent).
    unfold file_size, file_content. cbn [fs_files].
    by rewrite lookup_insert_eq.
  - intros Hparent. eexists.
    unfold CheckpointGet, openCheckpointFile. rewrite Hpath.
    by rewrite (open_fails_without_directory _ _ Hnone Hnd Hparent).
Qed.

(** With the [checkpoints] directory in place the first [CheckpointGet]
    leaves an empty checkpoint file behind. *)
Lemma checkpoint_get_missing_file_witness :
  CheckpointGet example_env example_fs_prepared example_work_dir
                "git@github.com:BlackIQ/learn.git" ""
  = ({| fs_files :=
          {[ "/tmp/no-phi-ai/test/pkg/scanner/checkpoints/BlackIQ_learn.checkpoint"
             := "" ]};
        fs_dirs := fs_dirs example_fs_prepared |},
     (None, Some (Wrap ErrCheckpointFileReadFailed "file size is 0"))).
Proof.
  refine (proj1 (proj1 (checkpoint_get_missing_file example_env
            example_fs_prepared example_work_dir
            "git@github.com:BlackIQ/learn.git" ""
            "/tmp/no-phi-ai/test/pkg/scanner/checkpoints/BlackIQ_learn.checkpoint"
            eq_refl eq_refl _) _)).
  - vm_compute. discriminate.
  - vm_compute. reflexivity.
Defined.

End CheckpointFacts.

(** * The entry of the repository walk *)

Module WalkFacts.

Import scanner.

(** A repository with two commits is walked. *)
Example scan_repository_walks :
  scanRepository "u"
    (Some {| commit_objects :=
               Ok {| iter_commits := ["c1"; "c2"]; iter_error := None |} |})
    (Some ())
  = ([EvStoreRepository false "u"; EvGoCheckpointScan "u"; EvGoProcessCommits;
      EvScanCommit "c1"; EvScanCommit "c2"; EvCloseChanCommits;
      EvWaitProcessCommits; EvSetScanComplete; EvCloseDone],
     Returned).
Proof. reflexivity. Qed.

(** C9.  [scanRepository] panics when [errors_out] is nil.  With a channel
    and a nil repository it sends [ErrScannerRepositoryNil] on [errors_out]
    and the scan aborts without walking any commit: the body has no return
    after the send, it stores the nil handle, starts the checkpoint
    goroutine and calls [CommitObjects] on the nil handle, where the call
    ends in a panic; [scanCommit] is never called and the scan is never
    marked complete. *)
Theorem scan_repository_nil_inputs :
  (forall repo_url repository,
     scanRepository repo_url repository None
     = ([EvCloseDone], Panicked ErrMsgErrorChannelNil))
  /\ (forall repo_url,
        scanRepository repo_url None (Some ())
        = ([EvSendError ErrScannerRepositoryNil;
            EvStoreRepository true repo_url;
            EvGoCheckpointScan repo_url;
            EvCloseDone],
           Panicked nil_dereference))
  /\ (forall repo_url,
        List.filter is_walk (scanRepository repo_url None (Some ())).1 = []
        /\ ~ In EvSetScanComplete (scanRepository repo_url None (Some ())).1
        /\ (scanRepository repo_url None (Some ())).2 <> Returned).
Proof.
  split; [reflexivity|]. split; [reflexivity|].
  intros repo_url. split; [reflexivity|]. split; [|discriminate].
  cbn. intros H. repeat destruct H as [H|H]; try discriminate H. exact H.
Qed.

End WalkFacts.

(** * The reconciler *)

Module ReconcileFacts.

Import tracker scanner TrackerFacts.

Section OneLevel.

(** One level of the reconciler: the tracker of the children, which the
    run only reads, the run, and the clock of the level. *)
Variable children_tracker : KeyTracker.
Variable r : Run.
Variable now : string -> Z.
Hypothesis r_ranges : run_ranges_maps r.

Lemma collect_complete_elem (l : list (string * bool)) (acc : list string)
    (c : string) :
  c ∈ foldl (collect_complete children_tracker) acc l
  <-> c ∈ acc
      \/ ((c, false) ∈ l
          /\ exists child_data,
               Keys children_tracker !! c = Some child_data
               /\ Code child_data = KeyCodeComplete).
Proof.
  revert acc. induction l as [|[k b] l IH]; intros acc; simpl.
  - split; [by left|]. intros [H|[H _]]; [done|]. by apply elem_of_nil in H.
  - rewrite IH. unfold collect_complete, Get. simpl.
    destruct b.
    { split; intros [H|[H Hc]]; auto.
      - right. split; [by apply list_elem_of_further|done].
      - apply elem_of_cons in H as [[=]|H]. right. by split. }
    destruct (Keys children_tracker !! k) as [kd|] eqn:Hk.
    + destruct (Z.eqb_spec (Code kd) KeyCodeComplete) as [Hcode|Hcode].
      * rewrite elem_of_app, list_elem_of_singleton. split.
        -- intros [[H| ->]|[H Hc]]; auto.
           ++ right. split; [apply list_elem_of_here|]. by exists kd.
           ++ right. split; [by apply list_elem_of_further|done].
        -- intros [H|[H Hc]]; auto.
           apply elem_of_cons in H as [[= ->]|H]; auto.
      * split; intros [H|[H Hc]]; auto.
        -- right. split; [by apply list_elem_of_further|done].
        -- apply elem_of_cons in H as [[= ->]|H]; [|right; by split].
           destruct Hc as (cd & Hcd & Hcc). congruence.
    + split; intros [H|[H Hc]]; auto.
      * right. split; [by apply list_elem_of_further|done].
      * apply elem_of_cons in H as [[= ->]|H]; [|right; by split].
        destruct Hc as (cd & Hcd & Hcc). congruence.
Qed.

(** The list handed to [Update] holds exactly the promotable
    children. *)
Lemma collected_promotable (children : gmap string bool) (c : string) :
  c ∈ foldl (collect_complete children_tracker) [] (range_children r children)
  <-> promotable children_tracker children c.
Proof.
  rewrite collect_complete_elem. unfold promotable.
  destruct r_ranges as [_ Hch]. rewrite (Hch children).
  rewrite elem_of_map_to_list. split.
  - intros [H|H]; [by apply elem_of_nil in H|done].
  - intros H. by right.
Qed.

Lemma reconcile_key_quiet parents key d :
  quiet children_tracker key d ->
  reconcile_key r now children_tracker parents (key, d) = parents.
Proof.
  intros Hq. unfold reconcile_key. cbn [fst snd].
  destruct (foldl (collect_complete children_tracker) []
              (range_children r (Children d))) as [|c cs] eqn:E;
    [reflexivity|].
  destruct Hq as [-> | Hq]; [reflexivity|].
  exfalso. apply (Hq c), collected_promotable. rewrite E.
  apply list_elem_of_here.
Qed.

(** One step of the outer loop: the other keys are untouched and the key
    of the step is quiet afterwards. *)
Lemma reconcile_key_step parents key d :
  Keys parents !! key = Some d ->
  Code d = KeyCodePending ->
  (forall key', key <> key' ->
     Keys (reconcile_key r now children_tracker parents (key, d)) !! key'
     = Keys parents !! key')
  /\ exists d',
       Keys (reconcile_key r now children_tracker parents (key, d)) !! key
       = Some d'
       /\ quiet children_tracker key d'.
Proof.
  intros Hd Hcode. unfold reconcile_key. cbn [fst snd].
  set (complete := foldl (collect_complete children_tracker) []
                     (range_children r (Children d))).
  assert (forall c, c ∈ complete <-> promotable children_tracker (Children d) c)
    as Hcompl by (intros c; apply collected_promotable).
  destruct (0 <? Z.of_nat (List.length complete)) eqn:Hlen.
  - split; [intros key' Hne; by apply update_other|].
    destruct (decide (key = "")) as [->|Hkey].
    { exists d. split; [exact Hd|by left]. }
    assert (Code d <> KeyCodeComplete) as Hnc by (rewrite Hcode; discriminate).
    assert (forall c,
              ~ promotable children_tracker
                  (merge_children KeyCodeComplete complete (Children d)) c)
      as Hsettled.
    { intros c [Hc Hex]. rewrite merge_children_complete_lookup in Hc.
      destruct (decide (c ∈ complete)) as [|Hnin]; [done|].
      apply Hnin, Hcompl. by split. }
    destruct (children_complete
                (merge_children KeyCodeComplete complete (Children d)))
      eqn:Hall.
    + rewrite (update_adopts _ _ _ d KeyCodeComplete _ _ Hkey eq_refl Hd Hnc);
        [|by right].
      eexists. split; [apply lookup_set_key|]. by right.
    + rewrite (update_held_back _ _ _ d _ _ Hkey Hd Hnc Hall).
      eexists. split; [apply lookup_set_key|]. by right.
  - split; [done|]. exists d. split; [exact Hd|]. right.
    intros c Hc. apply Hcompl in Hc.
    destruct complete; [by apply elem_of_nil in Hc|].
    apply Z.ltb_ge in Hlen. rewrite length_cons in Hlen. lia.
Qed.

(** The outer loop over entries with distinct keys, each still stored as
    the snapshot has it. *)
Lemma reconcile_fold (l : list (string * KeyData)) (parents : KeyTracker) :
  NoDup l.*1 ->
  (forall key d, (key, d) ∈ l ->
     Keys parents !! key = Some d /\ Code d = KeyCodePending) ->
  (forall key, key ∉ l.*1 ->
     Keys (foldl (reconcile_key r now children_tracker) parents l) !! key
     = Keys parents !! key)
  /\ (forall key, key ∈ l.*1 ->
        exists d',
          Keys (foldl (reconcile_key r now children_tracker) parents l) !! key
          = Some d'
          /\ quiet children_tracker key d').
Proof.
  revert parents. induction l as [|[k d] l IH]; intros parents Hnd Hl.
  - split; [done|]. intros key H. by apply elem_of_nil in H.
  - cbn [fmap list_fmap fst] in Hnd. apply NoDup_cons in Hnd as [Hk Hnd].
    destruct (Hl k d (list_elem_of_here _ _)) as [Hd Hcode].
    destruct (reconcile_key_step parents k d Hd Hcode) as [Hother Hself].
    cbn [foldl].
    destruct (IH (reconcile_key r now children_tracker parents (k, d)) Hnd)
      as [IHout IHin].
    { intros key d0 Hin.
      assert (k <> key) as Hne.
      { intros ->. apply Hk. apply list_elem_of_fmap. by exists (key, d0). }
      rewrite (Hother key Hne). apply Hl. by apply list_elem_of_further. }
    split.
    + intros key Hkey. cbn [fmap list_fmap fst] in Hkey.
      apply not_elem_of_cons in Hkey as [Hne Hkey].
      rewrite (IHout key Hkey). apply Hother. congruence.
    + intros key Hkey. cbn [fmap list_fmap fst] in Hkey.
      apply elem_of_cons in Hkey as [->|Hkey]; [|by apply IHin].
      rewrite (IHout k Hk). exact Hself.
Qed.

Lemma pending_lookup (parents : KeyTracker) key d :
  filter (fun kd => Code kd.2 = KeyCodePending) (Keys parents) !! key = Some d
  <-> Keys parents !! key = Some d /\ Code d = KeyCodePending.
Proof. by rewrite map_lookup_filter_Some. Qed.

(** After the loop over the pending keys every pending key is quiet. *)
Lemma reconcile_keys_quiet (parents : KeyTracker) key d' :
  Keys (reconcile_keys r now children_tracker parents
          (filter (fun kd => Code kd.2 = KeyCodePending) (Keys parents)))
    !! key = Some d' ->
  Code d' = KeyCodePending ->
  quiet children_tracker key d'.
Proof.
  unfold reconcile_keys.
  set (pending := filter (fun kd => Code kd.2 = KeyCodePending) (Keys parents)).
  destruct r_ranges as [Hkeys _].
  assert (NoDup (range_keys r pending).*1) as Hnd.
  { rewrite (Hkeys pending). apply NoDup_fst_map_to_list. }
  assert (forall key d, (key, d) ∈ range_keys r pending ->
            Keys parents !! key = Some d /\ Code d = KeyCodePending) as Hl.
  { intros k d. rewrite (Hkeys pending), elem_of_map_to_list.
    apply pending_lookup. }
  destruct (reconcile_fold _ parents Hnd Hl) as [Hout Hin].
  intros Hd' Hcode.
  destruct (decide (key ∈ (range_keys r pending).*1)) as [Hk|Hk].
  - destruct (Hin key Hk) as (d'' & Hd'' & Hq). congruence.
  - exfalso. apply Hk. rewrite (Hout key Hk) in Hd'.
    apply list_elem_of_fmap. exists (key, d'). split; [done|].
    rewrite (Hkeys pending), elem_of_map_to_list. by apply pending_lookup.
Qed.

(** On a tracker whose pending keys are all quiet the loop does
    nothing. *)
Lemma reconcile_keys_noop (parents : KeyTracker) :
  (forall key d, Keys parents !! key = Some d -> Code d = KeyCodePending ->
     quiet children_tracker key d) ->
  reconcile_keys r now children_tracker parents
    (filter (fun kd => Code kd.2 = KeyCodePending) (Keys parents))
  = parents.
Proof.
  intros Hq. unfold reconcile_keys.
  set (pending := filter (fun kd => Code kd.2 = KeyCodePending) (Keys parents)).
  destruct r_ranges as [Hkeys _].
  assert (Forall (fun kd => quiet children_tracker kd.1 kd.2)
                 (range_keys r pending)) as Hall.
  { apply Forall_forall. intros [k d] Hin. simpl.
    rewrite (Hkeys pending), elem_of_map_to_list in Hin.
    apply pending_lookup in Hin as [Hd Hc]. by apply (Hq k d). }
  induction Hall as [|[k d] l Hkd _ IH]; [reflexivity|].
  cbn [foldl]. by rewrite (reconcile_key_quiet parents k d Hkd).
Qed.

End OneLevel.

Lemma pending_is_valid (kt : KeyTracker) :
  GetKeysDataForCode kt KeyCodePending
  = Ok (filter (fun kd => Code kd.2 = KeyCodePending) (Keys kt)).
Proof. reflexivity. Qed.

(** The example scanner is not at rest: the run completes its file and
    then its commit. *)
Example reconcile_example_promotes :
  Code <$> (Keys (TrackerFiles example_scanner) !! "file1") = Some KeyCodePending
  /\ Code <$> (Keys (TrackerFiles (reconcilePending example_run example_scanner))
                 !! "file1") = Some KeyCodeComplete
  /\ Code <$> (Keys (TrackerCommits (reconcilePending example_run example_scanner))
                 !! "commit1") = Some KeyCodeComplete.
Proof. vm_compute. done. Qed.

(** C5.  [reconcilePending] is idempotent: a second run right after a
    first one, with no update in between, leaves the three trackers as the
    first run left them, in whatever order the two runs range over the
    maps and whatever the clock shows. *)
Theorem reconcile_pending_idempotent :
  forall (r1 r2 : Run) (s : Scanner),
    run_ranges_maps r1 ->
    run_ranges_maps r2 ->
    reconcilePending r2 (reconcilePending r1 s) = reconcilePending r1 s.
Proof.
  intros r1 r2 s H1 H2. unfold reconcilePending.
  rewrite !pending_is_valid. cbn [TrackerFiles TrackerCommits TrackerRequests].
  rewrite (reconcile_keys_noop (TrackerRequests s) r2 (now_file r2) H2).
  - rewrite (reconcile_keys_noop _ r2 (now_commit r2) H2); [reflexivity|].
    intros key d. by apply reconcile_keys_quiet.
  - intros key d. by apply reconcile_keys_quiet.
Qed.

Lemma reconcile_pending_idempotent_witness :
  reconcilePending example_run (reconcilePending example_run example_scanner)
  = reconcilePending example_run example_scanner.
Proof.
  apply (reconcile_pending_idempotent example_run example_run example_scanner).
  - split; intros m; reflexivity.
  - split; intros m; reflexivity.
Defined.

End ReconcileFacts.

(** * More on the checkpoint store *)

Module CheckpointStoreFacts.

Import tracker scanner.

(** *** Strings and paths *)

Lemma length_app (a b : string) :
  String.length (a +:+ b) = (String.length a + String.length b)%nat.
Proof.
  induction a as [|c a IH]; [reflexivity|].
  change (S (String.length (a +:+ b)) = S (String.length a + String.length b)).
  by rewrite IH.
Qed.

Lemma app_assoc (a b c : string) : (a +:+ b) +:+ c = a +:+ (b +:+ c).
Proof.
  induction a as [|x a IH]; [reflexivity|].
  change (String x ((a +:+ b) +:+ c) = String x (a +:+ (b +:+ c))).
  by rewrite IH.
Qed.

Lemma app_nil_r (a : string) : a +:+ "" = a.
Proof.
  induction a as [|x a IH]; [reflexivity|].
  change (String x (a +:+ "") = String x a). by rewrite IH.
Qed.

Lemma app_inj_l (a x y : string) : a +:+ x = a +:+ y -> x = y.
Proof. apply String.app_inj. Qed.

Lemma app_inj_r (s x y : string) : x +:+ s = y +:+ s -> x = y.
Proof.
  revert y. induction x as [|a x IH]; intros [|b y] H.
  - reflexivity.
  - apply (f_equal String.length) in H.
    change (String.length s = S (String.length (y +:+ s))) in H.
    rewrite length_app in H. lia.
  - apply (f_equal String.length) in H.
    change (S (String.length (x +:+ s)) = String.length s) in H.
    rewrite length_app in H. lia.
  - change (String a (x +:+ s) = String b (y +:+ s)) in H.
    injection H as -> H. by rewrite (IH y H).
Qed.

Lemma dir_of_shorter (path d : string) :
  dir_of path = Some d -> (String.length d < String.length path)%nat.
Proof.
  revert d. induction path as [|c path IH]; intros d; [done|].
  cbn [dir_of]. destruct (dir_of path) as [d'|].
  - intros [= <-]. specialize (IH d' eq_refl). simpl. lia.
  - destruct (Ascii.eqb c "/"); [|done]. intros [= <-]. simpl. lia.
Qed.

(** The directory of [a/b] starts with [a]. *)
Lemma dir_of_slash (a b : string) :
  exists tail, dir_of (a +:+ String "/" b) = Some (a +:+ tail).
Proof.
  induction a as [|c a [tail IH]].
  - change (exists tail, dir_of (String "/" b) = Some tail).
    cbn [dir_of]. destruct (dir_of b); eauto.
  - exists tail.
    change (dir_of (String c (a +:+ String "/" b)) = Some (String c (a +:+ tail))).
    cbn [dir_of]. by rewrite IH.
Qed.

Lemma parent_dir_shorter (a b : string) :
  a <> "" ->
  (String.length (parent_dir (a +:+ String "/" b))
   < String.length (a +:+ String "/" b))%nat.
Proof.
  intros Ha. unfold parent_dir.
  destruct (dir_of_slash a b) as [tail Hd]. rewrite Hd.
  apply dir_of_shorter in Hd.
  destruct a as [|c a]; [done|]. exact Hd.
Qed.

Lemma ancestors_from_length (pre rest q : string) :
  q ∈ ancestors_from pre rest ->
  (String.length q <= String.length pre + String.length rest)%nat.
Proof.
  revert pre. induction rest as [|c rest IH]; intros pre; cbn [ancestors_from].
  - intros ->%list_elem_of_singleton. lia.
  - rewrite elem_of_app. intros [Hq|Hq].
    + destruct (Ascii.eqb c "/" && negb (String.eqb pre ""));
        [|by apply elem_of_nil in Hq].
      apply list_elem_of_singleton in Hq as ->. lia.
    + apply IH in Hq. rewrite length_app in Hq. simpl in *. lia.
Qed.

(** [MkdirAll] reaches the directory it is asked for. *)
Lemma ancestors_from_last (pre rest : string) :
  pre +:+ rest ∈ ancestors_from pre rest.
Proof.
  revert pre. induction rest as [|c rest IH]; intros pre; cbn [ancestors_from].
  - rewrite app_nil_r. apply list_elem_of_here.
  - apply elem_of_app. right.
    replace (pre +:+ String c rest) with ((pre +:+ String c "") +:+ rest);
      [apply IH|].
    by rewrite app_assoc.
Qed.

Lemma ancestors_self (path : string) : path ∈ ancestors path.
Proof. apply (ancestors_from_last "" path). Qed.

Lemma ancestors_shorter (path q : string) :
  q ∈ ancestors path -> (String.length q <= String.length path)%nat.
Proof. intros H. by apply ancestors_from_length in H. Qed.

(** *** The shape of a checkpoint path *)

Lemma checkpoint_path_shape env work_dir repo_url commit_id path :
  getCheckpointPath env work_dir repo_url commit_id = Ok path ->
  work_dir <> "" /\ repo_url <> ""
  /\ exists org repo,
       ParseOrgNameFromURL env repo_url = Ok org
       /\ ParseRepoNameFromURL env repo_url = Ok repo
       /\ path
          = work_dir +:+ "/checkpoints/" +:+ org +:+ "_" +:+ repo
            +:+ (if String.eqb commit_id "" then "" else "_" +:+ commit_id)
            +:+ ".checkpoint".
Proof.
  unfold getCheckpointPath.
  destruct (String.eqb_spec work_dir "") as [|Hw]; [done|].
  destruct (String.eqb_spec repo_url "") as [|Hu]; [done|].
  destruct (ParseOrgNameFromURL env repo_url) as [org|]; [|done].
  destruct (ParseRepoNameFromURL env repo_url) as [repo|]; [|done].
  intros [= <-]. split; [done|]. split; [done|]. exists org, repo.
  split; [done|]. split; [done|].
  unfold WorkDirCheckpoints, CheckpointFileExtension.
  destruct (String.eqb commit_id ""); cbn [rrr.Join];
    rewrite ?app_assoc; reflexivity.
Qed.

Lemma checkpoint_path_parent_shorter env work_dir repo_url commit_id path :
  getCheckpointPath env work_dir repo_url commit_id = Ok path ->
  (String.length (parent_dir path) < String.length path)%nat.
Proof.
  intros H. apply checkpoint_path_shape in H
    as (Hw & _ & org & repo & _ & _ & ->).
  change (work_dir +:+ "/checkpoints/" +:+ org +:+ "_" +:+ repo +:+
            (if String.eqb commit_id "" then "" else "_" +:+ commit_id) +:+
            ".checkpoint")
    with (work_dir +:+ String "/" ("checkpoints/" +:+ org +:+ "_" +:+ repo +:+
            (if String.eqb commit_id "" then "" else "_" +:+ commit_id) +:+
            ".checkpoint")).
  by apply parent_dir_shorter.
Qed.

Lemma checkpoint_path_not_ancestor env work_dir repo_url commit_id path :
  getCheckpointPath env work_dir repo_url commit_id = Ok path ->
  path ∉ ancestors (parent_dir path).
Proof.
  intros H Hin. apply checkpoint_path_parent_shorter in H.
  apply ancestors_shorter in Hin. lia.
Qed.

(** *** Where checkpoints go *)

Lemma checkpoint_path_nonempty env work_dir repo_url commit_id path :
  getCheckpointPath env work_dir repo_url commit_id = Ok path -> path <> "".
Proof.
  intros H.
  apply checkpoint_path_shape in H as (Hw & _ & org & repo & _ & _ & ->).
  destruct work_dir; [done|discriminate].
Qed.

(** X1.  [getCheckpointPath] fails exactly when the work directory or the
    URL is empty or one of the two names cannot be parsed from the URL;
    every error it returns has [ErrCheckpointPathLookupFailed] as its
    cause, and a path it returns is never empty. *)
Theorem checkpoint_path_lookup_errors :
  forall env work_dir repo_url commit_id,
    (is_ok (getCheckpointPath env work_dir repo_url commit_id) = false
     <-> work_dir = "" \/ repo_url = ""
         \/ is_ok (ParseOrgNameFromURL env repo_url) = false
         \/ is_ok (ParseRepoNameFromURL env repo_url) = false)
    /\ (forall e,
          getCheckpointPath env work_dir repo_url commit_id = Err e ->
          Cause e = ErrCheckpointPathLookupFailed)
    /\ (forall path,
          getCheckpointPath env work_dir repo_url commit_id = Ok path ->
          path <> "").
Proof.
  intros env work_dir repo_url commit_id. split; [|split].
  - unfold getCheckpointPath.
    destruct (String.eqb_spec work_dir "") as [|Hw]; [simpl; tauto|].
    destruct (String.eqb_spec repo_url "") as [|Hu]; [simpl; tauto|].
    destruct (ParseOrgNameFromURL env repo_url) as [org|]; [|simpl; tauto].
    destruct (ParseRepoNameFromURL env repo_url) as [repo|]; simpl;
      [|tauto].
    split; [done|]. intros [?|[?|[?|?]]]; done.
  - unfold getCheckpointPath. intros e.
    destruct (String.eqb work_dir ""); [by intros [= <-]|].
    destruct (String.eqb repo_url ""); [by intros [= <-]|].
    destruct (ParseOrgNameFromURL env repo_url); [|by intros [= <-]].
    destruct (ParseRepoNameFromURL env repo_url); [done|by intros [= <-]].
  - intros path. apply checkpoint_path_nonempty.
Qed.

(** X2.  For one repository the checkpoint path tells the commits apart:
    two commit identifiers, empty or not, that lead to the same path are
    equal, so that a checkpoint of a commit is never taken for another
    one's or for the checkpoint of the repository. *)
Theorem checkpoint_path_commit_injective :
  forall env work_dir repo_url commit_1 commit_2 path,
    getCheckpointPath env work_dir repo_url commit_1 = Ok path ->
    getCheckpointPath env work_dir repo_url commit_2 = Ok path ->
    commit_1 = commit_2.
Proof.
  intros env work_dir repo_url c1 c2 path H1 H2.
  apply checkpoint_path_shape in H1 as (_ & _ & org & repo & Ho & Hr & ->).
  apply checkpoint_path_shape in H2 as (_ & _ & org' & repo' & Ho' & Hr' & H).
  rewrite Ho in Ho'. injection Ho' as <-.
  rewrite Hr in Hr'. injection Hr' as <-.
  do 5 apply app_inj_l in H. apply app_inj_r in H.
  destruct (String.eqb_spec c1 "") as [->|H1], (String.eqb_spec c2 "") as [->|H2].
  - reflexivity.
  - discriminate H.
  - discriminate H.
  - by apply (app_inj_l "_") in H.
Qed.

Lemma checkpoint_path_commit_injective_witness :
  "c0ffee" = "c0ffee".
Proof.
  apply (checkpoint_path_commit_injective example_env "w" "u" "c0ffee" "c0ffee"
           "w/checkpoints/BlackIQ_learn_c0ffee.checkpoint");
    reflexivity.
Defined.

(** X3.  Across repositories the path does not keep the names apart: the
    checkpoint of commit [c] of the repository [org/repo] is the file of
    the repository checkpoint of [org/repo_c], and moving a part between
    the organisation and the repository across an underscore leaves the
    path the same. *)
Theorem checkpoint_path_collides :
  forall env work_dir url_1 url_2 org repo part commit_id,
    work_dir <> "" -> url_1 <> "" -> url_2 <> "" ->
    (part <> "" ->
     ParseOrgNameFromURL env url_1 = Ok org ->
     ParseRepoNameFromURL env url_1 = Ok repo ->
     ParseOrgNameFromURL env url_2 = Ok org ->
     ParseRepoNameFromURL env url_2 = Ok (repo +:+ "_" +:+ part) ->
     getCheckpointPath env work_dir url_1 part
     = getCheckpointPath env work_dir url_2 "")
    /\ (ParseOrgNameFromURL env url_1 = Ok (org +:+ "_" +:+ part) ->
        ParseRepoNameFromURL env url_1 = Ok repo ->
        ParseOrgNameFromURL env url_2 = Ok org ->
        ParseRepoNameFromURL env url_2 = Ok (part +:+ "_" +:+ repo) ->
        getCheckpointPath env work_dir url_1 commit_id
        = getCheckpointPath env work_dir url_2 commit_id).
Proof.
  intros env work_dir url_1 url_2 org repo part commit_id Hw H1 H2.
  unfold getCheckpointPath.
  rewrite (proj2 (String.eqb_neq _ _) Hw), (proj2 (String.eqb_neq _ _) H1),
          (proj2 (String.eqb_neq _ _) H2).
  split.
  - intros Hp -> -> -> ->. rewrite (proj2 (String.eqb_neq _ _) Hp).
    rewrite String.eqb_refl. cbn [rrr.Join]. by rewrite !app_assoc.
  - intros -> -> -> ->.
    destruct (String.eqb commit_id ""); cbn [rrr.Join]; by rewrite !app_assoc.
Qed.

(** Two repositories of one organisation, [api] with a commit named [v2]
    and [api_v2]. *)
Lemma checkpoint_path_collides_witness :
  let env :=
    {| ParseOrgNameFromURL := fun _ => Ok "acme";
       ParseRepoNameFromURL :=
         fun url => if String.eqb url "git@host:acme/api.git" then Ok "api"
                    else Ok "api_v2";
       DecodeString := fun _ => Err ""; 
       Unmarshal := fun _ => (Checkpoint_zero, None) |} in
  getCheckpointPath env "w" "git@host:acme/api.git" "v2"
  = getCheckpointPath env "w" "git@host:acme/api_v2.git" "".
Proof.
  intros env.
  apply (proj1 (checkpoint_path_collides env "w" "git@host:acme/api.git"
                  "git@host:acme/api_v2.git" "acme" "api" "v2" ""
                  ltac:(discriminate) ltac:(discriminate) ltac:(discriminate)));
    [discriminate | reflexivity..].
Defined.

(** *** Reading *)

Lemma open_existing fs path content :
  fs_files fs !! path = Some content ->
  OpenFile_create_rdwr fs path = (fs, Ok path).
Proof. intros H. unfold OpenFile_create_rdwr. by rewrite H. Qed.

(** What [CheckpointGet] does to the file system: nothing, or an empty
    file at a path where there was none. *)
Lemma checkpoint_get_fs env fs work_dir repo_url commit_id :
  (CheckpointGet env fs work_dir repo_url commit_id).1 = fs
  \/ exists path,
       getCheckpointPath env work_dir repo_url commit_id = Ok path
       /\ fs_files fs !! path = None
       /\ CheckpointGet env fs work_dir repo_url commit_id
          = ({| fs_files := <[path := ""]> (fs_files fs);
                fs_dirs := fs_dirs fs |},
             (None, Some (Wrap ErrCheckpointFileReadFailed "file size is 0"))).
Proof.
  unfold CheckpointGet, openCheckpointFile.
  destruct (getCheckpointPath env work_dir repo_url commit_id) as [path|e];
    [|by left].
  unfold OpenFile_create_rdwr.
  destruct (fs_files fs !! path) as [content|] eqn:Hfile.
  - left. destruct (file_size fs path =? 0); [done|].
    destruct (DecodeString env (file_content fs path)) as [j|]; [|done].
    by destruct (Unmarshal env j) as [cp [t|]].
  - destruct (bool_decide (path ∈ fs_dirs fs)); [by left|].
    destruct (bool_decide (parent_dir path ∈ fs_dirs fs)); [|by left].
    right. exists path. split; [done|]. split; [done|].
    unfold file_size, file_content. cbn [fs_files].
    by rewrite lookup_insert_eq.
Qed.

(** X4.  [CheckpointGet] never changes a file that exists and never makes
    or removes a directory: the only trace it can leave is an empty file
    at the checkpoint path.  Calling it again gives the same answer and
    changes nothing more. *)
Theorem checkpoint_get_preserves_files :
  forall env fs work_dir repo_url commit_id,
    let r := CheckpointGet env fs work_dir repo_url commit_id in
    fs_dirs r.1 = fs_dirs fs
    /\ (forall p content,
          fs_files fs !! p = Some content -> fs_files r.1 !! p = Some content)
    /\ (forall p content,
          fs_files r.1 !! p = Some content -> fs_files fs !! p = None ->
          content = ""
          /\ getCheckpointPath env work_dir repo_url commit_id = Ok p)
    /\ CheckpointGet env r.1 work_dir repo_url commit_id = (r.1, r.2).
Proof.
  intros env fs work_dir repo_url commit_id r.
  destruct (checkpoint_get_fs env fs work_dir repo_url commit_id)
    as [Hsame|(path & Hpath & Hnone & Hget)]; subst r.
  - rewrite Hsame. split; [done|]. split; [done|]. split; [congruence|].
    rewrite <- Hsame at 2. by destruct (CheckpointGet env fs _ _ _).
  - rewrite Hget. cbn [fst snd fs_files fs_dirs]. split; [done|]. split; [|split].
    + intros p content Hp. rewrite lookup_insert_ne; [done|congruence].
    + intros p content Hp Hn. destruct (decide (path = p)) as [<-|Hne].
      * rewrite lookup_insert_eq in Hp. by injection Hp as <-.
      * rewrite lookup_insert_ne in Hp; congruence.
    + unfold CheckpointGet, openCheckpointFile. rewrite Hpath.
      rewrite (open_existing _ path ""); [|apply lookup_insert_eq].
      unfold file_size, file_content. cbn [fs_files].
      by rewrite lookup_insert_eq.
Qed.

(** *** Writing *)

Lemma mkdir_all_ok fs dir :
  (forall d, d ∈ ancestors dir -> fs_files fs !! d = None) ->
  MkdirAll fs dir
  = ({| fs_files := fs_files fs;
        fs_dirs := fs_dirs fs ∪ list_to_set (ancestors dir) |}, None).
Proof.
  intros Hfree. unfold MkdirAll.
  destruct (existsb _ (ancestors dir)) eqn:E; [|done].
  apply existsb_exists in E as (d & Hd & Hfile).
  apply list_elem_of_In in Hd. apply bool_decide_eq_true in Hfile.
  rewrite (Hfree d Hd) in Hfile. by destruct Hfile.
Qed.

(** The file that [CheckpointSet] writes to: opened, or created with the
    directories on its way. *)
Lemma checkpoint_set_file env fs work_dir repo_url commit_id path :
  getCheckpointPath env work_dir repo_url commit_id = Ok path ->
  path ∉ fs_dirs fs ->
  (forall d, d ∈ ancestors (parent_dir path) -> fs_files fs !! d = None) ->
  exists fs2,
    (let '(fs1, opened) :=
       openCheckpointFile env fs work_dir repo_url commit_id in
     match opened with
     | Ok f => (fs1, Ok f)
     | Err _ => createCheckpointFile env fs1 work_dir repo_url commit_id
     end) = (fs2, Ok path)
    /\ fs_dirs fs ⊆ fs_dirs fs2
    /\ forall data,
         fs_files (truncate_and_write fs2 path data)
         = <[path := data]> (fs_files fs).
Proof.
  intros Hpath Hnd Hfree.
  unfold openCheckpointFile, createCheckpointFile. rewrite Hpath.
  unfold OpenFile_create_rdwr.
  destruct (fs_files fs !! path) as [content|] eqn:Hfile.
  { exists fs. split; [done|]. split; [done|]. done. }
  rewrite (bool_decide_eq_false_2 _ Hnd).
  destruct (bool_decide (parent_dir path ∈ fs_dirs fs)) eqn:Hparent.
  { eexists. split; [done|]. split; [done|]. intros data.
    unfold truncate_and_write. cbn [fs_files]. apply insert_insert_eq. }
  rewrite (mkdir_all_ok _ _ Hfree). unfold Create. cbn [fs_dirs fs_files].
  rewrite bool_decide_eq_false_2, bool_decide_eq_true_2.
  - eexists. split; [done|]. split; [cbn [fs_dirs]; apply union_subseteq_l|].
    intros data. unfold truncate_and_write. cbn [fs_files].
    apply insert_insert_eq.
  - apply elem_of_union. right. apply elem_of_list_to_set, ancestors_self.
  - intros [H|H]%elem_of_union; [done|].
    apply elem_of_list_to_set in H.
    by apply (checkpoint_path_not_ancestor _ _ _ _ _ Hpath).
Qed.

(** [CheckpointSet] where nothing is in the way and the checkpoint can be
    marshalled. *)
Lemma checkpoint_set_saved env enc fs work_dir repo_url commit_id c path json :
  getCheckpointPath env work_dir repo_url commit_id = Ok path ->
  path ∉ fs_dirs fs ->
  (forall d, d ∈ ancestors (parent_dir path) -> fs_files fs !! d = None) ->
  enc_Marshal enc c = Ok json ->
  exists fs',
    CheckpointSet env enc fs work_dir repo_url commit_id c = (fs', None)
    /\ fs_files fs' = <[path := enc_EncodeToString enc json]> (fs_files fs)
    /\ fs_dirs fs ⊆ fs_dirs fs'.
Proof.
  intros Hpath Hnd Hfree Hmarshal.
  destruct (checkpoint_set_file _ _ _ _ _ _ Hpath Hnd Hfree)
    as (fs2 & Hopen & Hdirs & Hwrite).
  exists (truncate_and_write fs2 path (enc_EncodeToString enc json)).
  split; [|split; [apply Hwrite|exact Hdirs]].
  unfold CheckpointSet. rewrite Hpath.
  destruct (openCheckpointFile env fs work_dir repo_url commit_id)
    as [fs1 opened].
  by rewrite Hopen, Hmarshal.
Qed.

(** [CheckpointSet] where the file is missing: afterwards the directory
    of the file is there, made by [createCheckpointFile] if need be. *)
Lemma checkpoint_set_makes_directory env enc fs work_dir repo_url commit_id c
    path :
  getCheckpointPath env work_dir repo_url commit_id = Ok path ->
  path ∉ fs_dirs fs ->
  (forall d, d ∈ ancestors (parent_dir path) -> fs_files fs !! d = None) ->
  fs_files fs !! path = None ->
  parent_dir path
  ∈ fs_dirs (CheckpointSet env enc fs work_dir repo_url commit_id c).1.
Proof.
  intros Hpath Hnd Hfree Hfile.
  unfold CheckpointSet, openCheckpointFile, createCheckpointFile.
  rewrite Hpath. unfold OpenFile_create_rdwr.
  rewrite Hfile, (bool_decide_eq_false_2 _ Hnd).
  destruct (bool_decide (parent_dir path ∈ fs_dirs fs)) eqn:Hparent.
  { apply bool_decide_eq_true in Hparent.
    by destruct (enc_Marshal enc c). }
  rewrite (mkdir_all_ok _ _ Hfree). unfold Create. cbn [fs_dirs fs_files].
  rewrite bool_decide_eq_false_2, bool_decide_eq_true_2.
  - destruct (enc_Marshal enc c); cbn [fst truncate_and_write fs_dirs];
      apply elem_of_union; right; apply elem_of_list_to_set, ancestors_self.
  - apply elem_of_union. right. apply elem_of_list_to_set, ancestors_self.
  - intros [H|H]%elem_of_union; [done|].
    apply elem_of_list_to_set in H.
    by apply (checkpoint_path_not_ancestor _ _ _ _ _ Hpath).
Qed.

(** [CheckpointGet] on a file that holds text that can be decoded. *)
Lemma checkpoint_get_stored env fs work_dir repo_url commit_id path content
    json :
  getCheckpointPath env work_dir repo_url commit_id = Ok path ->
  fs_files fs !! path = Some content ->
  content <> "" ->
  DecodeString env content = Ok json ->
  CheckpointGet env fs work_dir repo_url commit_id
  = (fs,
     match Unmarshal env json with
     | (cpoint, Some text) =>
         (Some cpoint,
          Some (Wrap (External text) (Error ErrCheckpointDataUnmarshalFailed)))
     | (cpoint, None) => (Some cpoint, None)
     end).
Proof.
  intros Hpath Hfile Hne Hdecode.
  unfold CheckpointGet, openCheckpointFile. rewrite Hpath.
  rewrite (open_existing _ _ _ Hfile). unfold file_size, file_content.
  rewrite Hfile. unfold default, from_option, id.
  destruct (Z.eqb_spec (Z.of_nat (String.length content)) 0) as [Hlen|_].
  { destruct content; [done|]. simpl in Hlen. lia. }
  rewrite Hdecode. by destruct (Unmarshal env json) as [cp [t|]].
Qed.

(** X5.  A checkpoint that was saved is the checkpoint that is read back:
    if nothing but a regular file may be at the path and no regular file
    is in the way of its directory, [CheckpointSet] removes no directory,
    makes the directory of a file that was missing if it is not there,
    replaces whatever the file held by the base64 text of the JSON, and a
    [CheckpointGet] that decodes this text returns the checkpoint and
    leaves the file system alone. *)
Theorem checkpoint_set_get_round_trip :
  forall env enc fs work_dir repo_url commit_id c path json,
    getCheckpointPath env work_dir repo_url commit_id = Ok path ->
    path ∉ fs_dirs fs ->
    (forall d, d ∈ ancestors (parent_dir path) -> fs_files fs !! d = None) ->
    enc_Marshal enc c = Ok json ->
    enc_EncodeToString enc json <> "" ->
    DecodeString env (enc_EncodeToString enc json) = Ok json ->
    Unmarshal env json = (c, None) ->
    let r := CheckpointSet env enc fs work_dir repo_url commit_id c in
    r.2 = None
    /\ fs_files r.1 = <[path := enc_EncodeToString enc json]> (fs_files fs)
    /\ fs_dirs fs ⊆ fs_dirs r.1
    /\ (fs_files fs !! path = None -> parent_dir path ∈ fs_dirs r.1)
    /\ CheckpointGet env r.1 work_dir repo_url commit_id = (r.1, (Some c, None)).
Proof.
  intros env enc fs work_dir repo_url commit_id c path json
         Hpath Hnd Hfree Hmarshal Hne Hdecode Hunmarshal r. subst r.
  pose proof (checkpoint_set_makes_directory env enc fs work_dir repo_url
                commit_id c path Hpath Hnd Hfree) as Hmade.
  destruct (checkpoint_set_saved _ _ _ _ _ _ c _ _ Hpath Hnd Hfree Hmarshal)
    as (fs' & Hsaved & Hfiles & Hdirs).
  rewrite Hsaved in Hmade |- *. cbn [fst snd] in Hmade |- *.
  split; [done|]. split; [done|]. split; [done|]. split; [done|].
  rewrite (checkpoint_get_stored _ _ _ _ _ path (enc_EncodeToString enc json)
             json Hpath); [by rewrite Hunmarshal| |done|done].
  by rewrite Hfiles, lookup_insert_eq.
Qed.

(** The first checkpoint of a scan, in a work directory that has no
    [checkpoints] directory yet. *)
Lemma checkpoint_set_get_round_trip_witness :
  let r := CheckpointSet example_codec_env example_encoder example_fs_fresh
             example_work_dir "git@github.com:BlackIQ/learn.git" ""
             Checkpoint_zero in
  r.2 = None
  /\ fs_files r.1
     = <[ "/tmp/no-phi-ai/test/pkg/scanner/checkpoints/BlackIQ_learn.checkpoint"
          := "={}" ]> (fs_files example_fs_fresh)
  /\ fs_dirs example_fs_fresh ⊆ fs_dirs r.1
  /\ (fs_files example_fs_fresh
      !! "/tmp/no-phi-ai/test/pkg/scanner/checkpoints/BlackIQ_learn.checkpoint"
      = None ->
      parent_dir
        "/tmp/no-phi-ai/test/pkg/scanner/checkpoints/BlackIQ_learn.checkpoint"
      ∈ fs_dirs r.1)
  /\ CheckpointGet example_codec_env r.1 example_work_dir
       "git@github.com:BlackIQ/learn.git" ""
     = (r.1, (Some Checkpoint_zero, None)).
Proof.
  apply (checkpoint_set_get_round_trip example_codec_env example_encoder
           example_fs_fresh example_work_dir "git@github.com:BlackIQ/learn.git"
           "" Checkpoint_zero
           "/tmp/no-phi-ai/test/pkg/scanner/checkpoints/BlackIQ_learn.checkpoint"
           "{}").
  - reflexivity.
  - vm_compute. discriminate.
  - intros d _. reflexivity.
  - reflexivity.
  - discriminate.
  - reflexivity.
  - reflexivity.
Defined.

(** X6.  When [json.Marshal] fails, [CheckpointSet] reports the failure but
    has no return on that path: it goes on to truncate the file and to
    write the encoding of the empty data.  With an encoding that maps the
    empty data to the empty text, as base64 does, a checkpoint saved
    before is lost and the next [CheckpointGet] finds a file of size 0. *)
Theorem checkpoint_set_marshal_failure_truncates :
  forall env enc fs work_dir repo_url commit_id c path old text,
    getCheckpointPath env work_dir repo_url commit_id = Ok path ->
    fs_files fs !! path = Some old ->
    enc_Marshal enc c = Err text ->
    enc_EncodeToString enc "" = "" ->
    let r := CheckpointSet env enc fs work_dir repo_url commit_id c in
    r = ({| fs_files := <[path := ""]> (fs_files fs); fs_dirs := fs_dirs fs |},
         Some (Wrap (External text) ErrMsgCheckpointSaveFailed))
    /\ CheckpointGet env r.1 work_dir repo_url commit_id
       = (r.1, (None, Some (Wrap ErrCheckpointFileReadFailed "file size is 0"))).
Proof.
  intros env enc fs work_dir repo_url commit_id c path old text
         Hpath Hold Hmarshal Hempty r.
  assert (r = ({| fs_files := <[path := ""]> (fs_files fs);
                  fs_dirs := fs_dirs fs |},
               Some (Wrap (External text) ErrMsgCheckpointSaveFailed))) as Hr.
  { subst r. unfold CheckpointSet, openCheckpointFile. rewrite Hpath.
    rewrite (open_existing _ _ _ Hold), Hmarshal, Hempty. reflexivity. }
  split; [exact Hr|]. rewrite Hr. cbn [fst].
  unfold CheckpointGet, openCheckpointFile. rewrite Hpath.
  rewrite (open_existing _ path ""); [|apply lookup_insert_eq].
  unfold file_size, file_content. cbn [fs_files].
  by rewrite lookup_insert_eq.
Qed.

Lemma checkpoint_set_marshal_failure_truncates_witness :
  let fs := {| fs_files := {[ "w/checkpoints/BlackIQ_learn.checkpoint" := "={}" ]};
               fs_dirs := {[ "w"; "w/checkpoints" ]} |} in
  let r := CheckpointSet example_codec_env failing_encoder fs "w" "u" ""
             Checkpoint_zero in
  r = ({| fs_files := <[ "w/checkpoints/BlackIQ_learn.checkpoint" := "" ]>
                        (fs_files fs);
          fs_dirs := fs_dirs fs |},
       Some (Wrap (External "json: unsupported value")
                  ErrMsgCheckpointSaveFailed))
  /\ CheckpointGet example_codec_env r.1 "w" "u" ""
     = (r.1, (None, Some (Wrap ErrCheckpointFileReadFailed "file size is 0"))).
Proof.
  intros fs.
  apply (checkpoint_set_marshal_failure_truncates example_codec_env
           failing_encoder fs "w" "u" "" Checkpoint_zero
           "w/checkpoints/BlackIQ_learn.checkpoint" "={}"
           "json: unsupported value"); reflexivity.
Defined.

(** *** Deleting *)

(** [CheckpointDelete] on a file that is there. *)
Lemma checkpoint_delete_stored env fs work_dir repo_url commit_id path content :
  getCheckpointPath env work_dir repo_url commit_id = Ok path ->
  fs_files fs !! path = Some content ->
  CheckpointDelete env fs work_dir repo_url commit_id
  = ({| fs_files := delete path (fs_files fs); fs_dirs := fs_dirs fs |}, None).
Proof.
  intros Hpath Hfile. unfold CheckpointDelete. rewrite Hpath.
  rewrite (proj2 (String.eqb_neq _ _) (checkpoint_path_nonempty _ _ _ _ _ Hpath)).
  unfold Remove. by rewrite Hfile.
Qed.

(** After [CheckpointDelete] no file is at the path of the checkpoint. *)
Lemma checkpoint_delete_gone env fs work_dir repo_url commit_id path :
  getCheckpointPath env work_dir repo_url commit_id = Ok path ->
  fs_files (CheckpointDelete env fs work_dir repo_url commit_id).1 !! path
  = None.
Proof.
  intros Hpath.
  destruct (fs_files fs !! path) as [content|] eqn:Hfile.
  - rewrite (checkpoint_delete_stored _ _ _ _ _ _ _ Hpath Hfile).
    apply lookup_delete_eq.
  - unfold CheckpointDelete. rewrite Hpath.
    destruct (String.eqb path ""); [done|]. unfold Remove. rewrite Hfile.
    destruct (bool_decide (path ∈ fs_dirs fs)); [|done].
    by destruct (dir_entries fs path).
Qed.

(** X7.  [CheckpointDelete] removes the checkpoint file and nothing else.
    It succeeds when the file is there; when nothing is at the path, or
    when the path cannot be derived, it fails and leaves the file system
    as it was.  Whatever fails, the cause of the error is
    [ErrCheckpointDeleteFailed], never the error of the path lookup. *)
Theorem checkpoint_delete_removes_the_file :
  forall env fs work_dir repo_url commit_id,
    let r := CheckpointDelete env fs work_dir repo_url commit_id in
    (forall e, r.2 = Some e -> Cause e = ErrCheckpointDeleteFailed)
    /\ (forall e,
          getCheckpointPath env work_dir repo_url commit_id = Err e ->
          r = (fs, Some (Wrap ErrCheckpointDeleteFailed (Error e))))
    /\ (forall path,
          getCheckpointPath env work_dir repo_url commit_id = Ok path ->
          (forall content,
             fs_files fs !! path = Some content ->
             r = ({| fs_files := delete path (fs_files fs);
                     fs_dirs := fs_dirs fs |}, None))
          /\ (fs_files fs !! path = None -> path ∉ fs_dirs fs ->
              r.1 = fs /\ r.2 <> None)
          /\ fs_files r.1 !! path = None
          /\ (forall p, p <> path -> fs_files r.1 !! p = fs_files fs !! p)).
Proof.
  intros env fs work_dir repo_url commit_id r. subst r.
  unfold CheckpointDelete.
  destruct (getCheckpointPath env work_dir repo_url commit_id) as [path|e0]
    eqn:Hpath.
  2:{ split; [by intros e [= <-]|]. split; [by intros e [= <-]|]. done. }
  assert (path <> "") as Hne by exact (checkpoint_path_nonempty _ _ _ _ _ Hpath).
  rewrite (proj2 (String.eqb_neq _ _) Hne). unfold Remove.
  destruct (fs_files fs !! path) as [content|] eqn:Hfile.
  - cbn [fst snd]. split; [done|]. split; [done|].
    intros path' [= <-]. split; [done|]. split; [intros; congruence|].
    cbn [fs_files]. split; [apply lookup_delete_eq|].
    intros p Hp. by apply lookup_delete_ne.
  - destruct (bool_decide (path ∈ fs_dirs fs)) eqn:Hdir.
    + apply bool_decide_eq_true in Hdir.
      destruct (dir_entries fs path); cbn [fst snd fs_files].
      * split; [done|]. split; [done|]. intros path' [= <-].
        split; [intros; congruence|]. split; [done|]. by split.
      * split; [by intros e [= <-]|]. split; [done|]. intros path' [= <-].
        split; [intros; congruence|]. split; [done|]. by split.
    + cbn [fst snd]. split; [by intros e [= <-]|]. split; [done|].
      intros path' [= <-]. split; [intros; congruence|]. split; [done|].
      by split.
Qed.

(** X8.  A [CheckpointSet] followed by a [CheckpointDelete] leaves no file
    behind: where no checkpoint was stored before, the files are those
    from before the two calls (no directory is removed, so those made on
    the way stay). *)
Theorem checkpoint_set_delete_restores_files :
  forall env enc fs work_dir repo_url commit_id c path json,
    getCheckpointPath env work_dir repo_url commit_id = Ok path ->
    fs_files fs !! path = None ->
    path ∉ fs_dirs fs ->
    (forall d, d ∈ ancestors (parent_dir path) -> fs_files fs !! d = None) ->
    enc_Marshal enc c = Ok json ->
    let saved := CheckpointSet env enc fs work_dir repo_url commit_id c in
    let deleted := CheckpointDelete env saved.1 work_dir repo_url commit_id in
    saved.2 = None /\ deleted.2 = None
    /\ fs_files deleted.1 = fs_files fs
    /\ fs_dirs fs ⊆ fs_dirs deleted.1.
Proof.
  intros env enc fs work_dir repo_url commit_id c path json
         Hpath Hnone Hnd Hfree Hmarshal saved deleted.
  destruct (checkpoint_set_saved _ _ _ _ _ _ c _ _ Hpath Hnd Hfree Hmarshal)
    as (fs' & Hsaved & Hfiles & Hdirs).
  subst deleted saved. rewrite Hsaved. cbn [fst snd]. split; [done|].
  rewrite (checkpoint_delete_stored _ _ _ _ _ path
             (enc_EncodeToString enc json) Hpath);
    [|by rewrite Hfiles, lookup_insert_eq].
  cbn [fst snd fs_files fs_dirs]. split; [done|]. split; [|exact Hdirs].
  rewrite Hfiles. by apply delete_insert_id.
Qed.

Lemma checkpoint_set_delete_restores_files_witness :
  let saved := CheckpointSet example_codec_env example_encoder example_fs_fresh
                 example_work_dir "git@github.com:BlackIQ/learn.git" ""
                 Checkpoint_zero in
  let deleted := CheckpointDelete example_codec_env saved.1 example_work_dir
                   "git@github.com:BlackIQ/learn.git" "" in
  saved.2 = None /\ deleted.2 = None
  /\ fs_files deleted.1 = fs_files example_fs_fresh
  /\ fs_dirs example_fs_fresh ⊆ fs_dirs deleted.1.
Proof.
  apply (checkpoint_set_delete_restores_files example_codec_env example_encoder
           example_fs_fresh example_work_dir "git@github.com:BlackIQ/learn.git"
           "" Checkpoint_zero
           "/tmp/no-phi-ai/test/pkg/scanner/checkpoints/BlackIQ_learn.checkpoint"
           "{}").
  - reflexivity.
  - reflexivity.
  - vm_compute. discriminate.
  - intros d _. reflexivity.
  - reflexivity.
Defined.

(** *** Resuming a scan *)

(** X9.  A scan resumes where the last checkpoint was taken: when the
    checkpoint writer has saved the three trackers and the text decodes
    to what was encoded, the first lines of the next [Scan] give every
    tracker the keys and the data that were saved; the kind of each
    tracker stays. *)
Theorem scan_restores_saved_trackers :
  forall env enc fs work_dir repo_id now s fresh path json,
    getCheckpointPath env work_dir repo_id "" = Ok path ->
    path ∉ fs_dirs fs ->
    (forall d, d ∈ ancestors (parent_dir path) -> fs_files fs !! d = None) ->
    let c := NewCheckpoint now (GetKeysData (TrackerCommits s))
                               (GetKeysData (TrackerFiles s))
                               (GetKeysData (TrackerRequests s)) in
    enc_Marshal enc c = Ok json ->
    enc_EncodeToString enc json <> "" ->
    DecodeString env (enc_EncodeToString enc json) = Ok json ->
    Unmarshal env json = (c, None) ->
    let saved := setNewCheckpoint env enc now fs work_dir repo_id "" s in
    saved.2 = None
    /\ Scan_restore env saved.1 work_dir repo_id fresh
       = (saved.1,
          {| TrackerCommits :=
               {| Keys := Keys (TrackerCommits s);
                  Kind := Kind (TrackerCommits fresh) |};
             TrackerFiles :=
               {| Keys := Keys (TrackerFiles s);
                  Kind := Kind (TrackerFiles fresh) |};
             TrackerRequests :=
               {| Keys := Keys (TrackerRequests s);
                  Kind := Kind (TrackerRequests fresh) |} |},
          None).
Proof.
  intros env enc fs work_dir repo_id now s fresh path json Hpath Hnd Hfree c
         Hmarshal Hne Hdecode Hunmarshal saved.
  destruct (checkpoint_set_saved _ _ _ _ _ _ c _ _ Hpath Hnd Hfree Hmarshal)
    as (fs' & Hsaved & Hfiles & _).
  subst saved. unfold setNewCheckpoint. fold c. rewrite Hsaved.
  cbn [fst snd]. split; [done|]. unfold Scan_restore.
  rewrite (checkpoint_get_stored _ _ _ _ _ path (enc_EncodeToString enc json)
             json Hpath); [by rewrite Hunmarshal| |done|done].
  by rewrite Hfiles, lookup_insert_eq.
Qed.

Lemma scan_restores_saved_trackers_witness :
  let env :=
    {| ParseOrgNameFromURL := fun _ => Ok "BlackIQ";
       ParseRepoNameFromURL := fun _ => Ok "learn";
       DecodeString := DecodeString example_codec_env;
       Unmarshal :=
         fun _ => (NewCheckpoint 7 (GetKeysData (TrackerCommits example_scanner))
                                   (GetKeysData (TrackerFiles example_scanner))
                                   (GetKeysData (TrackerRequests example_scanner)),
                   None) |} in
  let fresh :=
    {| TrackerCommits := {| Keys := ∅; Kind := ScanObjectTypeCommit |};
       TrackerFiles := {| Keys := ∅; Kind := ScanObjectTypeFile |};
       TrackerRequests := {| Keys := ∅; Kind := ScanObjectTypeRequestResponse |} |} in
  let saved := setNewCheckpoint env example_encoder 7 example_fs_fresh
                 example_work_dir "git@github.com:BlackIQ/learn.git" ""
                 example_scanner in
  saved.2 = None
  /\ Scan_restore env saved.1 example_work_dir
       "git@github.com:BlackIQ/learn.git" fresh
     = (saved.1, example_scanner, None).
Proof.
  intros env fresh.
  apply (scan_restores_saved_trackers env example_encoder example_fs_fresh
           example_work_dir "git@github.com:BlackIQ/learn.git" 7
           example_scanner fresh
           "/tmp/no-phi-ai/test/pkg/scanner/checkpoints/BlackIQ_learn.checkpoint"
           "{}").
  - reflexivity.
  - vm_compute. discriminate.
  - intros d _. reflexivity.
  - reflexivity.
  - discriminate.
  - reflexivity.
  - reflexivity.
Defined.

(** X10.  [Scan] restores from whatever checkpoint [CheckpointGet] hands
    back.  No checkpoint comes back, and the trackers stay as they are,
    when the path cannot be derived, the file cannot be opened, is
    empty, or is not base64.  When the JSON in it cannot be read, the
    error comes with the partly filled checkpoint and the trackers are
    replaced by its content all the same. *)
Theorem scan_restore_follows_the_checkpoint :
  forall env fs work_dir repo_id s,
    let got := CheckpointGet env fs work_dir repo_id "" in
    let r := Scan_restore env fs work_dir repo_id s in
    (got.2.1 = None -> r = (got.1, s, got.2.2))
    /\ (forall path content json cpoint text,
          getCheckpointPath env work_dir repo_id "" = Ok path ->
          fs_files fs !! path = Some content ->
          content <> "" ->
          DecodeString env content = Ok json ->
          Unmarshal env json = (cpoint, Some text) ->
          r = (fs,
               {| TrackerCommits :=
                    Restore (TrackerCommits s) (TrackerCommitsData cpoint);
                  TrackerFiles :=
                    Restore (TrackerFiles s) (TrackerFilesData cpoint);
                  TrackerRequests :=
                    Restore (TrackerRequests s) (TrackerRequestsData cpoint) |},
               Some (Wrap (External text) "failed to unmarshal checkpoint data")))
    /\ (got.2.1 = None
        <-> (forall path,
               getCheckpointPath env work_dir repo_id "" = Ok path ->
               forall content,
                 fs_files fs !! path = Some content ->
                 content <> "" ->
                 is_ok (DecodeString env content) = false)).
Proof.
  intros env fs work_dir repo_id s got r. subst r. unfold Scan_restore.
  fold got. split; [|split].
  - destruct got as [fs' [[c|] e]]; [done|]. by intros _.
  - intros path content json cpoint text Hpath Hfile Hne Hdecode Hunmarshal.
    assert (got = (fs, (Some cpoint,
                        Some (Wrap (External text)
                                (Error ErrCheckpointDataUnmarshalFailed)))))
      as ->; [|reflexivity].
    subst got.
    by rewrite (checkpoint_get_stored _ _ _ _ _ _ _ _ Hpath Hfile Hne Hdecode),
               Hunmarshal.
  - subst got. unfold CheckpointGet, openCheckpointFile.
    destruct (getCheckpointPath env work_dir repo_id "") as [path|e];
      [|split; [intros _ path' [=]|done]].
    unfold OpenFile_create_rdwr.
    destruct (fs_files fs !! path) as [content|] eqn:Hfile.
    + unfold file_size, file_content. rewrite Hfile.
      unfold default, from_option, id.
      destruct (Z.eqb_spec (Z.of_nat (String.length content)) 0) as [Hlen|Hlen].
      { split; [|done]. intros _ path' [= <-] content' Hc Hne.
        rewrite Hfile in Hc. injection Hc as <-.
        destruct content; [done|]. simpl in Hlen. lia. }
      assert (content <> "") as Hne by (intros ->; by apply Hlen).
      destruct (DecodeString env content) as [j|t] eqn:Hdecode.
      * destruct (Unmarshal env j) as [cp [t|]]; cbn [fst snd];
          (split; [done|]);
          intros H; specialize (H path eq_refl content Hfile Hne);
          by rewrite Hdecode in H.
      * cbn [fst snd]. split; [|done].
        intros _ path' [= <-] content' Hc _. rewrite Hfile in Hc.
        injection Hc as <-. by rewrite Hdecode.
    + split; [intros _ path' [= <-] content Hc; congruence|].
      intros _. repeat case_bool_decide; cbn [fst snd]; [done| |done].
      unfold file_size, file_content. cbn [fs_files].
      by rewrite lookup_insert_eq.
Qed.

Lemma scan_restore_follows_the_checkpoint_witness :
  let env :=
    {| ParseOrgNameFromURL := fun _ => Ok "BlackIQ";
       ParseRepoNameFromURL := fun _ => Ok "learn";
       DecodeString := fun _ => Ok "{";
       Unmarshal :=
         fun _ => (Checkpoint_zero, Some "unexpected end of JSON input") |} in
  let path :=
    "/tmp/no-phi-ai/test/pkg/scanner/checkpoints/BlackIQ_learn.checkpoint" in
  let fs :=
    {| fs_files := {[ path := "ew==" ]}; fs_dirs := fs_dirs example_fs_prepared |}
  in
  Scan_restore env fs example_work_dir "git@github.com:BlackIQ/learn.git"
    example_scanner
  = (fs,
     {| TrackerCommits :=
          Restore (TrackerCommits example_scanner)
                  (TrackerCommitsData Checkpoint_zero);
        TrackerFiles :=
          Restore (TrackerFiles example_scanner)
                  (TrackerFilesData Checkpoint_zero);
        TrackerRequests :=
          Restore (TrackerRequests example_scanner)
                  (TrackerRequestsData Checkpoint_zero) |},
     Some (Wrap (External "unexpected end of JSON input")
             "failed to unmarshal checkpoint data")).
Proof.
  intros env path fs.
  apply (proj1 (proj2 (scan_restore_follows_the_checkpoint env fs
                         example_work_dir "git@github.com:BlackIQ/learn.git"
                         example_scanner))
           path "ew==" "{" Checkpoint_zero "unexpected end of JSON input").
  - reflexivity.
  - vm_compute. reflexivity.
  - discriminate.
  - reflexivity.
  - reflexivity.
Defined.

End CheckpointStoreFacts.

(** * The processors of the pipeline *)

Module PipelineFacts.

Import tracker scanner TrackerFacts.

(** ** The error processor *)

(** X11.  [processErrors] ends after the first event it takes, whatever
    comes later: the events after the first stay unread, an error is
    forwarded only if it is the first event, and the output channel is
    closed unless nothing arrived or the first event is a nil error, in
    which case the processor ends and leaves the channel open. *)
Theorem process_errors_handles_one_event :
  forall events,
    let r := processErrors events in
    r.2 = tail events
    /\ (forall e, OutSend e ∈ r.1 <-> head events = Some (InError (Some e)))
    /\ (OutClose ∈ r.1
        <-> head events <> None /\ head events <> Some (InError None))
    /\ (r.1 <> [] -> last r.1 = Some OutClose)
    /\ (List.length r.1 <= 2)%nat.
Proof.
  intros [|[|[e0|]] rest]; cbn;
    (split; [done|]); (split; [intros e|split; [|split; [done|lia]]]).
  - rewrite elem_of_nil. split; [done|discriminate].
  - rewrite elem_of_nil. split; [done|by intros [? _]].
  - rewrite list_elem_of_singleton. split; discriminate.
  - split; [done|]. intros _. apply list_elem_of_here.
  - rewrite elem_of_cons, list_elem_of_singleton.
    split; [intros [[= ->]|[=]]; done|]. intros [= ->]. by left.
  - split; [done|]. intros _. apply list_elem_of_further, list_elem_of_here.
  - rewrite elem_of_nil. split; [done|discriminate].
  - rewrite elem_of_nil. split; [done|by intros [_ ?]].
Qed.

(** ** The request processor *)

(** The three ways of [processRequest]. *)
Lemma process_request_cases now requests r :
  processRequest now requests r
  = if String.eqb (rrr.ID (rrr.Metadata r)) "" then
      (requests, [], [ScanError ErrProcessRequestNoID])
    else
      match Keys requests !! rrr.ID (rrr.Metadata r) with
      | Some _ => (requests, [], [])
      | None =>
          (set_key requests (rrr.ID (rrr.Metadata r))
             {| Code := KeyCodePending; State := KeyStatePending;
                Message := ""; Children := ∅;
                TimestampFirst := now; TimestampLatest := now |},
           [r], [])
      end.
Proof.
  unfold processRequest, Get.
  destruct (String.eqb_spec (rrr.ID (rrr.Metadata r)) "") as [|Hne]; [done|].
  destruct (Keys requests !! rrr.ID (rrr.Metadata r)) eqn:Hk; [done|].
  by rewrite (update_new requests now _ KeyCodePending "" [] Hne eq_refl Hk).
Qed.

Local Notation "'request_id'" := (fun r => rrr.ID (rrr.Metadata r)).

(** What a run of [processRequests] sends, tracks and reports. *)
Lemma process_requests_run now incoming :
  forall n requests,
    let out := processRequests now n requests incoming in
    NoDup (request_id <$> out.1.2)
    /\ sublist out.1.2 incoming
    /\ (forall r, r ∈ out.1.2 ->
        rrr.ID (rrr.Metadata r) <> ""
        /\ Keys requests !! rrr.ID (rrr.Metadata r) = None)
    /\ (forall r, r ∈ incoming -> rrr.ID (rrr.Metadata r) <> "" ->
        Keys requests !! rrr.ID (rrr.Metadata r) = None ->
        rrr.ID (rrr.Metadata r) ∈ request_id <$> out.1.2)
    /\ (forall k d, Keys requests !! k = Some d -> Keys out.1.1 !! k = Some d)
    /\ (forall k, Keys requests !! k = None ->
        match Keys out.1.1 !! k with
        | Some d =>
            k ∈ request_id <$> out.1.2
            /\ Code d = KeyCodePending /\ Children d = ∅ /\ Message d = ""
        | None => k ∉ request_id <$> out.1.2
        end)
    /\ out.2 = List.map (fun _ => ScanError ErrProcessRequestNoID)
                 (List.filter
                    (fun r => String.eqb (rrr.ID (rrr.Metadata r)) "")
                    incoming).
Proof.
  induction incoming as [|r rest IH]; intros n requests out.
  - subst out. cbn. split_and!; try done.
    + apply NoDup_nil_2.
    + by intros r ?%elem_of_nil.
    + by intros r ?%elem_of_nil.
    + intros k Hk. rewrite Hk. by intros ?%elem_of_nil.
  - subst out. cbn [processRequests]. rewrite process_request_cases.
    cbn [List.filter]. set (id := rrr.ID (rrr.Metadata r)).
    destruct (String.eqb_spec id "") as [Hempty|Hne].
    { specialize (IH (S n) requests).
      destruct (processRequests now (S n) requests rest) as [[kt sent] errs].
      cbn [fst snd] in *.
      destruct IH as (Hnd & Hsub & Hsent & Hall & Hkeep & Hnew & Herr).
      split_and!; try done.
      - by apply sublist_cons.
      - intros r' [->|Hin]%elem_of_cons Hr' Hk; [done|]. by apply Hall.
      - cbn. by rewrite Herr. }
    destruct (Keys requests !! id) as [d0|] eqn:Hk.
    { specialize (IH (S n) requests).
      destruct (processRequests now (S n) requests rest) as [[kt sent] errs].
      cbn [fst snd] in *.
      destruct IH as (Hnd & Hsub & Hsent & Hall & Hkeep & Hnew & Herr).
      split_and!; try done.
      - by apply sublist_cons.
      - intros r' [->|Hin]%elem_of_cons Hr' Hk'; [subst id; congruence|].
        by apply Hall. }
    set (d := {| Code := KeyCodePending; State := KeyStatePending;
                 Message := ""; Children := ∅;
                 TimestampFirst := now n; TimestampLatest := now n |}).
    specialize (IH (S n) (set_key requests id d)).
    destruct (processRequests now (S n) (set_key requests id d) rest)
      as [[kt sent] errs].
    cbn [fst snd app] in *.
    destruct IH as (Hnd & Hsub & Hsent & Hall & Hkeep & Hnew & Herr).
    assert (forall r', r' ∈ sent -> rrr.ID (rrr.Metadata r') <> id) as Hother.
    { intros r' Hin Heq. destruct (Hsent r' Hin) as [_ Hnone].
      rewrite Heq in Hnone. by rewrite lookup_set_key in Hnone. }
    assert (id ∉ request_id <$> sent) as Hfresh.
    { intros (r' & Heq & Hin)%list_elem_of_fmap. by apply (Hother r' Hin). }
    split_and!.
    + rewrite fmap_cons. by apply NoDup_cons_2.
    + by apply sublist_skip.
    + intros r' [->|Hin]%elem_of_cons; [done|].
      destruct (Hsent r' Hin) as [Hr' Hnone]. split; [done|].
      rewrite lookup_set_key_ne in Hnone; [done|].
      intros Heq. by apply (Hother r' Hin).
    + intros r' Hin Hr' Hk'. rewrite fmap_cons.
      destruct (decide (rrr.ID (rrr.Metadata r') = id)) as [->|Hdiff];
        [apply list_elem_of_here|].
      apply list_elem_of_further.
      apply elem_of_cons in Hin as [->|Hin]; [done|].
      apply Hall; [done|done|]. by rewrite lookup_set_key_ne.
    + intros k d0 Hk0. apply Hkeep.
      rewrite lookup_set_key_ne; [done|]. congruence.
    + intros k Hk0. rewrite fmap_cons.
      destruct (decide (k = id)) as [->|Hdiff].
      * rewrite (Hkeep id d (lookup_set_key _ _ _)).
        split; [apply list_elem_of_here|done].
      * specialize (Hnew k). rewrite lookup_set_key_ne in Hnew by done.
        specialize (Hnew Hk0). destruct (Keys kt !! k) as [d1|].
        -- destruct Hnew as [Hin Hrest]. split; [|done].
           by apply list_elem_of_further.
        -- by apply not_elem_of_cons.
    + exact Herr.
Qed.

(** X12.  [processRequests] forwards each new identifier once: the
    requests sent out are requests that came in, in the order they came,
    no two of them share an identifier, none has the empty identifier or
    one that was tracked before, and every request with a non-empty
    identifier that was not tracked has its identifier sent out. *)
Theorem process_requests_forwards_each_id_once :
  forall now n requests incoming,
    let sent := (processRequests now n requests incoming).1.2 in
    NoDup (request_id <$> sent)
    /\ sublist sent incoming
    /\ (forall r, r ∈ sent ->
        rrr.ID (rrr.Metadata r) <> ""
        /\ Get requests (rrr.ID (rrr.Metadata r)) = None)
    /\ (forall r, r ∈ incoming -> rrr.ID (rrr.Metadata r) <> "" ->
        Get requests (rrr.ID (rrr.Metadata r)) = None ->
        rrr.ID (rrr.Metadata r) ∈ request_id <$> sent).
Proof.
  intros now n requests incoming sent. subst sent.
  destruct (process_requests_run now incoming n requests)
    as (Hnd & Hsub & Hsent & Hall & _).
  by split_and!.
Qed.

(** X13.  [processRequests] tracks what it forwards and touches nothing
    else: a key tracked before keeps its data, a key that is new is
    tracked exactly when a request with this identifier was sent out, and
    then as PENDING, without children and without message.  The errors
    reported are one [ErrProcessRequestNoID] for each request without
    identifier; the tracker never fails. *)
Theorem process_requests_tracks_what_it_forwards :
  forall now n requests incoming,
    let out := processRequests now n requests incoming in
    (forall k d, Get requests k = Some d -> Get out.1.1 k = Some d)
    /\ (forall k, Get requests k = None ->
        match Get out.1.1 k with
        | Some d =>
            k ∈ request_id <$> out.1.2
            /\ Code d = KeyCodePending /\ Children d = ∅ /\ Message d = ""
        | None => k ∉ request_id <$> out.1.2
        end)
    /\ out.2 = List.map (fun _ => ScanError ErrProcessRequestNoID)
                 (List.filter
                    (fun r => String.eqb (rrr.ID (rrr.Metadata r)) "")
                    incoming).
Proof.
  intros now n requests incoming out. subst out.
  destruct (process_requests_run now incoming n requests)
    as (_ & _ & _ & _ & Hkeep & Hnew & Herr).
  by split_and!.
Qed.

(** ** The response processor *)

(** [Update] with [KeyCodeComplete] on a key that is tracked: the named
    children are flagged, and the key is COMPLETE if it was or if no child
    is left open, PENDING otherwise. *)
Lemma update_complete_tracked kt now key d message child_keys :
  key <> "" -> Keys kt !! key = Some d ->
  exists d',
    Update kt now key KeyCodeComplete message child_keys
    = (set_key kt key d', Ok (Code d'))
    /\ Children d' = merge_children KeyCodeComplete child_keys (Children d)
    /\ Code d'
       = if (Code d =? KeyCodeComplete)
            || children_complete
                 (merge_children KeyCodeComplete child_keys (Children d))
         then KeyCodeComplete else KeyCodePending.
Proof.
  intros Hk Hd.
  destruct (Z.eqb_spec (Code d) KeyCodeComplete) as [Hc|Hc].
  - exists {| Code := Code d; State := State d; Message := Message d;
              Children :=
                merge_children KeyCodeComplete child_keys (Children d);
              TimestampFirst := TimestampFirst d;
              TimestampLatest := TimestampLatest d |}.
    rewrite (update_monotonic kt now key d KeyCodeComplete message child_keys
               Hk eq_refl Hd Hc).
    cbn [Code Children orb]. by rewrite Hc.
  - destruct (children_complete
                (merge_children KeyCodeComplete child_keys (Children d)))
      eqn:Hall.
    + exists {| Code := KeyCodeComplete;
                State := KeyCodeToState KeyCodeComplete; Message := message;
                Children :=
                  merge_children KeyCodeComplete child_keys (Children d);
                TimestampFirst := TimestampFirst d; TimestampLatest := now |}.
      by rewrite (update_adopts kt now key d KeyCodeComplete message
                    child_keys Hk eq_refl Hd Hc (or_intror Hall)).
    + exists {| Code := KeyCodePending; State := KeyStatePending;
                Message := message;
                Children :=
                  merge_children KeyCodeComplete child_keys (Children d);
                TimestampFirst := TimestampFirst d; TimestampLatest := now |}.
      by rewrite (update_held_back _ _ _ _ _ _ Hk Hd Hc Hall).
Qed.

Lemma merge_one_complete (c : string) (m : gmap string bool) :
  merge_children KeyCodeComplete [c] m = <[c := true]> m.
Proof. reflexivity. Qed.

(** The flags of a children map with one more child done. *)
Lemma children_complete_insert (c : string) (m : gmap string bool) :
  children_complete (<[c := true]> m) = true
  <-> forall c', c' <> c -> m !! c' <> Some false.
Proof.
  rewrite children_complete_true. split.
  - intros H c' Hne Hc'. specialize (H c' false).
    rewrite lookup_insert_ne in H by done. by specialize (H Hc').
  - intros H c' b Hc'. destruct (decide (c' = c)) as [->|Hne].
    + rewrite lookup_insert_eq in Hc'. by injection Hc' as <-.
    + rewrite lookup_insert_ne in Hc' by done. destruct b; [done|].
      by destruct (H c' Hne).
Qed.

Section Responses.

Variables Result ResultRecord Store : Type.
Variable ResultRecordsFromResponse : rrr.Response Result -> list ResultRecord.
Variable Write : Store -> list ResultRecord -> Store * option string.

Local Notation "'processResponse'" :=
  (scanner.processResponse Result ResultRecord Store ResultRecordsFromResponse
     Write).
Local Notation "'processResponses'" :=
  (scanner.processResponses Result ResultRecord Store
     ResultRecordsFromResponse Write).
Local Notation "'response_id'" :=
  (fun r : rrr.Response Result => rrr.ID (rrr.Response_Metadata r)).

(** One response for a file that is tracked. *)
Lemma process_response_tracked_file now s store (r : rrr.Response Result) d :
  let id := rrr.ID (rrr.Response_Metadata r) in
  let object_id := rrr.Object_ID (rrr.Object (rrr.Response_Metadata r)) in
  let commit_id := rrr.Commit_ID (rrr.Commit (rrr.Response_Metadata r)) in
  id <> "" -> object_id <> "" ->
  Keys (TrackerFiles s) !! object_id = Some d ->
  exists d',
    Children d' = <[id := true]> (Children d)
    /\ Code d'
       = (if (Code d =? KeyCodeComplete)
             || children_complete (<[id := true]> (Children d))
          then KeyCodeComplete else KeyCodePending)
    /\ TrackerFiles (processResponse now s store r).1.1
       = set_key (TrackerFiles s) object_id d'
    /\ TrackerCommits (processResponse now s store r).1.1
       = (if Code d' =? KeyCodeComplete then
            (Update (TrackerCommits s) (at_commit now) commit_id
                    KeyCodeComplete "" [object_id]).1
          else TrackerCommits s)
    /\ TrackerRequests (processResponse now s store r).1.1
       = (Update (TrackerRequests s) (at_request now) id KeyCodeComplete ""
                 []).1.
Proof.
  intros id object_id commit_id Hid Hobject Hd.
  destruct (update_complete_tracked (TrackerFiles s) (at_file now) object_id d
              "" [id] Hobject Hd) as (d' & Hupdate & Hchildren & Hcode).
  rewrite merge_one_complete in Hchildren, Hcode.
  exists d'. split; [done|]. split; [done|].
  unfold scanner.processResponse. fold id object_id commit_id.
  rewrite (proj2 (String.eqb_neq _ _) Hid), Hupdate.
  destruct (0 <? Z.of_nat (List.length (rrr.Results r)));
    [destruct (Write store (ResultRecordsFromResponse r)) as [store' [t|]]|];
    destruct (Code d' =? KeyCodeComplete);
    try destruct (Update (TrackerCommits s) (at_commit now) commit_id
                    KeyCodeComplete "" [object_id]) as [commits' [c|e]];
    done.
Qed.

(** X14.  One response for a tracked file: the request of the response is
    flagged as done among the children of the file, the other files are
    left alone, and the file is COMPLETE afterwards exactly if it was
    before or no other child of it is open; otherwise it is PENDING and
    the tracker of the commits is not touched. *)
Theorem process_response_file_step :
  forall now s store (r : rrr.Response Result) d,
    let id := rrr.ID (rrr.Response_Metadata r) in
    let object_id := rrr.Object_ID (rrr.Object (rrr.Response_Metadata r)) in
    id <> "" -> object_id <> "" ->
    Get (TrackerFiles s) object_id = Some d ->
    let s' := (processResponse now s store r).1.1 in
    exists d',
      Get (TrackerFiles s') object_id = Some d'
      /\ Children d' = <[id := true]> (Children d)
      /\ (Code d' = KeyCodeComplete
          <-> Code d = KeyCodeComplete
              \/ forall c, c <> id -> Children d !! c <> Some false)
      /\ (Code d' <> KeyCodeComplete ->
          Code d' = KeyCodePending /\ TrackerCommits s' = TrackerCommits s)
      /\ (forall k, k <> object_id ->
          Get (TrackerFiles s') k = Get (TrackerFiles s) k).
Proof.
  intros now s store r d id object_id Hid Hobject Hd s'.
  destruct (process_response_tracked_file now s store r d Hid Hobject Hd)
    as (d' & Hchildren & Hcode & Hfiles & Hcommits & _).
  fold id object_id in Hchildren, Hcode, Hfiles, Hcommits.
  exists d'. subst s'. unfold Get. rewrite Hfiles, Hcommits.
  split; [apply lookup_set_key|]. split; [done|].
  pose proof (children_complete_insert id (Children d)) as Hall.
  split_and!.
  - rewrite Hcode, <- Hall.
    destruct (Z.eqb_spec (Code d) KeyCodeComplete) as [Hc|Hc]; cbn [orb].
    + split; [by left|done].
    + destruct (children_complete (<[id:=true]> (Children d))).
      * split; [by right|done].
      * split; [done|]. by intros [?|?].
  - intros Hopen. rewrite Hcode in Hopen |- *.
    by destruct ((Code d =? KeyCodeComplete)
                 || children_complete (<[id:=true]> (Children d))).
  - intros k Hk. by apply lookup_set_key_ne.
Qed.

(** A run of responses for one file of one commit. *)
Lemma process_responses_one_file now object_id commit_id
    (rs : list (rrr.Response Result)) :
  object_id <> "" ->
  (forall r, r ∈ rs ->
     rrr.ID (rrr.Response_Metadata r) <> ""
     /\ rrr.Object_ID (rrr.Object (rrr.Response_Metadata r)) = object_id
     /\ rrr.Commit_ID (rrr.Commit (rrr.Response_Metadata r)) = commit_id) ->
  forall n s store d,
    Keys (TrackerFiles s) !! object_id = Some d ->
    let s' := (processResponses now n s store rs).1.1 in
    exists d',
      Keys (TrackerFiles s') !! object_id = Some d'
      /\ Children d'
         = merge_children KeyCodeComplete (response_id <$> rs) (Children d)
      /\ (rs <> [] -> children_complete (Children d') = true ->
          Code d' = KeyCodeComplete)
      /\ (rs <> [] -> Code d' = KeyCodeComplete -> commit_id <> "" ->
          forall dc, Keys (TrackerCommits s) !! commit_id = Some dc ->
          exists dc',
            Keys (TrackerCommits s') !! commit_id = Some dc'
            /\ Children dc' !! object_id = Some true).
Proof.
  intros Hobject. induction rs as [|r rest IH]; intros Hrs n s store d Hd s'.
  - exists d. subst s'. cbn. by split_and!.
  - destruct (Hrs r (list_elem_of_here _ _)) as (Hid & Ho & Hc).
    assert (forall r', r' ∈ rest ->
              rrr.ID (rrr.Response_Metadata r') <> ""
              /\ rrr.Object_ID (rrr.Object (rrr.Response_Metadata r'))
                 = object_id
              /\ rrr.Commit_ID (rrr.Commit (rrr.Response_Metadata r'))
                 = commit_id) as Hrest
      by (intros r' Hin; by apply Hrs, list_elem_of_further).
    rewrite <- Ho in Hd, Hobject.
    destruct (process_response_tracked_file (now n) s store r d Hid Hobject Hd)
      as (d1 & Hchildren & Hcode & Hfiles & Hcommits & _).
    rewrite Ho in Hd, Hobject, Hfiles, Hcommits. rewrite Hc in Hcommits.
    subst s'. cbn [scanner.processResponses].
    destruct (processResponse (now n) s store r) as [[s1 store1] errors1].
    cbn [fst snd] in Hfiles, Hcommits.
    assert (Keys (TrackerFiles s1) !! object_id = Some d1) as Hd1
      by (rewrite Hfiles; apply lookup_set_key).
    specialize (IH Hrest (S n) s1 store1 d1 Hd1).
    destruct (processResponses now (S n) s1 store1 rest)
      as [[s2 store2] errors2] eqn:Hrun.
    cbn [fst snd] in IH |- *.
    destruct IH as (d' & Hd' & Hchildren' & Hdone & Hflag).
    exists d'. split; [done|]. split.
    { rewrite Hchildren', Hchildren. reflexivity. }
    destruct rest as [|r2 rest'].
    + cbn in Hrun. injection Hrun as <- <- <-.
      rewrite Hd1 in Hd'. injection Hd' as <-. split.
      * intros _ Hall. rewrite Hcode. rewrite Hchildren in Hall.
        by rewrite Hall, orb_true_r.
      * intros _ Hcomplete Hcommit dc Hdc. rewrite Hcommits, Hcomplete.
        cbn [Z.eqb Pos.eqb].
        destruct (update_complete_tracked (TrackerCommits s) (at_commit (now n))
                    commit_id dc "" [object_id] Hcommit Hdc)
          as (dc' & -> & Hflags & _).
        exists dc'. cbn [fst]. split; [apply lookup_set_key|].
        rewrite Hflags, merge_one_complete. apply lookup_insert_eq.
    + split; [intros _; by apply Hdone|].
      intros _ Hcomplete Hcommit dc Hdc.
      assert (exists dc1, Keys (TrackerCommits s1) !! commit_id = Some dc1)
        as [dc1 Hdc1].
      { rewrite Hcommits. destruct (Code d1 =? KeyCodeComplete); [|by exists dc].
        destruct (update_complete_tracked (TrackerCommits s) (at_commit (now n))
                    commit_id dc "" [object_id] Hcommit Hdc)
          as (dc' & -> & _).
        exists dc'. apply lookup_set_key. }
      by apply (Hflag ltac:(done) Hcomplete Hcommit dc1).
Qed.

(** X15.  When the responses for one file of one commit cover every open
    child of the file, the file is COMPLETE after the last of them, no
    child of it is open, and the file is flagged as done in the commit,
    in whatever order and however often the responses come. *)
Theorem process_responses_complete_the_file :
  forall now n s store (rs : list (rrr.Response Result)) object_id commit_id
         d dc,
    object_id <> "" -> commit_id <> "" -> rs <> [] ->
    (forall r, r ∈ rs ->
       rrr.ID (rrr.Response_Metadata r) <> ""
       /\ rrr.Object_ID (rrr.Object (rrr.Response_Metadata r)) = object_id
       /\ rrr.Commit_ID (rrr.Commit (rrr.Response_Metadata r)) = commit_id) ->
    Get (TrackerFiles s) object_id = Some d ->
    Get (TrackerCommits s) commit_id = Some dc ->
    (forall c, Children d !! c = Some false -> c ∈ response_id <$> rs) ->
    let s' := (processResponses now n s store rs).1.1 in
    (exists d',
       Get (TrackerFiles s') object_id = Some d'
       /\ Code d' = KeyCodeComplete
       /\ children_complete (Children d') = true
       /\ forall c, c ∈ response_id <$> rs -> Children d' !! c = Some true)
    /\ (exists dc',
          Get (TrackerCommits s') commit_id = Some dc'
          /\ Children dc' !! object_id = Some true).
Proof.
  intros now n s store rs object_id commit_id d dc Hobject Hcommit Hne Hrs
         Hd Hdc Hcover s'.
  destruct (process_responses_one_file now object_id commit_id rs Hobject Hrs
              n s store d Hd) as (d' & Hd' & Hchildren & Hdone & Hflag).
  fold s' in Hd', Hdone, Hflag.
  assert (children_complete (Children d') = true) as Hall.
  { apply children_complete_true. intros c b. rewrite Hchildren.
    rewrite merge_children_complete_lookup.
    destruct (decide (c ∈ response_id <$> rs)) as [Hin|Hout];
      [by intros [= <-]|].
    destruct b; [done|]. intros Hopen. by destruct (Hout (Hcover c Hopen)). }
  split.
  - exists d'. split; [done|]. split; [by apply Hdone|]. split; [done|].
    intros c Hin. rewrite Hchildren, merge_children_complete_lookup.
    by rewrite decide_True.
  - by apply (Hflag Hne (Hdone Hne Hall) Hcommit dc).
Qed.

End Responses.

Lemma process_response_file_step_witness :
  let s' :=
    (processResponse string string (list string) example_records
       example_write example_readings example_scanner [] example_response).1.1
  in
  exists d',
    Get (TrackerFiles s') "file1" = Some d'
    /\ Children d' = <["request1" := true]> {["request1" := false]}
    /\ (Code d' = KeyCodeComplete
        <-> KeyCodePending = KeyCodeComplete
            \/ forall c, c <> "request1" ->
                 ({["request1" := false]} : gmap string bool) !! c
                 <> Some false)
    /\ (Code d' <> KeyCodeComplete ->
        Code d' = KeyCodePending
        /\ TrackerCommits s' = TrackerCommits example_scanner)
    /\ (forall k, k <> "file1" ->
        Get (TrackerFiles s') k = Get (TrackerFiles example_scanner) k).
Proof.
  exact (process_response_file_step string string (list string)
           example_records example_write example_readings example_scanner []
           example_response
           {| Code := KeyCodePending; State := KeyStatePending; Message := "";
              Children := {["request1" := false]};
              TimestampFirst := 2; TimestampLatest := 2 |}
           ltac:(discriminate) ltac:(discriminate) eq_refl).
Defined.

Lemma process_responses_complete_the_file_witness :
  let s' :=
    (processResponses string string (list string) example_records
       example_write (fun _ => example_readings) 0 example_scanner []
       [example_response; example_response]).1.1 in
  (exists d',
     Get (TrackerFiles s') "file1" = Some d'
     /\ Code d' = KeyCodeComplete
     /\ children_complete (Children d') = true
     /\ forall c,
          c ∈ (fun r : rrr.Response string => rrr.ID (rrr.Response_Metadata r))
                <$> [example_response; example_response] ->
          Children d' !! c = Some true)
  /\ (exists dc',
        Get (TrackerCommits s') "commit1" = Some dc'
        /\ Children dc' !! "file1" = Some true).
Proof.
  apply (process_responses_complete_the_file string string (list string)
           example_records example_write (fun _ => example_readings) 0
           example_scanner [] [example_response; example_response]
           "file1" "commit1"
           {| Code := KeyCodePending; State := KeyStatePending; Message := "";
              Children := {["request1" := false]};
              TimestampFirst := 2; TimestampLatest := 2 |}
           {| Code := KeyCodePending; State := KeyStatePending; Message := "";
              Children := {["file1" := false]};
              TimestampFirst := 1; TimestampLatest := 1 |}).
  - discriminate.
  - discriminate.
  - discriminate.
  - intros r [->|[->|[]%elem_of_nil]%elem_of_cons]%elem_of_cons;
      by split_and!.
  - reflexivity.
  - reflexivity.
  - intros c Hc.
    destruct (decide (c = "request1")) as [->|Hne];
      [apply list_elem_of_here|].
    cbn [Children] in Hc. by rewrite lookup_singleton_ne in Hc.
Defined.

(** One response: the trackers afterwards are the same under any sink. *)
Lemma process_response_ignores_the_store (Result R1 R2 S1 S2 : Type)
    (records1 : rrr.Response Result -> list R1)
    (Write1 : S1 -> list R1 -> S1 * option string)
    (records2 : rrr.Response Result -> list R2)
    (Write2 : S2 -> list R2 -> S2 * option string) now s store1 store2 r :
  (processResponse Result R1 S1 records1 Write1 now s store1 r).1.1
  = (processResponse Result R2 S2 records2 Write2 now s store2 r).1.1.
Proof.
  unfold processResponse.
  destruct (String.eqb (rrr.ID (rrr.Response_Metadata r)) ""); [done|].
  destruct (0 <? Z.of_nat (List.length (rrr.Results r)));
    [destruct (Write1 store1 (records1 r)) as [? [?|]];
     destruct (Write2 store2 (records2 r)) as [? [?|]]|];
    (destruct (Update (TrackerFiles s) (at_file now) _ KeyCodeComplete "" _)
       as [files' [c|e]];
     [destruct (c =? KeyCodeComplete);
      [destruct (Update (TrackerCommits s) (at_commit now) _ KeyCodeComplete
                        "" _) as [commits' [c'|e']]|]|];
     done).
Qed.

(** X16.  The progress of the scan does not depend on the store of the
    results: the trackers after a run of responses are the same whatever
    the store holds and whatever [Write] does, failures included, and a
    failed [Write] is reported on the errors channel with
    [ErrMsgResultWriteFailed].  The store is only written for a response
    that has an identifier and at least one result. *)
Theorem process_responses_ignore_the_store :
  forall (Result R1 R2 S1 S2 : Type)
         (records1 : rrr.Response Result -> list R1)
         (Write1 : S1 -> list R1 -> S1 * option string)
         (records2 : rrr.Response Result -> list R2)
         (Write2 : S2 -> list R2 -> S2 * option string)
         now rs n s store1 store2,
    (processResponses Result R1 S1 records1 Write1 now n s store1 rs).1.1
    = (processResponses Result R2 S2 records2 Write2 now n s store2 rs).1.1
    /\ ((forall r, r ∈ rs ->
           rrr.ID (rrr.Response_Metadata r) = "" \/ rrr.Results r = []) ->
        (processResponses Result R1 S1 records1 Write1 now n s store1 rs).1.2
        = store1)
    /\ (forall r text,
          rrr.ID (rrr.Response_Metadata r) <> "" -> rrr.Results r <> [] ->
          (Write1 store1 (records1 r)).2 = Some text ->
          head (processResponse Result R1 S1 records1 Write1 (now n) s store1
                  r).2
          = Some (ScanError (Wrap (External text) ErrMsgResultWriteFailed))).
Proof.
  intros Result R1 R2 S1 S2 records1 Write1 records2 Write2 now rs.
  induction rs as [|r rest IH]; intros n s store1 store2.
  - split_and!; [done|done|].
    intros r text Hid Hres Hw. unfold processResponse.
    rewrite (proj2 (String.eqb_neq _ _) Hid).
    assert ((0 <? Z.of_nat (List.length (rrr.Results r))) = true) as ->
      by (by destruct (rrr.Results r)).
    destruct (Write1 store1 (records1 r)) as [store' [t|]]; [|done].
    cbn in Hw. injection Hw as ->.
    destruct (Update (TrackerFiles s) (at_file (now n)) _ _ _ _)
      as [files' [c|e]];
      [destruct (c =? KeyCodeComplete);
       [destruct (Update (TrackerCommits s) (at_commit (now n)) _ _ _ _)
          as [commits' [c'|e']]|]|];
      done.
  - split_and!.
    + cbn [processResponses].
      pose proof (process_response_ignores_the_store Result R1 R2 S1 S2
                    records1 Write1 records2 Write2 (now n) s store1 store2 r)
        as Hstep.
      destruct (processResponse Result R1 S1 records1 Write1 (now n) s store1 r)
        as [[s1 st1] e1].
      destruct (processResponse Result R2 S2 records2 Write2 (now n) s store2 r)
        as [[s2 st2] e2].
      cbn [fst snd] in Hstep. subst s2.
      destruct (IH (S n) s1 st1 st2) as (Hrest & _).
      destruct (processResponses Result R1 S1 records1 Write1 now (S n) s1 st1
                  rest) as [[? ?] ?].
      by destruct (processResponses Result R2 S2 records2 Write2 now (S n) s1
                     st2 rest) as [[? ?] ?].
    + intros Hquiet. cbn [processResponses].
      assert ((processResponse Result R1 S1 records1 Write1 (now n) s store1
                 r).1.2 = store1) as Hstore.
      { unfold processResponse.
        destruct (Hquiet r (list_elem_of_here _ _)) as [-> | ->]; [done|].
        destruct (String.eqb (rrr.ID (rrr.Response_Metadata r)) ""); [done|].
        cbn.
        destruct (Update (TrackerFiles s) (at_file (now n)) _ _ _ _)
          as [files' [c|e]];
          [destruct (c =? KeyCodeComplete);
           [destruct (Update (TrackerCommits s) (at_commit (now n)) _ _ _ _)
              as [commits' [c'|e']]|]|];
          done. }
      destruct (processResponse Result R1 S1 records1 Write1 (now n) s store1 r)
        as [[s1 st1] e1].
      cbn [fst snd] in Hstore. subst st1.
      destruct (IH (S n) s1 store1 store2) as (_ & Hrest & _).
      specialize (Hrest ltac:(intros r' Hin; by apply Hquiet,
                                list_elem_of_further)).
      by destruct (processResponses Result R1 S1 records1 Write1 now (S n) s1
                     store1 rest) as [[? ?] ?].
    + apply (IH n s store1 store2).
Qed.

(** ** A request from its creation to its response *)

Lemma new_request_id_nonempty now i req :
  rrr.NewRequest now i = (req, None) ->
  rrr.ID (rrr.Metadata req) <> ""
  /\ rrr.Text req = rrr.in_Text i
  /\ rrr.Object_ID (rrr.Object (rrr.Metadata req)) = rrr.in_ObjectID i.
Proof.
  unfold rrr.NewRequest.
  destruct (String.eqb (rrr.in_RepoID i) ""); [discriminate|].
  destruct (String.eqb (rrr.in_ObjectID i) ""); [discriminate|].
  destruct (String.eqb (rrr.in_CommitID i) ""); [discriminate|].
  destruct (String.eqb (rrr.in_Text i) ""); [discriminate|].
  intros [= <-].
  cbn [rrr.ID rrr.Metadata rrr.Text rrr.Object rrr.Object_ID].
  split; [|done].
  discriminate.
Qed.

Lemma process_response_requests (Result ResultRecord Store : Type)
    (records : rrr.Response Result -> list ResultRecord)
    (Write : Store -> list ResultRecord -> Store * option string)
    now s store r :
  rrr.ID (rrr.Response_Metadata r) <> "" ->
  TrackerRequests (processResponse Result ResultRecord Store records Write now
                     s store r).1.1
  = (Update (TrackerRequests s) (at_request now)
            (rrr.ID (rrr.Response_Metadata r)) KeyCodeComplete "" []).1.
Proof.
  intros Hid. unfold processResponse.
  rewrite (proj2 (String.eqb_neq _ _) Hid).
  destruct (0 <? Z.of_nat (List.length (rrr.Results r)));
    [destruct (Write store (records r)) as [? [?|]]|];
    (destruct (Update (TrackerFiles s) (at_file now) _ KeyCodeComplete "" _)
       as [files' [c|e]];
     [destruct (c =? KeyCodeComplete);
      [destruct (Update (TrackerCommits s) (at_commit now) _ KeyCodeComplete
                        "" _) as [commits' [c'|e']]|]|];
     done).
Qed.

(** X17.  A request from [NewRequest] to its response: [processRequest]
    sends a request that is not tracked yet on for detection, without
    error, and tracks it as PENDING; the [processResponse] of the
    [NewResponse] made from it turns it to COMPLETE, keeps the time it
    was first seen, leaves the other requests alone and, the response
    having no result, does not write to the store. *)
Theorem request_is_pending_until_its_response :
  forall (Result ResultRecord Store : Type)
         (records : rrr.Response Result -> list ResultRecord)
         (Write : Store -> list ResultRecord -> Store * option string)
         now i sent_at answered_at s store req,
    rrr.NewRequest now i = (req, None) ->
    Get (TrackerRequests s) (rrr.ID (rrr.Metadata req)) = None ->
    let p := processRequest sent_at (TrackerRequests s) req in
    let q :=
      processResponse Result ResultRecord Store records Write answered_at
        {| TrackerCommits := TrackerCommits s;
           TrackerFiles := TrackerFiles s;
           TrackerRequests := p.1.1 |}
        store (rrr.NewResponse req) in
    p.1.2 = [req] /\ p.2 = []
    /\ (exists d,
          Get p.1.1 (rrr.ID (rrr.Metadata req)) = Some d
          /\ Code d = KeyCodePending)
    /\ (exists d,
          Get (TrackerRequests q.1.1) (rrr.ID (rrr.Metadata req)) = Some d
          /\ Code d = KeyCodeComplete
          /\ TimestampFirst d = sent_at
          /\ TimestampLatest d = at_request answered_at)
    /\ (forall k, k <> rrr.ID (rrr.Metadata req) ->
        Get (TrackerRequests q.1.1) k = Get (TrackerRequests s) k)
    /\ q.1.2 = store.
Proof.
  intros Result ResultRecord Store records Write now i sent_at answered_at s
         store req Hnew Hfresh p q.
  destruct (new_request_id_nonempty now i req Hnew) as (Hid & _).
  set (d := {| Code := KeyCodePending; State := KeyStatePending;
               Message := ""; Children := ∅;
               TimestampFirst := sent_at; TimestampLatest := sent_at |}).
  assert (p = (set_key (TrackerRequests s) (rrr.ID (rrr.Metadata req)) d,
               [req], [])) as Hp.
  { subst p. rewrite process_request_cases.
    rewrite (proj2 (String.eqb_neq _ _) Hid).
    unfold Get in Hfresh. by rewrite Hfresh. }
  assert (TrackerRequests q.1.1
          = set_key (set_key (TrackerRequests s) (rrr.ID (rrr.Metadata req)) d)
              (rrr.ID (rrr.Metadata req))
              {| Code := KeyCodeComplete; State := KeyStateComplete;
                 Message := ""; Children := ∅;
                 TimestampFirst := sent_at;
                 TimestampLatest := at_request answered_at |}) as Hq.
  { subst q. rewrite process_response_requests by exact Hid.
    rewrite Hp. cbn [fst snd TrackerRequests rrr.NewResponse
                     rrr.Response_Metadata].
    by rewrite (update_adopts _ (at_request answered_at) _ d KeyCodeComplete ""
                  [] Hid eq_refl (lookup_set_key _ _ _) ltac:(done)
                  (or_intror eq_refl)). }
  rewrite Hq, Hp. cbn [fst snd]. unfold Get. split_and!; try done.
  - exists d. by rewrite lookup_set_key.
  - eexists. by rewrite lookup_set_key.
  - intros k Hk. by rewrite !lookup_set_key_ne.
  - subst q. unfold processResponse. cbn [rrr.NewResponse rrr.Results
                                          rrr.Response_Metadata List.length].
    rewrite (proj2 (String.eqb_neq _ _) Hid). cbn [Z.of_nat Z.ltb Z.compare].
    destruct (Update (TrackerFiles _) (at_file answered_at) _ KeyCodeComplete
                     "" _) as [files' [c|e]];
      [destruct (c =? KeyCodeComplete);
       [destruct (Update (TrackerCommits _) (at_commit answered_at) _
                         KeyCodeComplete "" _) as [commits' [c'|e']]|]|];
      done.
Qed.

Lemma request_is_pending_until_its_response_witness :
  let req :=
    (rrr.NewRequest 5
       {| rrr.in_CommitID := "test-commit"; rrr.in_Length := 9;
          rrr.in_ObjectID := "test-object"; rrr.in_Offset := 0;
          rrr.in_RepoID := "test-repo"; rrr.in_Text := "test-text" |}).1 in
  let p := processRequest 6 (TrackerRequests example_scanner) req in
  let q :=
    processResponse string string (list string) example_records example_write
      example_readings
      {| TrackerCommits := TrackerCommits example_scanner;
         TrackerFiles := TrackerFiles example_scanner;
         TrackerRequests := p.1.1 |}
      [] (rrr.NewResponse req) in
  p.1.2 = [req] /\ p.2 = []
  /\ (exists d,
        Get p.1.1 (rrr.ID (rrr.Metadata req)) = Some d
        /\ Code d = KeyCodePending)
  /\ (exists d,
        Get (TrackerRequests q.1.1) (rrr.ID (rrr.Metadata req)) = Some d
        /\ Code d = KeyCodeComplete
        /\ TimestampFirst d = 6
        /\ TimestampLatest d = at_request example_readings)
  /\ (forall k, k <> rrr.ID (rrr.Metadata req) ->
      Get (TrackerRequests q.1.1) k = Get (TrackerRequests example_scanner) k)
  /\ q.1.2 = [].
Proof.
  intros req.
  apply (request_is_pending_until_its_response string string (list string)
           example_records example_write 5
           {| rrr.in_CommitID := "test-commit"; rrr.in_Length := 9;
              rrr.in_ObjectID := "test-object"; rrr.in_Offset := 0;
              rrr.in_RepoID := "test-repo"; rrr.in_Text := "test-text" |}
           6 example_readings example_scanner [] req).
  - reflexivity.
  - vm_compute. reflexivity.
Defined.

(** ** Identifiers of requests *)

(** X18.  The identifier of a request does not keep its fields apart: the
    four inputs are joined without escaping, so text moved across the
    boundary between the object and the text gives the same identifier
    for two requests with different texts.  [processRequests] then takes
    the second for a repetition of the first and does not send it on. *)
Theorem request_ids_collide_across_fields :
  forall now now' repo commit object x text length length' offset offset',
    repo <> "" -> commit <> "" -> object <> "" -> text <> "" ->
    let a :=
      rrr.NewRequest now
        {| rrr.in_CommitID := commit; rrr.in_Length := length;
           rrr.in_ObjectID := object +:+ rrr.ResultSeparatorUID +:+ x;
           rrr.in_Offset := offset; rrr.in_RepoID := repo;
           rrr.in_Text := text |} in
    let b :=
      rrr.NewRequest now'
        {| rrr.in_CommitID := commit; rrr.in_Length := length';
           rrr.in_ObjectID := object; rrr.in_Offset := offset';
           rrr.in_RepoID := repo;
           rrr.in_Text := x +:+ rrr.ResultSeparatorUID +:+ text |} in
    a.2 = None /\ b.2 = None
    /\ rrr.ID (rrr.Metadata a.1) = rrr.ID (rrr.Metadata b.1)
    /\ rrr.Text a.1 <> rrr.Text b.1
    /\ (forall clock n requests,
          Get requests (rrr.ID (rrr.Metadata a.1)) = None ->
          (processRequests clock n requests [a.1; b.1]).1.2 = [a.1]).
Proof.
  intros now now' repo commit object x text length length' offset offset'
         Hrepo Hcommit Hobject Htext a b.
  assert (object +:+ rrr.ResultSeparatorUID +:+ x <> "") as Hobject'
    by (by destruct object).
  assert (x +:+ rrr.ResultSeparatorUID +:+ text <> "") as Htext'
    by (by destruct x).
  subst a b.
  rewrite (RequestFacts.new_request_ok now
             {| rrr.in_CommitID := commit; rrr.in_Length := length;
                rrr.in_ObjectID := object +:+ rrr.ResultSeparatorUID +:+ x;
                rrr.in_Offset := offset; rrr.in_RepoID := repo;
                rrr.in_Text := text |} Hrepo Hcommit Hobject' Htext).
  rewrite (RequestFacts.new_request_ok now'
             {| rrr.in_CommitID := commit; rrr.in_Length := length';
                rrr.in_ObjectID := object; rrr.in_Offset := offset';
                rrr.in_RepoID := repo;
                rrr.in_Text := x +:+ rrr.ResultSeparatorUID +:+ text |}
             Hrepo Hcommit Hobject Htext').
  cbn [fst snd rrr.in_RepoID rrr.in_CommitID rrr.in_ObjectID rrr.in_Text
       rrr.in_Length rrr.in_Offset rrr.Metadata rrr.ID rrr.Text].
  assert (rrr.fingerprint repo commit
            (object +:+ rrr.ResultSeparatorUID +:+ x) text
          = rrr.fingerprint repo commit object
              (x +:+ rrr.ResultSeparatorUID +:+ text)) as Hsame.
  { unfold rrr.fingerprint. cbn [rrr.Join].
    by rewrite !CheckpointStoreFacts.app_assoc. }
  split; [done|]. split; [done|]. split; [exact Hsame|]. split.
  - intros E. apply (f_equal String.length) in E.
    rewrite !CheckpointStoreFacts.length_app in E. cbn in E. lia.
  - intros clock n requests Hfresh. cbn [processRequests].
    rewrite !process_request_cases.
    cbn [rrr.Metadata rrr.ID]. unfold Get in Hfresh.
    assert (rrr.fingerprint repo commit
              (object +:+ rrr.ResultSeparatorUID +:+ x) text <> "") as Hid.
    { intros E. apply (f_equal String.length) in E. unfold rrr.fingerprint in E.
      by rewrite RequestFacts.encode_length, RequestFacts.sha1_Sum_length in E. }
    rewrite <- Hsame, (proj2 (String.eqb_neq _ _) Hid), Hfresh.
    rewrite process_request_cases. cbn [rrr.Metadata rrr.ID].
    by rewrite (proj2 (String.eqb_neq _ _) Hid), lookup_set_key.
Qed.

Lemma request_ids_collide_across_fields_witness :
  let a :=
    rrr.NewRequest 1
      {| rrr.in_CommitID := "c1"; rrr.in_Length := 6;
         rrr.in_ObjectID := "o1" +:+ rrr.ResultSeparatorUID +:+ "key";
         rrr.in_Offset := 0; rrr.in_RepoID := "r1";
         rrr.in_Text := "secret" |} in
  let b :=
    rrr.NewRequest 2
      {| rrr.in_CommitID := "c1"; rrr.in_Length := 11;
         rrr.in_ObjectID := "o1"; rrr.in_Offset := 0;
         rrr.in_RepoID := "r1";
         rrr.in_Text := "key" +:+ rrr.ResultSeparatorUID +:+ "secret" |} in
  a.2 = None /\ b.2 = None
  /\ rrr.ID (rrr.Metadata a.1) = rrr.ID (rrr.Metadata b.1)
  /\ rrr.Text a.1 <> rrr.Text b.1
  /\ (forall clock n requests,
        Get requests (rrr.ID (rrr.Metadata a.1)) = None ->
        (processRequests clock n requests [a.1; b.1]).1.2 = [a.1]).
Proof.
  apply (request_ids_collide_across_fields 1 2 "r1" "c1" "o1" "key" "secret"
           6 11 0 0); discriminate.
Defined.

(** ** The progress tracker *)

(** X19.  One tick of the progress tracker.  The scan is declared done,
    and the quit channel closed, exactly when the walk of the repository
    has ended and, after the reconciler has run, every key of the three
    trackers is COMPLETE or ERROR.  Until then the file system is not
    touched, and before the walk has ended neither are the trackers.
    When the scan is done the checkpoint of the repository is gone. *)
Theorem track_scan_counts_done :
  forall env r work_dir url is_scan_complete s fs,
    let out := trackScanCounts env r work_dir url is_scan_complete s fs in
    (out.2 = true
     <-> is_scan_complete = true
         /\ forall kt,
              kt ∈ [TrackerFiles (reconcilePending r s);
                    TrackerCommits (reconcilePending r s);
                    TrackerRequests (reconcilePending r s)] ->
              forall key d, Get kt key = Some d ->
                Code d = KeyCodeComplete \/ Code d = KeyCodeError)
    /\ (out.2 = false -> out.1.2 = fs)
    /\ (is_scan_complete = false -> out.1.1 = s)
    /\ (is_scan_complete = true -> out.1.1 = reconcilePending r s)
    /\ (out.2 = true ->
        forall path,
          getCheckpointPath env work_dir url "" = Ok path ->
          fs_files out.1.2 !! path = None
          /\ forall p, p <> path -> fs_files out.1.2 !! p = fs_files fs !! p).
Proof.
  intros env r work_dir url is_scan_complete s fs out. subst out.
  unfold trackScanCounts.
  destruct is_scan_complete; cbn [negb].
  2:{ split_and!; try done. by split; [|intros [? _]]. }
  pose proof (check_all_complete_true (TrackerFiles (reconcilePending r s)))
    as Hfiles.
  pose proof (check_all_complete_true (TrackerCommits (reconcilePending r s)))
    as Hcommits.
  pose proof (check_all_complete_true (TrackerRequests (reconcilePending r s)))
    as Hrequests.
  assert ((forall kt,
             kt ∈ [TrackerFiles (reconcilePending r s);
                   TrackerCommits (reconcilePending r s);
                   TrackerRequests (reconcilePending r s)] ->
             forall key d, Get kt key = Some d ->
               Code d = KeyCodeComplete \/ Code d = KeyCodeError)
          <-> CheckAllComplete (TrackerFiles (reconcilePending r s)) = true
              /\ CheckAllComplete (TrackerCommits (reconcilePending r s)) = true
              /\ CheckAllComplete (TrackerRequests (reconcilePending r s))
                 = true) as Hall.
  { rewrite Hfiles, Hcommits, Hrequests. split.
    - intros H. split_and!; intros key d; apply H;
        [apply list_elem_of_here
        |apply list_elem_of_further, list_elem_of_here
        |do 2 apply list_elem_of_further; apply list_elem_of_here].
    - intros (Hf & Hc & Hr) kt
        [->|[->|[->|[]%elem_of_nil]%elem_of_cons]%elem_of_cons]%elem_of_cons;
        done. }
  rewrite Hall.
  destruct (CheckAllComplete (TrackerFiles (reconcilePending r s)));
    cbn [negb]; [|split_and!; try done; by split; [|intros [_ [? _]]]].
  destruct (CheckAllComplete (TrackerCommits (reconcilePending r s)));
    cbn [negb]; [|split_and!; try done; by split; [|intros [_ [_ [? _]]]]].
  destruct (CheckAllComplete (TrackerRequests (reconcilePending r s)));
    cbn [negb]; [|split_and!; try done; by split; [|intros [_ [_ [_ ?]]]]].
  cbn [fst snd]. split_and!; try done.
  intros _ path Hpath. split; [by apply CheckpointStoreFacts.checkpoint_delete_gone|].
  intros p Hp. unfold CheckpointDelete. rewrite Hpath.
  destruct (String.eqb path ""); [done|]. unfold Remove.
  destruct (fs_files fs !! path) eqn:Hfile; cbn [fst fs_files].
  - by apply lookup_delete_ne.
  - destruct (bool_decide (path ∈ fs_dirs fs)); [|done].
    by destruct (dir_entries fs path).
Qed.

Lemma track_scan_counts_done_witness :
  let url := "git@github.com:BlackIQ/learn.git" in
  let path :=
    "/tmp/no-phi-ai/test/pkg/scanner/checkpoints/BlackIQ_learn.checkpoint" in
  let fs :=
    {| fs_files := {[ path := "e30=" ]}; fs_dirs := fs_dirs example_fs_prepared |}
  in
  let out :=
    trackScanCounts example_env example_run example_work_dir url true
      example_scanner fs in
  out.2 = true
  /\ fs_files out.1.2 !! path = None
  /\ forall p, p <> path -> fs_files out.1.2 !! p = fs_files fs !! p.
Proof.
  intros url path fs out.
  assert (out.2 = true) as Hdone by (vm_compute; reflexivity).
  split; [exact Hdone|].
  apply (proj2 (proj2 (proj2 (proj2
           (track_scan_counts_done example_env example_run example_work_dir
              url true example_scanner fs)))) Hdone path).
  reflexivity.
Defined.

(** ** The walk of the repository *)

Lemma filter_walk_commits (commits : list string) :
  List.filter is_walk (List.map EvScanCommit commits)
  = List.map EvScanCommit commits.
Proof. induction commits as [|c cs IH]; [done|]. cbn. by rewrite IH. Qed.

(** X20.  [scanRepository] closes [done] on every path, the two panics
    included, and it is the last thing it does.  The scan is marked
    complete exactly when there is an errors channel and [CommitObjects]
    has handed out an iterator; the call returns, rather than panics,
    exactly when the channel and the repository are there. *)
Theorem scan_repository_always_closes_done :
  forall repo_url repository errors_out,
    let out := scanRepository repo_url repository errors_out in
    last out.1 = Some EvCloseDone
    /\ (In EvSetScanComplete out.1
        <-> errors_out <> None
            /\ exists r it, repository = Some r /\ commit_objects r = Ok it)
    /\ (out.2 = Returned <-> errors_out <> None /\ repository <> None).
Proof.
  intros repo_url repository [[]|]; cbn.
  2:{ split; [done|]. split; (split; [|by intros [? _]]); [|done].
      intros [H|[]]. discriminate H. }
  destruct repository as [[[it|e]]|]; cbn.
  - split.
    { change [EvCloseChanCommits; EvWaitProcessCommits; EvSetScanComplete;
              EvCloseDone]
        with ([EvCloseChanCommits; EvWaitProcessCommits; EvSetScanComplete]
              ++ [EvCloseDone])%list.
      rewrite app_comm_cons, !List.app_assoc. apply last_snoc. }
    split.
    + split; [intros _; split; [done|by exists (mkRepository (Ok it)), it]|].
      intros _. do 3 right. apply in_or_app. right. apply in_or_app. right.
      cbn. tauto.
    + done.
  - split; [done|]. split; [|done]. split.
    + intros [H|[H|[H|[]]]]; discriminate H.
    + by intros [_ (r & it & [= <-] & H)].
  - split; [done|]. split; split.
    + intros [H|[H|[H|[H|[]]]]]; discriminate H.
    + by intros [_ (r & it & H & _)].
    + done.
    + by intros [_ ?].
Qed.

(** X21.  With an iterator at hand [scanRepository] calls [scanCommit] on
    the commits in the order of the iterator, and marks the scan complete
    even when the iteration has failed: the failure is sent on the errors
    channel, wrapped with the URL of the repository, and nothing else is
    sent.  When [CommitObjects] fails, its error is dropped: nothing is
    sent on the errors channel, no commit is walked and the call returns
    with the scan not marked complete. *)
Theorem scan_repository_walks_in_order :
  forall repo_url,
    (forall it,
       let out :=
         scanRepository repo_url (Some (mkRepository (Ok it))) (Some ()) in
       List.filter is_walk out.1 = List.map EvScanCommit (iter_commits it)
       /\ In EvSetScanComplete out.1
       /\ (forall e,
             In (EvSendError e) out.1
             <-> exists cause,
                   iter_error it = Some cause
                   /\ e = Wrap cause
                            ("failed to iterate through commits in repository "
                             +:+ repo_url)))
    /\ (forall e,
          let out :=
            scanRepository repo_url (Some (mkRepository (Err e))) (Some ()) in
          out.2 = Returned
          /\ List.filter is_walk out.1 = []
          /\ ~ In EvSetScanComplete out.1
          /\ forall e', ~ In (EvSendError e') out.1).
Proof.
  intros repo_url. split.
  - intros it out. subst out. cbn. split; [|split].
    + rewrite List.filter_app, filter_walk_commits.
      rewrite List.filter_app.
      assert (forall l, List.filter is_walk
                (match iter_error it with
                 | Some e => [EvSendError (Wrap e l)]
                 | None => []
                 end) = []) as -> by (intros l; by destruct (iter_error it)).
      cbn. by rewrite List.app_nil_r.
    + do 3 right. apply in_or_app. right. apply in_or_app. right.
      cbn. tauto.
    + intros e. split.
      * intros [H|[H|[H|H]]]; try discriminate H.
        apply in_app_or in H as [H|H].
        { apply in_map_iff in H as (c & H & _). discriminate H. }
        apply in_app_or in H as [H|H].
        { destruct (iter_error it) as [cause|]; [|done].
          destruct H as [[= <-]|[]]. by exists cause. }
        destruct H as [H|[H|[H|[H|[]]]]]; discriminate H.
      * intros (cause & Hcause & ->). do 3 right.
        apply in_or_app. right. apply in_or_app. left.
        rewrite Hcause. by left.
  - intros e out. subst out. cbn. split; [done|]. split; [done|]. split.
    + intros [H|[H|[H|[]]]]; discriminate H.
    + intros e' [H|[H|[H|[]]]]; discriminate H.
Qed.

End PipelineFacts.

(** * What one run of the reconciler does *)

Module ReconcileEffectFacts.

Import tracker scanner TrackerFacts.

(** What [Update] does to a key depends on the data of this key alone. *)
Lemma update_local kt1 kt2 now key code message child_keys :
  Keys kt1 !! key = Keys kt2 !! key ->
  Keys (Update kt1 now key code message child_keys).1 !! key
  = Keys (Update kt2 now key code message child_keys).1 !! key.
Proof.
  intros H. unfold Update, NewKeyData.
  destruct (String.eqb key ""); [done|].
  destruct (KeyCodeValidate code); [done|].
  rewrite H. destruct (Keys kt2 !! key) as [d|].
  - destruct (Code d =? KeyCodeComplete);
      [|destruct ((code =? KeyCodeComplete) && _)];
      cbn [fst]; by rewrite !lookup_set_key.
  - cbn [fst]. by rewrite !lookup_set_key.
Qed.

Section OneLevel.

Variable children_tracker : KeyTracker.
Variable r : Run.
Variable now : string -> Z.
Hypothesis r_ranges : run_ranges_maps r.

Lemma reconcile_key_other parents key d key' :
  key <> key' ->
  Keys (reconcile_key r now children_tracker parents (key, d)) !! key'
  = Keys parents !! key'.
Proof.
  intros Hne. unfold reconcile_key. cbn [fst snd].
  destruct (0 <? _); [|done]. by apply update_other.
Qed.

Lemma reconcile_key_local parents1 parents2 key d :
  Keys parents1 !! key = Keys parents2 !! key ->
  Keys (reconcile_key r now children_tracker parents1 (key, d)) !! key
  = Keys (reconcile_key r now children_tracker parents2 (key, d)) !! key.
Proof.
  intros H. unfold reconcile_key. cbn [fst snd].
  destruct (0 <? _); [|done]. by apply update_local.
Qed.

(** The step of the outer loop on a key that is not complete: the
    children that can be promoted are flagged, and the key is COMPLETE
    when no child is left open, PENDING otherwise; without a child to
    promote nothing is done. *)
Lemma reconcile_key_effect parents key d :
  key <> "" -> Keys parents !! key = Some d -> Code d <> KeyCodeComplete ->
  exists d',
    Keys (reconcile_key r now children_tracker parents (key, d)) !! key
    = Some d'
    /\ (forall c, promotable children_tracker (Children d) c ->
        Children d' !! c = Some true)
    /\ (forall c, ~ promotable children_tracker (Children d) c ->
        Children d' !! c = Children d !! c)
    /\ ((forall c, ~ promotable children_tracker (Children d) c) -> d' = d)
    /\ ((exists c, promotable children_tracker (Children d) c) ->
        (Code d' = KeyCodeComplete
         <-> forall c, Children d !! c = Some false ->
               promotable children_tracker (Children d) c)
        /\ (Code d' = KeyCodeComplete \/ Code d' = KeyCodePending)).
Proof.
  intros Hkey Hd Hcode. unfold reconcile_key. cbn [fst snd].
  pose proof (ReconcileFacts.collected_promotable children_tracker r r_ranges
                (Children d)) as Hcomplete.
  revert Hcomplete.
  destruct (foldl (collect_complete children_tracker) []
              (range_children r (Children d))) as [|c0 cs]; intros Hcomplete.
  - exists d. split; [done|]. split_and!; try done.
    + intros c Hc. apply Hcomplete in Hc. by apply elem_of_nil in Hc.
    + intros [c Hc]. apply Hcomplete in Hc. by apply elem_of_nil in Hc.
  - change (0 <? Z.of_nat (List.length (c0 :: cs))) with true. cbv iota.
    destruct (PipelineFacts.update_complete_tracked parents (now key) key d ""
                (c0 :: cs) Hkey Hd) as (d' & -> & Hchildren & Hcode').
    rewrite (proj2 (Z.eqb_neq _ _) Hcode) in Hcode'. cbn [orb] in Hcode'.
    exists d'. cbn [fst]. split; [apply lookup_set_key|].
    assert (forall c, Children d' !! c
                      = if decide (c ∈ c0 :: cs) then Some true
                        else Children d !! c) as Hlookup
      by (intros c; rewrite Hchildren; apply merge_children_complete_lookup).
    split_and!.
    + intros c Hc. rewrite Hlookup, decide_True; [done|by apply Hcomplete].
    + intros c Hc. rewrite Hlookup, decide_False; [done|].
      intros Hin. by apply Hc, Hcomplete.
    + intros Hnone. exfalso. apply (Hnone c0), Hcomplete, list_elem_of_here.
    + intros _. split.
      * rewrite Hcode'. rewrite <- Hchildren.
        destruct (children_complete (Children d')) eqn:Hall.
        -- split; [|done]. intros _ c Hc. apply Hcomplete.
           destruct (decide (c ∈ c0 :: cs)) as [|Hout]; [done|].
           pose proof (proj1 (children_complete_true _) Hall c false) as H.
           rewrite Hlookup, decide_False, Hc in H by done. by specialize (H eq_refl).
        -- split; [done|]. intros Hopen.
           apply children_complete_false in Hall as [c Hc].
           rewrite Hlookup in Hc.
           destruct (decide (c ∈ c0 :: cs)) as [|Hout]; [done|].
           by destruct (Hout (proj2 (Hcomplete c) (Hopen c Hc))).
      * rewrite Hcode'.
        destruct (children_complete
                    (merge_children KeyCodeComplete (c0 :: cs) (Children d)));
          [by left|by right].
Qed.

(** The outer loop over keys that are tracked and not complete: each key
    of the loop ends as its own step leaves it, the other keys are not
    touched. *)
Lemma reconcile_fold_effect (l : list (string * KeyData)) :
  forall parents,
    NoDup l.*1 ->
    (forall key d, (key, d) ∈ l -> Keys parents !! key = Some d) ->
    (forall key, key ∉ l.*1 ->
       Keys (foldl (reconcile_key r now children_tracker) parents l) !! key
       = Keys parents !! key)
    /\ (forall key d, (key, d) ∈ l ->
          Keys (foldl (reconcile_key r now children_tracker) parents l) !! key
          = Keys (reconcile_key r now children_tracker parents (key, d))
              !! key).
Proof.
  induction l as [|[k0 d0] l IH]; intros parents Hnd Hl.
  - split; [done|]. by intros key d ?%elem_of_nil.
  - cbn [fmap list_fmap fst] in Hnd. apply NoDup_cons in Hnd as [Hk0 Hnd].
    set (parents1 := reconcile_key r now children_tracker parents (k0, d0)).
    assert (forall key d, (key, d) ∈ l -> Keys parents1 !! key = Some d) as Hl1.
    { intros key d Hin. subst parents1. rewrite reconcile_key_other.
      - by apply Hl, list_elem_of_further.
      - intros ->. apply Hk0. apply list_elem_of_fmap. by exists (key, d). }
    destruct (IH parents1 Hnd Hl1) as [Hout Hin]. cbn [foldl]. fold parents1.
    split.
    + intros key Hkey. cbn [fmap list_fmap fst] in Hkey.
      apply not_elem_of_cons in Hkey as [Hne Hkey].
      rewrite (Hout key Hkey). subst parents1. by apply reconcile_key_other.
    + intros key d [[= -> ->]|Hmem]%elem_of_cons.
      * by rewrite (Hout k0 Hk0).
      * rewrite (Hin key d Hmem). apply reconcile_key_local.
        subst parents1. apply reconcile_key_other.
        intros ->. apply Hk0. apply list_elem_of_fmap. by exists (key, d).
Qed.

(** One level of the reconciler, key by key. *)
Lemma reconcile_keys_effect (parents : KeyTracker) (key : string) :
  Keys (reconcile_keys r now children_tracker parents
          (filter (fun kd => Code kd.2 = KeyCodePending) (Keys parents)))
    !! key
  = match Keys parents !! key with
    | Some d =>
        if Code d =? KeyCodePending then
          Keys (reconcile_key r now children_tracker parents (key, d)) !! key
        else Some d
    | None => None
    end.
Proof.
  unfold reconcile_keys.
  set (pending := filter (fun kd => Code kd.2 = KeyCodePending) (Keys parents)).
  destruct r_ranges as [Hkeys _].
  assert (NoDup (range_keys r pending).*1) as Hnd.
  { rewrite (Hkeys pending). apply NoDup_fst_map_to_list. }
  assert (forall k d, (k, d) ∈ range_keys r pending
                      <-> Keys parents !! k = Some d /\ Code d = KeyCodePending)
    as Hmem.
  { intros k d. rewrite (Hkeys pending), elem_of_map_to_list.
    apply ReconcileFacts.pending_lookup. }
  destruct (reconcile_fold_effect (range_keys r pending) parents Hnd)
    as [Hout Hin]; [intros k d Hk; by apply Hmem in Hk as [? _]|].
  destruct (Keys parents !! key) as [d|] eqn:Hd.
  - destruct (Z.eqb_spec (Code d) KeyCodePending) as [Hc|Hc].
    + apply Hin, Hmem. by rewrite Hd.
    + rewrite Hout, Hd; [done|].
      intros ([k d'] & -> & Hk)%list_elem_of_fmap. cbn [fst] in Hd.
      apply Hmem in Hk as [Hd' Hc']. congruence.
  - rewrite Hout, Hd; [done|].
    intros ([k d'] & -> & Hk)%list_elem_of_fmap. cbn [fst] in Hd.
    apply Hmem in Hk as [Hd' _]. congruence.
Qed.

(** Either a child of the key can be promoted or none can. *)
Lemma promotable_or_not (children : gmap string bool) :
  (exists c, promotable children_tracker children c)
  \/ (forall c, ~ promotable children_tracker children c).
Proof.
  pose proof (ReconcileFacts.collected_promotable children_tracker r r_ranges
                children) as Hcomplete.
  destruct (foldl (collect_complete children_tracker) []
              (range_children r children)) as [|c0 cs].
  - right. intros c Hc. apply Hcomplete in Hc. by apply elem_of_nil in Hc.
  - left. exists c0. apply Hcomplete, list_elem_of_here.
Qed.

(** One level of the reconciler on a pending key. *)
Lemma reconcile_keys_pending_key (parents : KeyTracker) key d :
  key <> "" -> Keys parents !! key = Some d -> Code d = KeyCodePending ->
  exists d',
    Keys (reconcile_keys r now children_tracker parents
            (filter (fun kd => Code kd.2 = KeyCodePending) (Keys parents)))
      !! key = Some d'
    /\ (Code d' = KeyCodeComplete \/ Code d' = KeyCodePending)
    /\ (Code d' = KeyCodeComplete
        <-> (exists c, promotable children_tracker (Children d) c)
            /\ forall c, Children d !! c = Some false ->
                  promotable children_tracker (Children d) c)
    /\ ((forall c, ~ promotable children_tracker (Children d) c) -> d' = d)
    /\ (forall c, promotable children_tracker (Children d) c ->
        Children d' !! c = Some true)
    /\ (forall c, ~ promotable children_tracker (Children d) c ->
        Children d' !! c = Children d !! c).
Proof.
  intros Hkey Hd Hcode.
  assert (Code d <> KeyCodeComplete) as Hopen by (by rewrite Hcode).
  destruct (reconcile_key_effect parents key d Hkey Hd Hopen)
    as (d' & Hd' & Htrue & Hsame & Hquiet & Hstep).
  exists d'. rewrite reconcile_keys_effect, Hd, Hcode. cbn [Z.eqb Pos.eqb].
  split; [exact Hd'|].
  destruct (promotable_or_not (Children d)) as [Hsome|Hnone].
  - destruct (Hstep Hsome) as [Hiff Hcases]. split_and!; try done.
    rewrite Hiff. split; [by split|by intros [_ ?]].
  - rewrite (Hquiet Hnone) in *. split_and!; try done.
    + by right.
    + split; [by rewrite Hcode|]. intros [[c Hc] _]. by destruct (Hnone c).
Qed.

(** One level of the reconciler on the other keys. *)
Lemma reconcile_keys_other_key (parents : KeyTracker) key :
  (forall d, Keys parents !! key = Some d ->
     Code d <> KeyCodePending \/ key = "") ->
  Keys (reconcile_keys r now children_tracker parents
          (filter (fun kd => Code kd.2 = KeyCodePending) (Keys parents)))
    !! key
  = Keys parents !! key.
Proof.
  intros H. rewrite reconcile_keys_effect.
  destruct (Keys parents !! key) as [d|] eqn:Hd; [|done].
  destruct (Z.eqb_spec (Code d) KeyCodePending) as [Hc|Hc]; [|done].
  destruct (H d eq_refl) as [?| ->]; [done|].
  unfold reconcile_key. cbn [fst snd]. destruct (0 <? _); [|done].
  by rewrite update_empty_key.
Qed.

End OneLevel.

(** X22.  The reconciler only moves keys forward.  It does not touch the
    tracker of the requests; among the files and the commits it adds and
    removes no key and leaves every key that is not PENDING as it is; a
    PENDING key stays PENDING or becomes COMPLETE, keeps its children
    and none of their flags goes back to open. *)
Theorem reconcile_pending_only_moves_forward :
  forall (r : Run) (s : Scanner),
    run_ranges_maps r ->
    let s' := reconcilePending r s in
    TrackerRequests s' = TrackerRequests s
    /\ (forall level : Scanner -> KeyTracker,
          level = TrackerFiles \/ level = TrackerCommits ->
          forall key,
            match Get (level s) key with
            | None => Get (level s') key = None
            | Some d =>
                exists d',
                  Get (level s') key = Some d'
                  /\ (Code d <> KeyCodePending -> d' = d)
                  /\ (Code d' = Code d \/ Code d' = KeyCodeComplete)
                  /\ (forall c,
                        Children d !! c = Some true ->
                        Children d' !! c = Some true)
                  /\ (forall c,
                        is_Some (Children d' !! c)
                        <-> is_Some (Children d !! c))
            end).
Proof.
  intros r s Hr s'.
  assert (forall children_tracker now parents key,
            match Keys parents !! key with
            | None =>
                Keys (reconcile_keys r now children_tracker parents
                        (filter (fun kd => Code kd.2 = KeyCodePending)
                                (Keys parents))) !! key = None
            | Some d =>
                exists d',
                  Keys (reconcile_keys r now children_tracker parents
                          (filter (fun kd => Code kd.2 = KeyCodePending)
                                  (Keys parents))) !! key = Some d'
                  /\ (Code d <> KeyCodePending -> d' = d)
                  /\ (Code d' = Code d \/ Code d' = KeyCodeComplete)
                  /\ (forall c,
                        Children d !! c = Some true ->
                        Children d' !! c = Some true)
                  /\ (forall c,
                        is_Some (Children d' !! c)
                        <-> is_Some (Children d !! c))
            end) as Hlevel.
  { intros children_tracker now parents key.
    destruct (Keys parents !! key) as [d|] eqn:Hd.
    2:{ rewrite reconcile_keys_other_key; [done|done|]. intros d. by rewrite Hd. }
    destruct (decide (Code d = KeyCodePending /\ key <> "")) as [[Hc Hk]|Hno].
    - destruct (reconcile_keys_pending_key children_tracker r now Hr parents
                  key d Hk Hd Hc)
        as (d' & Hd' & Hcases & _ & _ & Htrue & Hsame).
      exists d'. split; [done|]. split; [done|]. split_and!.
      + rewrite Hc. destruct Hcases; [by right|by left].
      + intros c Hc'.
        destruct (promotable_or_not children_tracker r Hr (Children d))
          as [_|Hnone]; [|by rewrite (Hsame c (Hnone c))].
        rewrite Hsame; [done|]. intros [Hopen _]. congruence.
      + intros c. destruct (Children d !! c) as [[|]|] eqn:Hc'.
        * rewrite Hsame, Hc'; [done|]. intros [Hopen _]. congruence.
        * assert (is_Some (Children d' !! c)) as Hsome; [|done].
          destruct (Children d' !! c) eqn:E; [done|].
          assert (~ promotable children_tracker (Children d) c) as Hn
            by (intros Hp; by rewrite (Htrue c Hp) in E).
          rewrite (Hsame c Hn), Hc' in E. done.
        * rewrite Hsame, Hc'; [done|]. intros [Hopen _]. congruence.
    - exists d. rewrite reconcile_keys_other_key; [|done|].
      + split; [by rewrite Hd|]. split; [done|]. split; [by left|done].
      + intros d0. rewrite Hd. intros [= <-].
        destruct (decide (Code d = KeyCodePending)); [|by left].
        destruct (decide (key = "")); [by right|]. by destruct Hno. }
  subst s'. unfold reconcilePending.
  rewrite !ReconcileFacts.pending_is_valid.
  cbn [TrackerFiles TrackerCommits TrackerRequests]. split; [done|].
  intros level [-> | ->] key; cbn [TrackerFiles TrackerCommits]; unfold Get;
    apply Hlevel.
Qed.

Lemma reconcile_pending_only_moves_forward_witness :
  let s' := reconcilePending example_run example_scanner in
  TrackerRequests s' = TrackerRequests example_scanner
  /\ (forall level : Scanner -> KeyTracker,
        level = TrackerFiles \/ level = TrackerCommits ->
        forall key,
          match Get (level example_scanner) key with
          | None => Get (level s') key = None
          | Some d =>
              exists d',
                Get (level s') key = Some d'
                /\ (Code d <> KeyCodePending -> d' = d)
                /\ (Code d' = Code d \/ Code d' = KeyCodeComplete)
                /\ (forall c,
                      Children d !! c = Some true ->
                      Children d' !! c = Some true)
                /\ (forall c,
                      is_Some (Children d' !! c)
                      <-> is_Some (Children d !! c))
          end).
Proof.
  apply (reconcile_pending_only_moves_forward example_run example_scanner).
  split; intros m; reflexivity.
Defined.

(** X23.  What one run of the reconciler does to a PENDING file: the
    file becomes COMPLETE exactly when at least one of its open children
    is a request that is COMPLETE and every open child is such a request;
    the children that are promoted are flagged as done and the others
    keep their flag.  A PENDING file without any child to promote is left
    exactly as it is, so a file that is PENDING with no open child is
    never completed by the reconciler.  The same holds one level up, for
    a PENDING commit and its files as the first loop left them. *)
Theorem reconcile_pending_promotes :
  forall (r : Run) (s : Scanner),
    run_ranges_maps r ->
    let s' := reconcilePending r s in
    (forall file d,
       file <> "" -> Get (TrackerFiles s) file = Some d ->
       Code d = KeyCodePending ->
       exists d',
         Get (TrackerFiles s') file = Some d'
         /\ promoted (TrackerRequests s) d d'
         /\ ((forall c, Children d !! c <> Some false) -> d' = d))
    /\ (forall commit d,
          commit <> "" -> Get (TrackerCommits s) commit = Some d ->
          Code d = KeyCodePending ->
          exists d',
            Get (TrackerCommits s') commit = Some d'
            /\ promoted (TrackerFiles s') d d'
            /\ ((forall c, Children d !! c <> Some false) -> d' = d)).
Proof.
  intros r s Hr s'.
  assert (forall children_tracker now parents key d,
            key <> "" -> Keys parents !! key = Some d ->
            Code d = KeyCodePending ->
            exists d',
              Keys (reconcile_keys r now children_tracker parents
                      (filter (fun kd => Code kd.2 = KeyCodePending)
                              (Keys parents))) !! key = Some d'
              /\ promoted children_tracker d d'
              /\ ((forall c, Children d !! c <> Some false) -> d' = d))
    as Hlevel.
  { intros children_tracker now parents key d Hkey Hd Hcode.
    destruct (reconcile_keys_pending_key children_tracker r now Hr parents
                key d Hkey Hd Hcode)
      as (d' & Hd' & _ & Hiff & Hquiet & Htrue & Hsame).
    exists d'. split; [done|]. split; [by split_and!|].
    intros Hclosed. apply Hquiet. intros c [Hopen _]. by destruct (Hclosed c). }
  subst s'. unfold reconcilePending.
  rewrite !ReconcileFacts.pending_is_valid.
  cbn [TrackerFiles TrackerCommits TrackerRequests]. unfold Get.
  split; intros key d; apply Hlevel.
Qed.

Lemma reconcile_pending_promotes_witness :
  let s' := reconcilePending example_run example_scanner in
  (forall file d,
     file <> "" -> Get (TrackerFiles example_scanner) file = Some d ->
     Code d = KeyCodePending ->
     exists d',
       Get (TrackerFiles s') file = Some d'
       /\ promoted (TrackerRequests example_scanner) d d'
       /\ ((forall c, Children d !! c <> Some false) -> d' = d))
  /\ (forall commit d,
        commit <> "" -> Get (TrackerCommits example_scanner) commit = Some d ->
        Code d = KeyCodePending ->
        exists d',
          Get (TrackerCommits s') commit = Some d'
          /\ promoted (TrackerFiles s') d d'
          /\ ((forall c, Children d !! c <> Some false) -> d' = d)).
Proof.
  apply (reconcile_pending_promotes example_run example_scanner).
  split; intros m; reflexivity.
Defined.

(** X24.  One run is enough for two levels: a PENDING commit with an open
    file, all of whose open files are PENDING with an open request and
    have only COMPLETE requests among their open children, is COMPLETE
    after a single run of the reconciler, and so are these files. *)
Theorem reconcile_pending_completes_commit_in_one_run :
  forall (r : Run) (s : Scanner) commit dc,
    run_ranges_maps r ->
    commit <> "" ->
    Get (TrackerCommits s) commit = Some dc ->
    Code dc = KeyCodePending ->
    (exists f, Children dc !! f = Some false) ->
    (forall f, Children dc !! f = Some false ->
       f <> ""
       /\ exists df,
            Get (TrackerFiles s) f = Some df
            /\ Code df = KeyCodePending
            /\ (exists q, Children df !! q = Some false)
            /\ forall q, Children df !! q = Some false ->
                 exists dq,
                   Get (TrackerRequests s) q = Some dq
                   /\ Code dq = KeyCodeComplete) ->
    let s' := reconcilePending r s in
    (exists dc',
       Get (TrackerCommits s') commit = Some dc'
       /\ Code dc' = KeyCodeComplete
       /\ forall f, Children dc !! f = Some false ->
            Children dc' !! f = Some true)
    /\ (forall f, Children dc !! f = Some false ->
        exists df',
          Get (TrackerFiles s') f = Some df'
          /\ Code df' = KeyCodeComplete).
Proof.
  intros r s commit dc Hr Hcommit Hdc Hcode Hopen Hfiles s'.
  set (files' := reconcile_keys r (now_file r) (TrackerRequests s)
                   (TrackerFiles s)
                   (filter (fun kd => Code kd.2 = KeyCodePending)
                           (Keys (TrackerFiles s)))).
  assert (s' = {| TrackerCommits :=
                    reconcile_keys r (now_commit r) files' (TrackerCommits s)
                      (filter (fun kd => Code kd.2 = KeyCodePending)
                              (Keys (TrackerCommits s)));
                  TrackerFiles := files';
                  TrackerRequests := TrackerRequests s |}) as Hs'.
  { subst s'. unfold reconcilePending.
    by rewrite !ReconcileFacts.pending_is_valid. }
  assert (forall f, Children dc !! f = Some false ->
            exists df', Keys files' !! f = Some df'
                        /\ Code df' = KeyCodeComplete) as Hdone.
  { intros f Hf. destruct (Hfiles f Hf) as (Hne & df & Hdf & Hpending & Hq & Hall).
    destruct (reconcile_keys_pending_key (TrackerRequests s) r (now_file r) Hr
                (TrackerFiles s) f df Hne Hdf Hpending)
      as (df' & Hdf' & _ & Hiff & _).
    exists df'. split; [exact Hdf'|]. apply Hiff.
    assert (forall q, Children df !! q = Some false ->
              promotable (TrackerRequests s) (Children df) q) as Hprom.
    { intros q Hopen'. split; [done|]. by apply Hall. }
    split; [|exact Hprom]. destruct Hq as [q Hopen']. exists q. by apply Hprom. }
  assert (forall f, Children dc !! f = Some false ->
            promotable files' (Children dc) f) as Hprom
    by (intros f Hf; split; [done|by apply Hdone]).
  rewrite Hs'. cbn [TrackerCommits TrackerFiles]. split; [|exact Hdone].
  destruct (reconcile_keys_pending_key files' r (now_commit r) Hr
              (TrackerCommits s) commit dc Hcommit Hdc Hcode)
    as (dc' & Hdc' & _ & Hiff & _ & Htrue & _).
  exists dc'. split; [exact Hdc'|]. split.
  - apply Hiff. split; [|exact Hprom]. destruct Hopen as [f Hf].
    exists f. by apply Hprom.
  - intros f Hf. by apply Htrue, Hprom.
Qed.

Lemma reconcile_pending_completes_commit_in_one_run_witness :
  let dc :=
    {| Code := KeyCodePending; State := KeyStatePending; Message := "";
       Children := {["file1" := false]};
       TimestampFirst := 1; TimestampLatest := 1 |} in
  let s' := reconcilePending example_run example_scanner in
  (exists dc',
     Get (TrackerCommits s') "commit1" = Some dc'
     /\ Code dc' = KeyCodeComplete
     /\ forall f, Children dc !! f = Some false ->
          Children dc' !! f = Some true)
  /\ (forall f, Children dc !! f = Some false ->
      exists df',
        Get (TrackerFiles s') f = Some df'
        /\ Code df' = KeyCodeComplete).
Proof.
  intros dc.
  apply (reconcile_pending_completes_commit_in_one_run example_run
           example_scanner "commit1" dc).
  - split; intros m; reflexivity.
  - discriminate.
  - reflexivity.
  - reflexivity.
  - exists "file1". reflexivity.
  - intros f Hf. cbn [Children dc] in Hf.
    apply lookup_singleton_Some in Hf as [<- _]. split; [discriminate|].
    eexists. split; [reflexivity|]. split; [reflexivity|].
    split; [by exists "request1"|].
    intros q Hq. cbn [Children] in Hq.
    change (children_of_keys ["request1"])
      with (<["request1" := false]> (∅ : gmap string bool)) in Hq.
    apply lookup_insert_Some in Hq as [[<- _]|[_ Hq]];
      [|by rewrite lookup_empty in Hq].
    eexists. split; reflexivity.
Defined.

End ReconcileEffectFacts.
